(** * Personal finance analyzer: metrics aggregation and pattern detection

    A shallow embedding of [FinancialCalculator] (tools/calculator.ts) and
    [PatternDetector] (tools/patternDetector.ts), and the properties of the
    specification that concern them.

    Modelling conventions.
    - A JavaScript [number] is a value of [num]: a rational, or one of
      the three IEEE special values NaN, +Infinity, -Infinity.  Division by
      zero, [Infinity - Infinity], comparisons with NaN, truthiness and
      [Math.max()] of nothing behave as in JavaScript.  Module [JS] has the
      operations without rounding; module [IEEE] has them as the engine
      performs them, every result rounded to the nearest binary64 value,
      with overflow to an infinity.  The recurring-charge, spike and trend
      detectors, whose outcome at a threshold depends on the rounding, are
      embedded over [IEEE]; what is stated over [JS] either does not
      depend on the rounding or is stated for inputs on which no
      operation rounds.  The sign of zero is not modelled.
    - A [Date] is the triple of observations the code makes of it:
      [getTime()], [getFullYear()] and [getMonth()].
    - A [Map] is an association list in insertion order; [set] on a present
      key keeps the key's position, as [Map.prototype.set] does.
    - [Array.prototype.sort] is a stable sort; a comparator result that is
      NaN counts as 0.
    - A spread call [f(...args)] passes one argument per element, and an
      engine raises a [RangeError] beyond its limit on arguments.
      [calculateMetrics_call] models this limit; the detectors are
      embedded for inputs within it (the spike detector spreads one total
      per month of a category into [Math.max]).
    - Descriptions are ASCII strings.
    - [console.log] calls are omitted. *)

From Stdlib Require Import ZArith QArith Qcanon List String Ascii Bool Lia.
From Stdlib Require Import DecimalString DecimalZ Lqa.
From Stdlib Require OrderedTypeEx.
From Stdlib Require Floats.SpecFloat.
From Stdlib Require Import Sorting.Sorted Sorting.Permutation.
Import ListNotations.

Set Implicit Arguments.

(** ** JavaScript numbers *)

Module JS.

Inductive num : Type :=
| Fin (q : Qc)
| PInf
| NInf
| NaN.

Definition qz (z : Z) : Qc := Q2Qc (inject_Z z).
Definition ofZ (z : Z) : num := Fin (qz z).
Definition ofNat (n : nat) : num := ofZ (Z.of_nat n).
(** The decimal literal [n/d], e.g. [lit 15 10] for [1.5]. *)
Definition lit (n : Z) (d : positive) : num := Fin (Q2Qc (n # d)).

Definition zero : num := ofZ 0.

Definition Qc_ltb (a b : Qc) : bool :=
  match (a ?= b)%Qc with Lt => true | _ => false end.
Definition Qc_leb (a b : Qc) : bool :=
  match (a ?= b)%Qc with Gt => false | _ => true end.
Definition Qc_eqb (a b : Qc) : bool :=
  match (a ?= b)%Qc with Eq => true | _ => false end.

Definition neg (x : num) : num :=
  match x with
  | Fin q => Fin (- q)
  | PInf => NInf
  | NInf => PInf
  | NaN => NaN
  end.

Definition add (x y : num) : num :=
  match x, y with
  | NaN, _ | _, NaN => NaN
  | Fin a, Fin b => Fin (a + b)
  | PInf, NInf | NInf, PInf => NaN
  | PInf, _ | _, PInf => PInf
  | NInf, _ | _, NInf => NInf
  end.

Definition sub (x y : num) : num := add x (neg y).

(** An infinity of sign [pos] scaled by a finite factor [q]. *)
Definition inf_times (pos : bool) (q : Qc) : num :=
  match (q ?= 0)%Qc with
  | Eq => NaN
  | Gt => if pos then PInf else NInf
  | Lt => if pos then NInf else PInf
  end.

Definition mul (x y : num) : num :=
  match x, y with
  | NaN, _ | _, NaN => NaN
  | Fin a, Fin b => Fin (a * b)
  | PInf, Fin b => inf_times true b
  | NInf, Fin b => inf_times false b
  | Fin a, PInf => inf_times true a
  | Fin a, NInf => inf_times false a
  | PInf, PInf | NInf, NInf => PInf
  | PInf, NInf | NInf, PInf => NInf
  end.

Definition div (x y : num) : num :=
  match x, y with
  | NaN, _ | _, NaN => NaN
  | Fin a, Fin b =>
      if Qc_eqb b 0 then
        match (a ?= 0)%Qc with Eq => NaN | Gt => PInf | Lt => NInf end
      else Fin (a / b)
  | Fin _, PInf | Fin _, NInf => zero
  | PInf, Fin b => if Qc_ltb b 0 then NInf else PInf
  | NInf, Fin b => if Qc_ltb b 0 then PInf else NInf
  | PInf, PInf | PInf, NInf | NInf, PInf | NInf, NInf => NaN
  end.

Definition abs (x : num) : num :=
  match x with
  | Fin q => if Qc_ltb q 0 then Fin (- q) else Fin q
  | PInf | NInf => PInf
  | NaN => NaN
  end.

(** [x < y]; false as soon as one side is NaN. *)
Definition ltb (x y : num) : bool :=
  match x, y with
  | Fin a, Fin b => Qc_ltb a b
  | NInf, Fin _ | NInf, PInf | Fin _, PInf => true
  | _, _ => false
  end.

(** [x <= y]. *)
Definition leb (x y : num) : bool :=
  match x, y with
  | Fin a, Fin b => Qc_leb a b
  | NInf, Fin _ | NInf, PInf | Fin _, PInf | NInf, NInf | PInf, PInf => true
  | _, _ => false
  end.

Definition gtb (x y : num) : bool := ltb y x.
Definition geb (x y : num) : bool := leb y x.

(** [x === y] on numbers. *)
Definition eqb (x y : num) : bool :=
  match x, y with
  | Fin a, Fin b => Qc_eqb a b
  | PInf, PInf | NInf, NInf => true
  | _, _ => false
  end.

(** ToBoolean: 0 and NaN are falsy. *)
Definition truthy (x : num) : bool :=
  match x with
  | Fin q => negb (Qc_eqb q 0)
  | NaN => false
  | PInf | NInf => true
  end.

(** [x || d]. *)
Definition or (x d : num) : num := if truthy x then x else d.

(** [o || d] where [o] is the result of [Map.prototype.get]. *)
Definition get_or (o : option num) (d : num) : num :=
  match o with
  | Some x => or x d
  | None => d
  end.

Definition max2 (x y : num) : num :=
  match x, y with
  | NaN, _ | _, NaN => NaN
  | _, _ => if ltb x y then y else x
  end.

Definition min2 (x y : num) : num :=
  match x, y with
  | NaN, _ | _, NaN => NaN
  | _, _ => if ltb y x then y else x
  end.

(** [Math.max(...l)] and [Math.min(...l)]. *)
Definition Math_max (l : list num) : num := fold_left max2 l NInf.
Definition Math_min (l : list num) : num := fold_left min2 l PInf.

(** [l.reduce((a, b) => a + b, 0)]. *)
Definition sum (l : list num) : num := fold_left add l zero.

(** [x > m + 3 * Math.sqrt(v)].  The square root of a rational is not
    rational in general, so for finite operands the comparison is decided
    in the equivalent squared form [x - m > 0 /\ (x - m)^2 > 9 v].
    [Math.sqrt] of a negative number or of NaN is NaN, of +Infinity is
    +Infinity. *)
Definition gt_plus_3_sqrt (x m v : num) : bool :=
  match v with
  | Fin v' =>
      if Qc_ltb v' 0 then false
      else
        match m, x with
        | NaN, _ | _, NaN => false
        | PInf, _ => false
        | NInf, NInf => false
        | NInf, _ => true
        | Fin _, NInf => false
        | Fin _, PInf => true
        | Fin m', Fin x' =>
            Qc_ltb 0 (x' - m') &&
            Qc_ltb (qz 9 * v') ((x' - m') * (x' - m'))
        end
  | _ => false
  end.

Definition is_nan (x : num) : bool :=
  match x with NaN => true | _ => false end.

Definition is_fin (x : num) : bool :=
  match x with Fin _ => true | _ => false end.

(** Truncation toward zero of a rational. *)
Definition trunc (q : Qc) : Z := Z.quot (Qnum q) (Zpos (Qden q)).

(** TimeClip: the time value of [new Date(x)]. *)
Definition TimeClip (x : num) : num :=
  match x with
  | Fin q =>
      if Qc_leb q (qz 8640000000000000) && Qc_leb (qz (-8640000000000000)) q
      then ofZ (trunc q) else NaN
  | _ => NaN
  end.

End JS.

Import JS.

(** ** Arrays and Maps *)

Section ArraySort.
Variable A : Type.
(** The comparator passed to [sort]. *)
Variable cmp : A -> A -> num.

(** [x] has to come after [y]: the comparator is positive. *)
Definition after (x y : A) : bool := gtb (cmp x y) zero.

Fixpoint sort_insert (x : A) (l : list A) : list A :=
  match l with
  | [] => [x]
  | y :: r => if after x y then y :: sort_insert x r else x :: l
  end.

(** [l.sort(cmp)]: stable, every element is placed before the first
    element of the already sorted suffix that it need not follow. *)
Definition Array_sort (l : list A) : list A := fold_right sort_insert [] l.
End ArraySort.

(** Keys of a [Map] or [Set], compared by value. *)
Class KeyEq (K : Type) : Type := {
  keqb : K -> K -> bool;
  keqb_eq : forall a b, keqb a b = true <-> a = b
}.

#[export] Instance KeyEq_string : KeyEq string :=
  {| keqb := String.eqb; keqb_eq := String.eqb_eq |}.

Section JSMap.
Context {K : Type} {KE : KeyEq K}.
Variable V : Type.

Definition JSMap : Type := list (K * V).

Fixpoint Map_get (k : K) (m : JSMap) : option V :=
  match m with
  | [] => None
  | (k', v) :: r => if keqb k' k then Some v else Map_get k r
  end.

Fixpoint Map_set (k : K) (v : V) (m : JSMap) : JSMap :=
  match m with
  | [] => [(k, v)]
  | (k', v') :: r =>
      if keqb k' k then (k, v) :: r else (k', v') :: Map_set k v r
  end.

(** One round of the idiom [m.set(key(t), f(m.get(key(t)), t))]. *)
Definition Map_update {T : Type} (key : T -> K) (f : option V -> T -> V)
           (m : JSMap) (t : T) : JSMap :=
  Map_set (key t) (f (Map_get (key t) m) t) m.
End JSMap.

Section JSSet.
Context {K : Type} {KE : KeyEq K}.

Definition Set_has (k : K) (s : list K) : bool := existsb (keqb k) s.

Definition Set_add (k : K) (s : list K) : list K :=
  if Set_has k s then s else s ++ [k].
End JSSet.

(** [a || []] where [a] is the result of [Map.prototype.get]; an array is
    always truthy. *)
Definition get_or_empty {A : Type} (o : option (list A)) : list A :=
  match o with
  | Some l => l
  | None => []
  end.

Fixpoint last_opt {A : Type} (l : list A) : option A :=
  match l with
  | [] => None
  | [x] => Some x
  | _ :: r => last_opt r
  end.

(** ** Strings *)

Open Scope string_scope.

Definition char_code (c : ascii) : nat := nat_of_ascii c.

Definition is_upper (c : ascii) : bool :=
  (65 <=? char_code c)%nat && (char_code c <=? 90)%nat.
Definition is_lower (c : ascii) : bool :=
  (97 <=? char_code c)%nat && (char_code c <=? 122)%nat.
Definition is_digit (c : ascii) : bool :=
  (48 <=? char_code c)%nat && (char_code c <=? 57)%nat.
(** The ASCII part of the regular expression class [\s]. *)
Definition is_space (c : ascii) : bool :=
  ((9 <=? char_code c)%nat && (char_code c <=? 13)%nat)
  || (char_code c =? 32)%nat.

Definition lower_char (c : ascii) : ascii :=
  if is_upper c then ascii_of_nat (char_code c + 32) else c.

Fixpoint toLowerCase (s : string) : string :=
  match s with
  | EmptyString => EmptyString
  | String c r => String (lower_char c) (toLowerCase r)
  end.

(** [s.replace(/[class]/g, "")] for a class given by its complement
    [keep]; removing the runs [\d+] removes every digit. *)
Fixpoint keep_chars (keep : ascii -> bool) (s : string) : string :=
  match s with
  | EmptyString => EmptyString
  | String c r =>
      if keep c then String c (keep_chars keep r) else keep_chars keep r
  end.

Fixpoint trimStart (s : string) : string :=
  match s with
  | EmptyString => EmptyString
  | String c r => if is_space c then trimStart r else s
  end.

Fixpoint trimEnd (s : string) : string :=
  match s with
  | EmptyString => EmptyString
  | String c r =>
      match trimEnd r with
      | EmptyString => if is_space c then EmptyString else String c EmptyString
      | r' => String c r'
      end
  end.

Definition trim (s : string) : string := trimEnd (trimStart s).

(** [s.split(/\s+/)]: [cur] is the piece being read, [in_ws] tells that the
    previous character belonged to a separator. *)
Fixpoint split_ws_from (in_ws : bool) (cur : string) (s : string)
  : list string :=
  match s with
  | EmptyString => [cur]
  | String c r =>
      if is_space c then
        if in_ws then split_ws_from true EmptyString r
        else cur :: split_ws_from true EmptyString r
      else split_ws_from false (cur ++ String c EmptyString) r
  end.

Definition split_ws (s : string) : list string :=
  split_ws_from false EmptyString s.

(** [`${z}`] for an integer [z]. *)
Definition string_of_Z (z : Z) : string :=
  DecimalString.NilZero.string_of_int (Z.to_int z).

(** [s.padStart(2, "0")]. *)
Definition padStart2 (s : string) : string :=
  match String.length s with
  | O => "00"
  | S O => "0" ++ s
  | _ => s
  end.

(** [a.localeCompare(b)], for the keys the code compares: strings of
    digits and hyphens, ordered by code unit. *)
Definition localeCompare (a b : string) : num :=
  match String.compare a b with
  | Lt => ofZ (-1)
  | Eq => zero
  | Gt => ofZ 1
  end.

(** ** Data model (types/index.ts) *)

Record JSDate : Type := {
  getTime : Z;       (* milliseconds since the epoch *)
  getFullYear : Z;
  getMonth : Z       (* 0 .. 11 *)
}.

Inductive SpendingCategory : Type :=
| FoodDining | Transportation | Shopping | Entertainment | BillsUtilities
| Healthcare | Housing | Income | Other.

Definition category_name (c : SpendingCategory) : string :=
  match c with
  | FoodDining => "Food & Dining"
  | Transportation => "Transportation"
  | Shopping => "Shopping"
  | Entertainment => "Entertainment"
  | BillsUtilities => "Bills & Utilities"
  | Healthcare => "Healthcare"
  | Housing => "Housing"
  | Income => "Income"
  | Other => "Other"
  end.

Definition category_eqb (a b : SpendingCategory) : bool :=
  String.eqb (category_name a) (category_name b).

Lemma category_eqb_eq (a b : SpendingCategory) :
  category_eqb a b = true <-> a = b.
Proof.
  split.
  - destruct a, b; (reflexivity || discriminate).
  - intros ->. destruct b; reflexivity.
Qed.

#[export] Instance KeyEq_category : KeyEq SpendingCategory :=
  {| keqb := category_eqb; keqb_eq := category_eqb_eq |}.

Record CategorizedTransaction : Type := {
  date : JSDate;
  description : string;
  amount : num;
  category : SpendingCategory;
  isIncome : bool;
  confidence : num
}.

Inductive PatternType : Type :=
| recurring_charge | spending_spike | anomaly | trend.

Inductive Severity : Type := low | medium | high.

Inductive Direction : Type := increasing | decreasing.

(** The human-readable description of a pattern: which template was used
    and the values interpolated into it (the digits printed by [toFixed]
    are not modelled). *)
Inductive PatternText : Type :=
| RecurringText (desc : string) (avgAmount : num)
| SpikeText (category : SpendingCategory) (max avg : num)
| AnomalyText (desc : string) (amount : num)
| TrendText (direction : Direction) (absPercentChange : num).

Record DetectedPattern : Type := {
  type : PatternType;
  text : PatternText;
  transactions : list CategorizedTransaction;
  severity : Severity;
  impact : num
}.

Record CategoryBreakdown : Type := {
  cb_category : SpendingCategory;
  total : num;
  percentage : num;
  transactionCount : num
}.

Record FinancialMetrics : Type := {
  totalSpending : num;
  totalIncome : num;
  netCashFlow : num;
  averageDaily : num;
  averageMonthly : num;
  categoryBreakdown : list CategoryBreakdown
}.

Definition MS_PER_DAY : num := ofZ (1000 * 60 * 60 * 24).

(** [t.date.getTime()]. *)
Definition time (t : CategorizedTransaction) : num := ofZ (getTime (date t)).

(** [txns.reduce((sum, t) => sum + t.amount, 0)]. *)
Definition sumAmounts (txns : list CategorizedTransaction) : num :=
  fold_left (fun sum t => add sum (amount t)) txns zero.

Definition expense (t : CategorizedTransaction) : bool := negb (isIncome t).

Close Scope string_scope.

(** ** FinancialCalculator (tools/calculator.ts) *)

(** [(categoryTotals.get(t.category) || 0) + t.amount] *)
Definition addAmount (current : option num) (t : CategorizedTransaction) : num :=
  add (get_or current zero) (amount t).

(** [(categoryCounts.get(t.category) || 0) + 1] *)
Definition addOne (current : option num) (t : CategorizedTransaction) : num :=
  add (get_or current zero) (ofZ 1).

(** The loop body of [calculateCategoryBreakdown]: both maps are updated
    under the transaction's category. *)
Definition tallyStep
  (st : JSMap (K:=SpendingCategory) num * JSMap (K:=SpendingCategory) num)
  (t : CategorizedTransaction)
  : JSMap (K:=SpendingCategory) num * JSMap (K:=SpendingCategory) num :=
  let '(categoryTotals, categoryCounts) := st in
  (Map_update category addAmount categoryTotals t,
   Map_update category addOne categoryCounts t).

Definition breakdownEntry (categoryCounts : JSMap (K:=SpendingCategory) num)
  (totalSpending : num) (entry : SpendingCategory * num) : CategoryBreakdown :=
  let '(category, total) := entry in
  let count := get_or (Map_get category categoryCounts) zero in
  let percentage := mul (div total totalSpending) (ofZ 100) in
  {| cb_category := category;
     total := total;
     percentage := percentage;
     transactionCount := count |}.

Definition calculateCategoryBreakdown (expenses : list CategorizedTransaction)
  : list CategoryBreakdown :=
  let '(categoryTotals, categoryCounts) :=
    fold_left tallyStep expenses ([], []) in
  let totalSpending := sumAmounts expenses in
  let breakdown :=
    map (breakdownEntry categoryCounts totalSpending) categoryTotals in
  Array_sort (fun a b => sub (total b) (total a)) breakdown.

Definition calculateMetrics (transactions : list CategorizedTransaction)
  : FinancialMetrics :=
  let income := filter isIncome transactions in
  let expenses := filter expense transactions in
  let totalIncome := sumAmounts income in
  let totalSpending := sumAmounts expenses in
  let netCashFlow := sub totalIncome totalSpending in
  let dates := map time transactions in
  let minDate := TimeClip (Math_min dates) in
  let maxDate := TimeClip (Math_max dates) in
  let daysDiff := div (sub maxDate minDate) MS_PER_DAY in
  let monthsDiff := div daysDiff (ofZ 30) in
  let averageDaily := div totalSpending (or daysDiff (ofZ 1)) in
  let averageMonthly := div totalSpending (or monthsDiff (ofZ 1)) in
  let categoryBreakdown := calculateCategoryBreakdown expenses in
  {| totalSpending := totalSpending;
     totalIncome := totalIncome;
     netCashFlow := netCashFlow;
     averageDaily := averageDaily;
     averageMonthly := averageMonthly;
     categoryBreakdown := categoryBreakdown |}.

(** How a call ends: with a value, or abruptly with an error. *)
Inductive CalcError : Type := EmptyDatasetError | RangeError.

Inductive Completion (A : Type) : Type :=
| Returns (a : A)
| Throws (e : CalcError).
Arguments Returns {A} a.
Arguments Throws {A} e.

Definition bind {A B : Type} (c : Completion A) (k : A -> Completion B)
  : Completion B :=
  match c with
  | Returns a => k a
  | Throws e => Throws e
  end.

(** A spread call [f(...args)] passes every member of [args] as an
    argument of its own.  An engine passes only so many arguments and
    raises a [RangeError] when there are more; how many depends on the
    engine and on the stack that is left, and is the parameter
    [argumentLimit]. *)
Definition spreadCall {A : Type} (argumentLimit : nat) (f : list num -> A)
  (args : list num) : Completion A :=
  if (List.length args <=? argumentLimit)%nat then Returns (f args)
  else Throws RangeError.

(** A call of [calculateMetrics], statement by statement.  The body has
    no [throw] statement; the two spread calls [Math.min(...dates)] and
    [Math.max(...dates)] are the only steps that can end abruptly. *)
Definition calculateMetrics_call (argumentLimit : nat)
  (transactions : list CategorizedTransaction)
  : Completion FinancialMetrics :=
  let income := filter isIncome transactions in
  let expenses := filter expense transactions in
  let totalIncome := sumAmounts income in
  let totalSpending := sumAmounts expenses in
  let netCashFlow := sub totalIncome totalSpending in
  let dates := map time transactions in
  bind (spreadCall argumentLimit Math_min dates) (fun minTime =>
  let minDate := TimeClip minTime in
  bind (spreadCall argumentLimit Math_max dates) (fun maxTime =>
  let maxDate := TimeClip maxTime in
  let daysDiff := div (sub maxDate minDate) MS_PER_DAY in
  let monthsDiff := div daysDiff (ofZ 30) in
  let averageDaily := div totalSpending (or daysDiff (ofZ 1)) in
  let averageMonthly := div totalSpending (or monthsDiff (ofZ 1)) in
  let categoryBreakdown := calculateCategoryBreakdown expenses in
  Returns {| totalSpending := totalSpending;
             totalIncome := totalIncome;
             netCashFlow := netCashFlow;
             averageDaily := averageDaily;
             averageMonthly := averageMonthly;
             categoryBreakdown := categoryBreakdown |})).

(** ** PatternDetector (tools/patternDetector.ts) *)

Definition normalizeDescription (desc : string) : string :=
  let s := toLowerCase desc in
  let s := keep_chars (fun c => negb (is_digit c)) s in
  let s := keep_chars (fun c => is_lower c || is_space c) s in
  let s := trim s in
  String.concat " "%string (firstn 3 (split_ws s)).

Definition normalized (t : CategorizedTransaction) : string :=
  normalizeDescription (description t).

(** *** Recurring charges *)

(** [existing.push(t); m.set(key, existing)] *)
Definition pushTo {T : Type} (existing : option (list T)) (t : T) : list T :=
  get_or_empty existing ++ [t].

Definition descriptionGroups (transactions : list CategorizedTransaction)
  : JSMap (K:=string) (list CategorizedTransaction) :=
  fold_left (Map_update normalized pushTo) transactions [].

(** [for (i = 1; i < dates.length; i++) intervals.push(dates[i] - dates[i-1])] *)
Fixpoint intervalsOf (dates : list num) : list num :=
  match dates with
  | a :: (b :: _) as r => sub b a :: intervalsOf r
  | _ => []
  end.

(** [amounts.reduce((a, b) => a + b, 0) / amounts.length] *)
Definition average (l : list num) : num := div (sum l) (ofNat (List.length l)).

Definition amountsSimilar (avgAmount : num) (amounts : list num) : bool :=
  forallb (fun amt => ltb (abs (sub amt avgAmount)) (mul avgAmount (lit 1 10)))
          amounts.

Definition sortedDates (txns : list CategorizedTransaction) : list num :=
  Array_sort (fun a b => sub a b) (map time txns).

Definition daysIntervalOf (txns : list CategorizedTransaction) : num :=
  let dates := sortedDates txns in
  let intervals := intervalsOf dates in
  let avgInterval := average intervals in
  div avgInterval MS_PER_DAY.

Definition recurringPattern (desc : string)
  (txns : list CategorizedTransaction) (avgAmount : num) : DetectedPattern :=
  {| type := recurring_charge;
     text := RecurringText desc avgAmount;
     transactions := txns;
     severity := if gtb avgAmount (ofZ 50) then medium else low;
     impact := mul avgAmount (ofZ 12) |}.

(** The body of [descriptionGroups.forEach((txns, desc) => ...)]. *)
Definition recurringOf (entry : string * list CategorizedTransaction)
  : list DetectedPattern :=
  let '(desc, txns) := entry in
  if (2 <=? List.length txns)%nat then
    let amounts := map amount txns in
    let avgAmount := average amounts in
    let variance := amountsSimilar avgAmount amounts in
    if variance then
      let daysInterval := daysIntervalOf txns in
      if geb daysInterval (ofZ 25) && leb daysInterval (ofZ 35) then
        [recurringPattern desc txns avgAmount]
      else []
    else []
  else [].

Definition findRecurringCharges (transactions : list CategorizedTransaction)
  : list DetectedPattern :=
  flat_map recurringOf (descriptionGroups transactions).

(** *** Spending spikes *)

Definition spikeMonthKey (t : CategorizedTransaction) : string :=
  (string_of_Z (getFullYear (date t)) ++ "-"
   ++ string_of_Z (getMonth (date t)))%string.

(** The inner update of the first loop: the month's category map gets the
    transaction pushed onto its category. *)
Definition pushToCategory
  (o : option (JSMap (K:=SpendingCategory) (list CategorizedTransaction)))
  (t : CategorizedTransaction)
  : JSMap (K:=SpendingCategory) (list CategorizedTransaction) :=
  Map_update category pushTo (get_or_empty o) t.

Definition monthlyByCategory (transactions : list CategorizedTransaction)
  : JSMap (K:=string)
      (JSMap (K:=SpendingCategory) (list CategorizedTransaction)) :=
  fold_left
    (fun m t => if isIncome t then m
                else Map_update spikeMonthKey pushToCategory m t)
    transactions [].

Definition pushTotal (o : option (list num))
  (entry : SpendingCategory * list CategorizedTransaction) : list num :=
  get_or_empty o ++ [sumAmounts (snd entry)].

Definition categoryMonthlyTotals
  (byMonth : JSMap (K:=string)
      (JSMap (K:=SpendingCategory) (list CategorizedTransaction)))
  : JSMap (K:=SpendingCategory) (list num) :=
  fold_left
    (fun acc monthEntry =>
       fold_left (Map_update fst pushTotal) (snd monthEntry) acc)
    byMonth [].

Definition spikePattern (category : SpendingCategory) (max avg : num)
  : DetectedPattern :=
  let spikeAmount := sub max avg in
  {| type := spending_spike;
     text := SpikeText category max avg;
     transactions := [];
     severity := if gtb spikeAmount (ofZ 500) then high else medium;
     impact := spikeAmount |}.

(** The body of [categoryMonthlyTotals.forEach((totals, category) => ...)]. *)
Definition spikeOf (entry : SpendingCategory * list num)
  : list DetectedPattern :=
  let '(category, totals) := entry in
  if (List.length totals <? 2)%nat then []
  else
    let avg := average totals in
    let max := Math_max totals in
    if gtb max (mul avg (lit 15 10)) then [spikePattern category max avg]
    else [].

Definition findSpendingSpikes (transactions : list CategorizedTransaction)
  : list DetectedPattern :=
  flat_map spikeOf (categoryMonthlyTotals (monthlyByCategory transactions)).

(** *** Anomalies *)

Definition recurringDescriptions (recurringPatterns : list DetectedPattern)
  : list string :=
  fold_left
    (fun s pattern =>
       fold_left (fun s t => Set_add (normalized t) s)
                 (transactions pattern) s)
    recurringPatterns [].

Definition anomalyPattern (t : CategorizedTransaction) : DetectedPattern :=
  {| type := anomaly;
     text := AnomalyText (description t) (amount t);
     transactions := [t];
     severity := if gtb (amount t) (ofZ 1000) then high else medium;
     impact := amount t |}.

(** [amounts.reduce((sum, amt) => sum + Math.pow(amt - avg, 2), 0)
     / amounts.length]: the square of [stdDev]. *)
Definition varianceOf (avg : num) (amounts : list num) : num :=
  div (fold_left (fun sum amt => add sum (mul (sub amt avg) (sub amt avg)))
                 amounts zero)
      (ofNat (List.length amounts)).

(** The body of the last loop of [findAnomalies]. *)
Definition anomalyOf (recurringDescriptions : list string)
  (avg variance : num) (t : CategorizedTransaction) : list DetectedPattern :=
  if isIncome t then []
  else if Set_has (normalized t) recurringDescriptions then []
  else if gt_plus_3_sqrt (amount t) avg variance then [anomalyPattern t]
  else [].

Definition findAnomalies (transactions : list CategorizedTransaction)
  (recurringPatterns : list DetectedPattern) : list DetectedPattern :=
  let recurringDescriptions := recurringDescriptions recurringPatterns in
  let amounts := map amount (filter expense transactions) in
  if (List.length amounts =? 0)%nat then []
  else
    let avg := average amounts in
    let variance := varianceOf avg amounts in
    flat_map (anomalyOf recurringDescriptions avg variance) transactions.

(** *** Trends *)

Definition trendMonthKey (t : CategorizedTransaction) : string :=
  (string_of_Z (getFullYear (date t)) ++ "-"
   ++ padStart2 (string_of_Z (getMonth (date t) + 1)))%string.

(** The loop body is [(monthlyTotals.get(monthKey) || 0) + t.amount],
    that is [addAmount]. *)
Definition monthlyTotals (transactions : list CategorizedTransaction)
  : JSMap (K:=string) num :=
  fold_left
    (fun m t => if isIncome t then m else Map_update trendMonthKey addAmount m t)
    transactions [].

Definition trendPattern (change percentChange : num) : DetectedPattern :=
  let direction := if gtb change zero then increasing else decreasing in
  {| type := trend;
     text := TrendText direction (abs percentChange);
     transactions := [];
     severity := if gtb (abs percentChange) (ofZ 30) then high else medium;
     impact := abs change |}.

(** The part of [findTrends] after the sort, given the first and the last
    month's totals. *)
Definition trendOf (firstMonth lastMonth : num) : list DetectedPattern :=
  let change := sub lastMonth firstMonth in
  let percentChange := mul (div change firstMonth) (ofZ 100) in
  if gtb (abs percentChange) (ofZ 15) then [trendPattern change percentChange]
  else [].

Definition findTrends (transactions : list CategorizedTransaction)
  : list DetectedPattern :=
  let monthlyTotals := monthlyTotals transactions in
  if (List.length monthlyTotals <? 2)%nat then []
  else
    let sortedMonths :=
      Array_sort (fun a b => localeCompare (fst a) (fst b)) monthlyTotals in
    match sortedMonths, last_opt sortedMonths with
    | (_, firstMonth) :: _, Some (_, lastMonth) => trendOf firstMonth lastMonth
    | _, _ => []   (* not reached: the map has at least two entries *)
    end.

(** *** Orchestration *)

(** The patterns in the order in which the four detectors push them. *)
Definition emittedPatterns (transactions : list CategorizedTransaction)
  : list DetectedPattern :=
  let recurringPatterns := findRecurringCharges transactions in
  recurringPatterns
    ++ findAnomalies transactions recurringPatterns
    ++ findSpendingSpikes transactions
    ++ findTrends transactions.

Definition detectPatterns (transactions : list CategorizedTransaction)
  : list DetectedPattern :=
  Array_sort (fun a b => sub (impact b) (impact a))
             (emittedPatterns transactions).

(** ** Reference notions used to state the properties *)

Section Grouping.
Context {K : Type} {KE : KeyEq K}.

(** The distinct keys of [l] in order of first occurrence, as
    [[...new Set(l)]] lists them. *)
Definition distinct (l : list K) : list K :=
  fold_left (fun s k => Set_add k s) l [].

Variables V T : Type.
Variable key : T -> K.

(** The members of [l] with key [k], in the order of [l]. *)
Definition withKey (k : K) (l : list T) : list T :=
  filter (fun t => keqb (key t) k) l.

(** The value a [Map_update] loop with body [f] leaves under a key whose
    members are [l], starting from the entry [o]. *)
Definition accumulate (f : option V -> T -> V) (o : option V) (l : list T)
  : option V :=
  fold_left (fun o t => Some (f o t)) l o.
End Grouping.

(** *** Metrics *)

Open Scope Z_scope.

Definition emptyMetrics : FinancialMetrics :=
  {| totalSpending := zero;
     totalIncome := zero;
     netCashFlow := zero;
     averageDaily := zero;
     averageMonthly := zero;
     categoryBreakdown := [] |}.

(** A date given by its UTC calendar day: [new Date(Date.UTC(year,
    monthIndex, day))] observed in the UTC time zone.  The day number
    since the epoch follows the usual civil-calendar formula. *)
Definition daysFromCivil (year monthIndex day : Z) : Z :=
  let m := monthIndex + 1 in
  let y := if m <=? 2 then year - 1 else year in
  let era := y / 400 in
  let yoe := y - era * 400 in
  let doy := (153 * (if m <=? 2 then m + 9 else m - 3) + 2) / 5 + day - 1 in
  let doe := yoe * 365 + yoe / 4 - yoe / 100 + doy in
  era * 146097 + doe - 719468.

Definition Date_UTC (year monthIndex day : Z) : JSDate :=
  {| getTime := daysFromCivil year monthIndex day * 86400000;
     getFullYear := year;
     getMonth := monthIndex |}.

Definition expenseOn (d : JSDate) (desc : string) (a : num)
  (c : SpendingCategory) : CategorizedTransaction :=
  {| date := d; description := desc; amount := a; category := c;
     isIncome := false; confidence := ofZ 1 |}.

Definition incomeOn (d : JSDate) (desc : string) (a : num)
  : CategorizedTransaction :=
  {| date := d; description := desc; amount := a; category := Income;
     isIncome := true; confidence := ofZ 1 |}.

(** The time value is one a [Date] can hold. *)
Definition validDate (t : CategorizedTransaction) : Prop :=
  -8640000000000000 <= getTime (date t) <= 8640000000000000.

Definition finiteAmount (t : CategorizedTransaction) : Prop :=
  is_fin (amount t) = true.

(** The span as the specification words it: at least one day, in whole
    days between the earliest and the latest date. *)
Definition earliest (ts : list CategorizedTransaction) : Z :=
  match map (fun t => getTime (date t)) ts with
  | [] => 0
  | z :: r => fold_left Z.min r z
  end.

Definition latest (ts : list CategorizedTransaction) : Z :=
  match map (fun t => getTime (date t)) ts with
  | [] => 0
  | z :: r => fold_left Z.max r z
  end.

Definition spec_dateSpanDays (ts : list CategorizedTransaction) : Z :=
  Z.max 1 ((latest ts - earliest ts) / 86400000).

Definition spec_averageDaily (ts : list CategorizedTransaction) : num :=
  div (sumAmounts (filter expense ts)) (ofZ (spec_dateSpanDays ts)).

Definition spec_averageMonthly (ts : list CategorizedTransaction) : num :=
  div (sumAmounts (filter expense ts))
      (max2 (ofZ 1) (div (ofZ (spec_dateSpanDays ts)) (ofZ 30))).

(** Two expenses fifteen days apart. *)
Definition halfMonth : list CategorizedTransaction :=
  [ expenseOn (Date_UTC 2024 0 1) "Groceries"%string (ofZ 100) FoodDining;
    expenseOn (Date_UTC 2024 0 16) "Groceries"%string (ofZ 200) FoodDining ].

(** Two expenses twelve hours apart, at midnight and at noon of the same
    day. *)
Definition halfDay : list CategorizedTransaction :=
  [ expenseOn (Date_UTC 2024 0 1) "Groceries"%string (ofZ 100) FoodDining;
    expenseOn {| getTime := getTime (Date_UTC 2024 0 1) + 12 * 3600000;
                 getFullYear := 2024;
                 getMonth := 0 |}
              "Groceries"%string (ofZ 200) FoodDining ].

(** One expense of amount 0. *)
Definition zeroExpense : list CategorizedTransaction :=
  [ expenseOn (Date_UTC 2024 0 1) "Voided charge"%string (ofZ 0) Other ].

(** Two categories with the same total, the later name first. *)
Definition tiedCategories : list CategorizedTransaction :=
  [ expenseOn (Date_UTC 2024 0 1) "Bookshop"%string (ofZ 10) Shopping;
    expenseOn (Date_UTC 2024 0 2) "Bakery"%string (ofZ 10) FoodDining ].

(** The order of the breakdown as the specification words it: descending
    by total, equal totals by category name ascending. *)
Definition spec_breakdownOrder (a b : CategoryBreakdown) : Prop :=
  ltb (total b) (total a) = true
  \/ (total a = total b
      /\ String.leb (category_name (cb_category a))
                    (category_name (cb_category b)) = true).

(** The total of the expenses of one category. *)
Definition categoryTotal (c : SpendingCategory)
  (expenses : list CategorizedTransaction) : num :=
  sumAmounts (withKey category c expenses).

(** *** Pattern inputs *)

(** [n] daily expenses of the same description and amount, from the
    first of January 2024 on. *)
Definition dailyExpenses (n : nat) (desc : string) (a : num)
  (c : SpendingCategory) : list CategorizedTransaction :=
  map (fun i => expenseOn (Date_UTC 2024 0 (Z.of_nat i)) desc a c) (seq 1 n).

(** Rent of 1500 paid twice, thirty days apart, among thirty coffees of
    10: the rent exceeds the mean by more than three standard
    deviations. *)
Definition rentAndCoffee : list CategorizedTransaction :=
  expenseOn (Date_UTC 2024 0 1) "Rent"%string (ofZ 1500) Housing
  :: dailyExpenses 30 "Coffee"%string (ofZ 10) FoodDining
  ++ [ expenseOn (Date_UTC 2024 0 31) "Rent"%string (ofZ 1500) Housing ].

(** The same with one large purchase. *)
Definition rentCoffeeLaptop : list CategorizedTransaction :=
  rentAndCoffee
  ++ [ expenseOn (Date_UTC 2024 0 15) "Laptop"%string (ofZ 9000) Shopping ].

(** Two charges of 90 and 110, thirty days apart: each differs from the
    mean of 100 by exactly a tenth of it. *)
Definition tenPercentApart : list CategorizedTransaction :=
  [ expenseOn (Date_UTC 2024 0 1) "Water bill"%string (ofZ 90) BillsUtilities;
    expenseOn (Date_UTC 2024 0 31) "Water bill"%string (ofZ 110) BillsUtilities ].

(** A salary of 3000 deposited twice, thirty days apart; no expense. *)
Definition salaryOnly : list CategorizedTransaction :=
  [ incomeOn (Date_UTC 2024 0 1) "Salary"%string (ofZ 3000);
    incomeOn (Date_UTC 2024 0 31) "Salary"%string (ofZ 3000) ].

(** *** Calendar months *)

(** The calendar month of a transaction: year and month index. *)
Definition yearMonth (t : CategorizedTransaction) : Z * Z :=
  (getFullYear (date t), getMonth (date t)).

Definition yearMonth_eqb (a b : Z * Z) : bool :=
  (fst a =? fst b) && (snd a =? snd b).

Lemma yearMonth_eqb_eq (a b : Z * Z) : yearMonth_eqb a b = true <-> a = b.
Proof.
  destruct a as [y m], b as [y' m']. unfold yearMonth_eqb. cbn.
  rewrite andb_true_iff, !Z.eqb_eq. split.
  - intros [-> ->]. reflexivity.
  - intros [= -> ->]. auto.
Qed.

#[export] Instance KeyEq_yearMonth : KeyEq (Z * Z) :=
  {| keqb := yearMonth_eqb; keqb_eq := yearMonth_eqb_eq |}.

(** The key under which the spike detector files a month. *)
Definition spikeKeyOf (ym : Z * Z) : string :=
  (string_of_Z (fst ym) ++ "-" ++ string_of_Z (snd ym))%string.

(** The months in which an expense occurs, in order of first
    occurrence. *)
Definition observedMonths (ts : list CategorizedTransaction) : list (Z * Z) :=
  distinct (map yearMonth (filter expense ts)).

(** The expenses of category [c] made in month [ym]. *)
Definition expensesIn (ym : Z * Z) (c : SpendingCategory)
  (ts : list CategorizedTransaction) : list CategorizedTransaction :=
  withKey category c (withKey yearMonth ym (filter expense ts)).

Definition nonEmpty {A : Type} (l : list A) : bool :=
  match l with
  | [] => false
  | _ :: _ => true
  end.

(** The monthly totals of a category as the specification words them:
    one total per observed month in which the category has an
    expense. *)
Definition spec_monthlyTotals (c : SpendingCategory)
  (ts : list CategorizedTransaction) : list num :=
  map (fun ym => sumAmounts (expensesIn ym c ts))
      (filter (fun ym => nonEmpty (expensesIn ym c ts)) (observedMonths ts)).

(** The calendar months in which category [c] has an expense. *)
Definition monthsOf (c : SpendingCategory)
  (ts : list CategorizedTransaction) : list (Z * Z) :=
  distinct (map yearMonth (withKey category c (filter expense ts))).

(** The category a spike pattern is about. *)
Definition isSpikeOf (c : SpendingCategory) (p : DetectedPattern) : bool :=
  match text p with
  | SpikeText c' _ _ => keqb c' c
  | _ => false
  end.

(** A gym membership of 100 charged every thirty days from January to
    April 2024, and one concert of 300 in April: the monthly totals of
    Entertainment are 100, 100, 100, 400. *)
Definition gymAndConcert : list CategorizedTransaction :=
  [ expenseOn (Date_UTC 2024 0 5) "Gym membership"%string (ofZ 100) Entertainment;
    expenseOn (Date_UTC 2024 1 4) "Gym membership"%string (ofZ 100) Entertainment;
    expenseOn (Date_UTC 2024 2 5) "Gym membership"%string (ofZ 100) Entertainment;
    expenseOn (Date_UTC 2024 3 4) "Gym membership"%string (ofZ 100) Entertainment;
    expenseOn (Date_UTC 2024 3 20) "Concert"%string (ofZ 300) Entertainment ].

(** *** Trends *)

(** The key under which the trend detector files a month. *)
Definition trendKeyOf (ym : Z * Z) : string :=
  (string_of_Z (fst ym) ++ "-" ++ padStart2 (string_of_Z (snd ym + 1)))%string.

(** Months in chronological order are ordered by this index. *)
Definition monthIndex (ym : Z * Z) : Z := fst ym * 12 + snd ym.

(** A calendar month whose year has four digits (the month index of a
    [Date] is always between 0 and 11). *)
Definition fourDigitYear (ym : Z * Z) : Prop :=
  1000 <= fst ym <= 9999 /\ 0 <= snd ym <= 11.

(** The years from 1000 to 9999 and the month indices, listed. *)
Definition fourDigitYears : list Z :=
  map (fun i => 1000 + Z.of_nat i) (seq 0 (Z.to_nat 9000)).

Definition monthIndices : list Z :=
  map Z.of_nat (seq 0 12).

(** The total of the expenses made in month [ym]. *)
Definition monthTotal (ym : Z * Z) (ts : list CategorizedTransaction) : num :=
  sumAmounts (withKey yearMonth ym (filter expense ts)).

(** [ym] is the chronologically first, respectively last, month with an
    expense. *)
Definition firstMonthOf (ts : list CategorizedTransaction) (ym : Z * Z) : Prop :=
  In ym (observedMonths ts)
  /\ forall ym', In ym' (observedMonths ts) -> monthIndex ym <= monthIndex ym'.

Definition lastMonthOf (ts : list CategorizedTransaction) (ym : Z * Z) : Prop :=
  In ym (observedMonths ts)
  /\ forall ym', In ym' (observedMonths ts) -> monthIndex ym' <= monthIndex ym.

(** Expenses of 1000 in January and of 1300 in February 2024. *)
Definition risingSpending : list CategorizedTransaction :=
  [ expenseOn (Date_UTC 2024 0 10) "Groceries"%string (ofZ 600) FoodDining;
    expenseOn (Date_UTC 2024 0 20) "Fuel"%string (ofZ 400) Transportation;
    expenseOn (Date_UTC 2024 1 10) "Groceries"%string (ofZ 800) FoodDining;
    expenseOn (Date_UTC 2024 1 20) "Fuel"%string (ofZ 500) Transportation ].

(** ** FinancialCalculator: monthly trend and averages by category *)

(** An entry of [calculateMonthlyTrend]: [{ month, amount }]. *)
Record MonthAmount : Type := {
  month : string;
  month_amount : num
}.

Definition calculateMonthlyTrend (transactions : list CategorizedTransaction)
  : list MonthAmount :=
  let monthlyTotals :=
    fold_left (Map_update trendMonthKey addAmount)
              (filter expense transactions) [] in
  Array_sort (fun a b => localeCompare (month a) (month b))
    (map (fun entry => {| month := fst entry; month_amount := snd entry |})
         monthlyTotals).

(** The body of [categoryTotals.forEach((total, category) => ...)] in
    [calculateAverageByCategory]. *)
Definition averageStep (categoryCounts : JSMap (K:=SpendingCategory) num)
  (averages : JSMap (K:=SpendingCategory) num)
  (entry : SpendingCategory * num) : JSMap (K:=SpendingCategory) num :=
  let '(category, total) := entry in
  let count := get_or (Map_get category categoryCounts) (ofZ 1) in
  Map_set category (div total count) averages.

Definition calculateAverageByCategory
  (transactions : list CategorizedTransaction)
  : JSMap (K:=SpendingCategory) num :=
  let '(categoryTotals, categoryCounts) :=
    fold_left tallyStep (filter expense transactions) ([], []) in
  fold_left (averageStep categoryCounts) categoryTotals [].

(** ** Further reference notions *)

(** A letter or a whitespace character: what [normalizeDescription]
    keeps of a description. *)
Definition letterOrSpace (c : ascii) : bool :=
  is_upper c || is_lower c || is_space c.

(** The characters of a string. *)
Definition chars (s : string) : list ascii := list_ascii_of_string s.

Fixpoint all_chars (p : ascii -> bool) (s : string) : bool :=
  match s with
  | EmptyString => true
  | String c r => p c && all_chars p r
  end.

Definition first_char (s : string) : option ascii :=
  match s with
  | EmptyString => None
  | String c _ => Some c
  end.

Fixpoint last_char (s : string) : option ascii :=
  match s with
  | EmptyString => None
  | String c r => match last_char r with None => Some c | o => o end
  end.

Definition nonEmpty_string (s : string) : bool :=
  match s with EmptyString => false | _ => true end.

(** A non-empty word of the letters a to z. *)
Definition lowercaseWord (w : string) : bool :=
  nonEmpty_string w && all_chars is_lower w.

(** A number that is finite and not negative. *)
Definition finiteNonNegative (x : num) : bool := is_fin x && leb zero x.

(** The amounts are whole numbers, none negative, and add up to at most
    2^53: every sum of some of them, in any order, is a whole number of
    at most 2^53, which double precision represents exactly. *)
Definition wholeAmounts (ts : list CategorizedTransaction) : Prop :=
  exists zs : list Z,
    map amount ts = map ofZ zs
    /\ Forall (fun z => 0 <= z) zs
    /\ fold_right Z.add 0 zs <= 2 ^ 53.

(** ** TransactionParser (tools/transactionParser.ts) *)

Open Scope string_scope.

Definition double_quote : ascii := "034"%char.
Definition comma : ascii := ","%char.

(** The loop of [parseCSVLine] from a position of the line on, with the
    three variables [result], [current], [inQuotes] it updates; at the
    end of the line the last field is pushed.  Lines are ASCII strings,
    as descriptions are. *)
Fixpoint parseCSVLine_from (result : list string) (current : string)
  (inQuotes : bool) (line : string) : list string :=
  match line with
  | EmptyString => result ++ [trim current]
  | String char rest =>
      if Ascii.eqb char double_quote then
        parseCSVLine_from result current (negb inQuotes) rest
      else if Ascii.eqb char comma && negb inQuotes then
        parseCSVLine_from (result ++ [trim current]) EmptyString inQuotes rest
      else
        parseCSVLine_from result (current ++ String char EmptyString)
                          inQuotes rest
  end.

Definition parseCSVLine (line : string) : list string :=
  parseCSVLine_from [] EmptyString false line.

(** A field as it is written in a line: as it is, or between double
    quotes. *)
Definition writeField (field : bool * string) : string :=
  let '(quoted, text) := field in
  if quoted then String double_quote (text ++ String double_quote EmptyString)
  else text.

(** What can be written and read back: no double quote in the text, and
    no comma unless the field is quoted. *)
Definition writable (field : bool * string) : bool :=
  let '(quoted, text) := field in
  all_chars (fun c => negb (Ascii.eqb c double_quote)
                      && (quoted || negb (Ascii.eqb c comma))) text.

Close Scope string_scope.

(** ** TransactionCategorizer (tools/categorizer.ts) *)

Open Scope string_scope.

(** A [Transaction] as the parser produces it (types/index.ts); the
    optional field [category] is never set before categorization. *)
Module Tx.
Record Transaction : Type := {
  date : JSDate;
  description : string;
  amount : num;
  isIncome : bool
}.
End Tx.

(** [s.includes(keyword)]. *)
Fixpoint includes (s keyword : string) : bool :=
  String.prefix keyword s
  || match s with
     | EmptyString => false
     | String _ rest => includes rest keyword
     end.

(** [desc.includes(k1) || desc.includes(k2) || ...]. *)
Definition includesAny (desc : string) (keywords : list string) : bool :=
  existsb (includes desc) keywords.

(** [{ ...transaction, category, confidence }]. *)
Definition withCategory (transaction : Tx.Transaction)
  (category : SpendingCategory) (confidence : num) : CategorizedTransaction :=
  {| date := Tx.date transaction;
     description := Tx.description transaction;
     amount := Tx.amount transaction;
     category := category;
     isIncome := Tx.isIncome transaction;
     confidence := confidence |}.

Definition ruleBasedCategorization (transaction : Tx.Transaction)
  : CategorizedTransaction :=
  let desc := toLowerCase (Tx.description transaction) in
  if includesAny desc
       ["restaurant"; "cafe"; "starbucks"; "mcdonald"; "pizza"; "chipotle";
        "subway"; "grocery"; "whole foods"; "trader joe"]
  then withCategory transaction FoodDining (lit 8 10)
  else if includesAny desc
       ["uber"; "lyft"; "gas"; "fuel"; "shell"; "chevron"; "parking";
        "transit"]
  then withCategory transaction Transportation (lit 8 10)
  else if includesAny desc
       ["netflix"; "spotify"; "hulu"; "movie"; "theater"; "game"; "gym"]
  then withCategory transaction Entertainment (lit 8 10)
  else if includesAny desc
       ["electric"; "water"; "internet"; "phone"; "utility"; "bill"]
  then withCategory transaction BillsUtilities (lit 8 10)
  else if includesAny desc
       ["pharmacy"; "doctor"; "medical"; "hospital"; "cvs"; "walgreens"]
  then withCategory transaction Healthcare (lit 8 10)
  else if includesAny desc ["rent"; "mortgage"; "landlord"]
  then withCategory transaction Housing (lit 8 10)
  else if includesAny desc
       ["amazon"; "target"; "walmart"; "best buy"; "store"]
  then withCategory transaction Shopping (lit 7 10)
  else if Tx.isIncome transaction
  then withCategory transaction Income (lit 9 10)
  else withCategory transaction Other (lit 5 10).

Definition categorizeTransactions (transactions : list Tx.Transaction)
  : list CategorizedTransaction :=
  map ruleBasedCategorization transactions.

Close Scope string_scope.

(** ** InsightGenerator: the fallback insights (tools/insightGenerator.ts) *)

Open Scope string_scope.

Module Ins.
Inductive InsightCategory : Type := opportunity | alert | info.

(** The description of an insight: a text taken as it is, or one of the
    three templates of the fallback insights with the values interpolated
    into it (the digits printed by [toFixed] are not modelled). *)
Inductive InsightText : Type :=
| Verbatim (s : string)
| OverspendingText (absNetCashFlow : num)
| HighCategoryText (category : SpendingCategory) (percentage : num)
| SubscriptionsText (count : nat) (monthly : num).

Record Insight : Type := {
  title : string;
  description : InsightText;
  category : InsightCategory;
  priority : num;
  potentialSavings : option num;
  actionable : bool
}.
End Ins.

Definition isRecurring (p : DetectedPattern) : bool :=
  match type p with recurring_charge => true | _ => false end.

Definition generateFallbackInsights (metrics : FinancialMetrics)
  (patterns : list DetectedPattern) : list Ins.Insight :=
  let cashFlow :=
    if ltb (netCashFlow metrics) zero then
      [ {| Ins.title := "Negative Cash Flow Alert";
           Ins.description := Ins.OverspendingText (abs (netCashFlow metrics));
           Ins.category := Ins.alert;
           Ins.priority := ofZ 10;
           Ins.potentialSavings := None;
           Ins.actionable := true |} ]
    else [] in
  let highSpending :=
    match categoryBreakdown metrics with
    | topCategory :: _ =>
        if gtb (percentage topCategory) (ofZ 40) then
          [ {| Ins.title :=
                 "High " ++ category_name (cb_category topCategory)
                 ++ " Spending";
               Ins.description :=
                 Ins.HighCategoryText (cb_category topCategory)
                                      (percentage topCategory);
               Ins.category := Ins.info;
               Ins.priority := ofZ 7;
               Ins.potentialSavings := None;
               Ins.actionable := true |} ]
        else []
    | [] => []
    end in
  let recurringPatterns := filter isRecurring patterns in
  let subscriptions :=
    if (0 <? List.length recurringPatterns)%nat then
      let totalRecurring :=
        fold_left (fun sum p => add sum (impact p)) recurringPatterns zero in
      [ {| Ins.title := "Review Subscriptions";
           Ins.description :=
             Ins.SubscriptionsText (List.length recurringPatterns)
                                   (div totalRecurring (ofZ 12));
           Ins.category := Ins.opportunity;
           Ins.priority := ofZ 8;
           Ins.potentialSavings := Some (div totalRecurring (ofZ 12));
           Ins.actionable := true |} ]
    else [] in
  (cashFlow ++ highSpending ++ subscriptions)%list.

(** ** FinancialPlanner (agent/planner.ts) *)

Record DateRange : Type := { start : JSDate; end_ : JSDate }.

(** [totalCount] is the length of an array in [parseCSV]: an integer. *)
Module Parsed.
Record ParsedTransactions : Type := {
  transactions : list Tx.Transaction;
  totalCount : Z;
  dateRange : DateRange
}.
End Parsed.

Record AnalysisStep : Type := {
  tool : string;
  action : string;
  reason : string
}.

Record AnalysisPlan : Type := {
  steps : list AnalysisStep;
  rationale : string;
  estimatedDuration : Z
}.

Definition generateRationale (data : Parsed.ParsedTransactions)
  (monthsDiff : num) : string :=
  let reasons :=
    ((if (Parsed.totalCount data <? 50)%Z then
       ["Small dataset - focused analysis on key metrics"]
     else if (Parsed.totalCount data <? 200)%Z then
       ["Medium dataset - standard comprehensive analysis"]
     else ["Large dataset - thorough analysis with pattern detection"])
    ++ (if geb monthsDiff (ofZ 3) then
          ["Multi-month data enables trend analysis"]
        else []))%list in
  String.concat ". " reasons.

(** [30 + Math.ceil(transactionCount / 10)]. *)
Definition estimateDuration (transactionCount : Z) : Z :=
  (30 + - ((- transactionCount) / 10))%Z.

Definition createSmartPlan (data : Parsed.ParsedTransactions) : AnalysisPlan :=
  let daysDiff :=
    div (sub (ofZ (getTime (end_ (Parsed.dateRange data))))
             (ofZ (getTime (start (Parsed.dateRange data)))))
        MS_PER_DAY in
  let monthsDiff := div daysDiff (ofZ 30) in
  let steps :=
    ([ {| tool := "categorizer";
         action := "categorize all transactions";
         reason := "Categorization is the foundation for all other analyses" |};
      {| tool := "calculator";
         action := "calculate financial metrics";
         reason := "Get overall financial picture and spending breakdown" |} ]
    ++ (if (20 <? Parsed.totalCount data)%Z then
          [ {| tool := "patternDetector";
               action := "detect spending patterns and anomalies";
               reason :=
                 "With " ++ string_of_Z (Parsed.totalCount data)
                 ++ " transactions, pattern detection will find recurring charges and unusual spending" |} ]
        else [])
    ++ [ {| tool := "insightGenerator";
            action := "generate actionable recommendations";
            reason := "Provide specific advice based on spending patterns and metrics" |} ])%list in
  {| steps := steps;
     rationale := generateRationale data monthsDiff;
     estimatedDuration := estimateDuration (Parsed.totalCount data) |}.

(** ** FinancialAgent: the execution of the plan (agent/financialAgent.ts) *)

(** The variables the loop of [analyzeFinances] updates; at its end they
    are the [metrics], [patterns] and [insights] of the report ([metrics]
    is [null] until the calculator has run). *)
Record AnalysisState : Type := {
  categorizedTransactions : list CategorizedTransaction;
  metrics : option FinancialMetrics;
  patterns : list DetectedPattern;
  insights : list Ins.Insight
}.

Section Agent.
(** [InsightGenerator.generateInsights] asks a language model and falls
    back on [generateFallbackInsights]; the agent is verified for any
    behaviour of it. *)
Variable generateInsights :
  option FinancialMetrics -> list DetectedPattern ->
  list CategorizedTransaction -> list Ins.Insight.

Definition initialState (parsedData : Parsed.ParsedTransactions)
  : AnalysisState :=
  {| categorizedTransactions :=
       map (fun t => withCategory t Other (ofZ 0))
           (Parsed.transactions parsedData);
     metrics := None;
     patterns := [];
     insights := [] |}.

(** The body of the loop: [switch (step.tool)]. *)
Definition executeStep (parsedData : Parsed.ParsedTransactions)
  (st : AnalysisState) (step : AnalysisStep) : AnalysisState :=
  if tool step =? "categorizer" then
    {| categorizedTransactions :=
         categorizeTransactions (Parsed.transactions parsedData);
       metrics := metrics st;
       patterns := patterns st;
       insights := insights st |}
  else if tool step =? "calculator" then
    {| categorizedTransactions := categorizedTransactions st;
       metrics := Some (calculateMetrics (categorizedTransactions st));
       patterns := patterns st;
       insights := insights st |}
  else if tool step =? "patternDetector" then
    {| categorizedTransactions := categorizedTransactions st;
       metrics := metrics st;
       patterns := detectPatterns (categorizedTransactions st);
       insights := insights st |}
  else if tool step =? "insightGenerator" then
    {| categorizedTransactions := categorizedTransactions st;
       metrics := metrics st;
       patterns := patterns st;
       insights := generateInsights (metrics st) (patterns st)
                                    (categorizedTransactions st) |}
  else st.

Definition executePlan (parsedData : Parsed.ParsedTransactions)
  (plan : AnalysisPlan) : AnalysisState :=
  fold_left (executeStep parsedData) (steps plan) (initialState parsedData).

(** [analyzeFinances] from the parsed data on: planning, then execution. *)
Definition analyzeFinances (parsedData : Parsed.ParsedTransactions)
  : AnalysisState :=
  executePlan parsedData (createSmartPlan parsedData).
End Agent.

Close Scope string_scope.

(** ** Double-precision arithmetic

    The operations of a JavaScript [number] as the engine performs them:
    the exact result, rounded to the nearest binary64 value, ties to the
    even significand, with overflow to an infinity and gradual underflow.
    The rounding is the one of the Standard Library's specification of
    IEEE 754 ([SpecFloat]), at precision 53 and maximal exponent 1024.
    An operand that is not a binary64 value, such as the decimal [1.07],
    stands for the binary64 value nearest to it, as the literal does in a
    program.  The sign of zero is not represented: no quotient of the
    embedded code has a divisor that can be a negative zero. *)

Module IEEE.

Definition prec : Z := 53.
Definition emax : Z := 1024.

Definition of_spec_float (f : SpecFloat.spec_float) : num :=
  match f with
  | SpecFloat.S754_zero _ => zero
  | SpecFloat.S754_infinity s => if s then NInf else PInf
  | SpecFloat.S754_nan => NaN
  | SpecFloat.S754_finite s m e =>
      Fin (Q2Qc (inject_Z (if s then Zneg m else Zpos m) * Qpower (2 # 1) e))
  end.

(** The binary64 value nearest to the rational [q]: the correctly
    rounded quotient of its numerator by its denominator. *)
Definition round_to_double (q : Qc) : num :=
  match Qnum q with
  | Z0 => zero
  | Zpos n =>
      of_spec_float
        (SpecFloat.SFdiv prec emax (SpecFloat.S754_finite false n 0)
                         (SpecFloat.S754_finite false (Qden q) 0))
  | Zneg n =>
      of_spec_float
        (SpecFloat.SFdiv prec emax (SpecFloat.S754_finite true n 0)
                         (SpecFloat.S754_finite false (Qden q) 0))
  end.

Definition rnd (x : num) : num :=
  match x with
  | Fin q => round_to_double q
  | _ => x
  end.

Definition add (x y : num) : num := rnd (JS.add (rnd x) (rnd y)).
Definition sub (x y : num) : num := rnd (JS.sub (rnd x) (rnd y)).
Definition mul (x y : num) : num := rnd (JS.mul (rnd x) (rnd y)).
Definition div (x y : num) : num := rnd (JS.div (rnd x) (rnd y)).
Definition abs (x : num) : num := JS.abs (rnd x).
Definition ltb (x y : num) : bool := JS.ltb (rnd x) (rnd y).
Definition leb (x y : num) : bool := JS.leb (rnd x) (rnd y).
Definition gtb (x y : num) : bool := ltb y x.
Definition geb (x y : num) : bool := leb y x.

(** [l.reduce((a, b) => a + b, 0)] *)
Definition sum (l : list num) : num := fold_left add l zero.

(** [amounts.reduce((a, b) => a + b, 0) / amounts.length] *)
Definition average (l : list num) : num := div (sum l) (ofNat (List.length l)).

(** [txns.reduce((sum, t) => sum + t.amount, 0)] *)
Definition sumAmounts (txns : list CategorizedTransaction) : num :=
  fold_left (fun sum t => add sum (amount t)) txns zero.

(** *** Recurring charges (patternDetector.ts, findRecurringCharges) *)

Definition amountsSimilar (avgAmount : num) (amounts : list num) : bool :=
  forallb (fun amt => ltb (abs (sub amt avgAmount)) (mul avgAmount (lit 1 10)))
          amounts.

Fixpoint intervalsOf (dates : list num) : list num :=
  match dates with
  | a :: (b :: _) as r => sub b a :: intervalsOf r
  | _ => []
  end.

(** The dates are sorted by the sign of [a - b], which rounding does not
    change: the sorted dates are [sortedDates]. *)
Definition daysIntervalOf (txns : list CategorizedTransaction) : num :=
  let dates := sortedDates txns in
  let intervals := intervalsOf dates in
  let avgInterval := average intervals in
  div avgInterval MS_PER_DAY.

Definition recurringPattern (desc : string)
  (txns : list CategorizedTransaction) (avgAmount : num) : DetectedPattern :=
  {| type := recurring_charge;
     text := RecurringText desc avgAmount;
     transactions := txns;
     severity := if gtb avgAmount (ofZ 50) then medium else low;
     impact := mul avgAmount (ofZ 12) |}.

(** The body of [descriptionGroups.forEach((txns, desc) => ...)]. *)
Definition recurringOf (entry : string * list CategorizedTransaction)
  : list DetectedPattern :=
  let '(desc, txns) := entry in
  if (2 <=? List.length txns)%nat then
    let amounts := map amount txns in
    let avgAmount := average amounts in
    let variance := amountsSimilar avgAmount amounts in
    if variance then
      let daysInterval := daysIntervalOf txns in
      if geb daysInterval (ofZ 25) && leb daysInterval (ofZ 35) then
        [recurringPattern desc txns avgAmount]
      else []
    else []
  else [].

Definition findRecurringCharges (transactions : list CategorizedTransaction)
  : list DetectedPattern :=
  flat_map recurringOf (descriptionGroups transactions).

(** *** Spending spikes (patternDetector.ts, findSpendingSpikes) *)

Definition pushTotal (o : option (list num))
  (entry : SpendingCategory * list CategorizedTransaction) : list num :=
  get_or_empty o ++ [sumAmounts (snd entry)].

Definition categoryMonthlyTotals
  (byMonth : JSMap (K:=string)
      (JSMap (K:=SpendingCategory) (list CategorizedTransaction)))
  : JSMap (K:=SpendingCategory) (list num) :=
  fold_left
    (fun acc monthEntry =>
       fold_left (Map_update fst pushTotal) (snd monthEntry) acc)
    byMonth [].

Definition spikePattern (category : SpendingCategory) (max avg : num)
  : DetectedPattern :=
  let spikeAmount := sub max avg in
  {| type := spending_spike;
     text := SpikeText category max avg;
     transactions := [];
     severity := if gtb spikeAmount (ofZ 500) then high else medium;
     impact := spikeAmount |}.

(** The body of [categoryMonthlyTotals.forEach((totals, category) => ...)]. *)
Definition spikeOf (entry : SpendingCategory * list num)
  : list DetectedPattern :=
  let '(category, totals) := entry in
  if (List.length totals <? 2)%nat then []
  else
    let avg := average totals in
    let max := Math_max totals in
    if gtb max (mul avg (lit 15 10)) then [spikePattern category max avg]
    else [].

Definition findSpendingSpikes (transactions : list CategorizedTransaction)
  : list DetectedPattern :=
  flat_map spikeOf (categoryMonthlyTotals (monthlyByCategory transactions)).

(** *** Trends (patternDetector.ts, findTrends) *)

(** [(monthlyTotals.get(monthKey) || 0) + t.amount] *)
Definition addAmount (current : option num) (t : CategorizedTransaction) : num :=
  add (get_or current zero) (amount t).

Definition monthlyTotals (transactions : list CategorizedTransaction)
  : JSMap (K:=string) num :=
  fold_left
    (fun m t => if isIncome t then m else Map_update trendMonthKey addAmount m t)
    transactions [].

Definition trendPattern (change percentChange : num) : DetectedPattern :=
  let direction := if gtb change zero then increasing else decreasing in
  {| type := trend;
     text := TrendText direction (abs percentChange);
     transactions := [];
     severity := if gtb (abs percentChange) (ofZ 30) then high else medium;
     impact := abs change |}.

(** The part of [findTrends] after the sort, given the first and the last
    month's totals. *)
Definition trendOf (firstMonth lastMonth : num) : list DetectedPattern :=
  let change := sub lastMonth firstMonth in
  let percentChange := mul (div change firstMonth) (ofZ 100) in
  if gtb (abs percentChange) (ofZ 15) then [trendPattern change percentChange]
  else [].

Definition findTrends (transactions : list CategorizedTransaction)
  : list DetectedPattern :=
  let monthlyTotals := monthlyTotals transactions in
  if (List.length monthlyTotals <? 2)%nat then []
  else
    let sortedMonths :=
      Array_sort (fun a b => localeCompare (fst a) (fst b)) monthlyTotals in
    match sortedMonths, last_opt sortedMonths with
    | (_, firstMonth) :: _, Some (_, lastMonth) => trendOf firstMonth lastMonth
    | _, _ => []   (* not reached: the map has at least two entries *)
    end.

(** *** Reference notions *)


(** The monthly totals of a category: one total per observed month in
    which the category has an expense, the month's expenses of the
    category added up in input order. *)
Definition spec_monthlyTotals (c : SpendingCategory)
  (ts : list CategorizedTransaction) : list num :=
  map (fun ym => sumAmounts (expensesIn ym c ts))
      (filter (fun ym => nonEmpty (expensesIn ym c ts)) (observedMonths ts)).

(** The total of the expenses made in month [ym], added up in input
    order as the loop of [findTrends] does, by
    [(current || 0) + t.amount]. *)
Definition monthTotal (ym : Z * Z) (ts : list CategorizedTransaction) : num :=
  fold_left (fun current t => add (or current zero) (amount t))
            (withKey yearMonth ym (filter expense ts)) zero.

End IEEE.

(** *** Inputs at the thresholds *)

(** Three charges of 10.50, 12.00 and 12.50, thirty days apart: the
    first differs from the mean of 35/3 by exactly a tenth of it. *)
Definition streaming : list CategorizedTransaction :=
  [ expenseOn (Date_UTC 2024 0 1) "Streaming"%string (lit 105 10) Entertainment;
    expenseOn (Date_UTC 2024 0 31) "Streaming"%string (ofZ 12) Entertainment;
    expenseOn (Date_UTC 2024 2 1) "Streaming"%string (lit 125 10) Entertainment ].

(** Groceries of 1.07 and 7.78 in January and of 26.55 in February 2024:
    the larger monthly total is exactly 1.5 times the mean of 8.85 and
    26.55. *)
Definition groceries : list CategorizedTransaction :=
  [ expenseOn (Date_UTC 2024 0 5) "Market"%string (lit 107 100) FoodDining;
    expenseOn (Date_UTC 2024 0 9) "Market"%string (lit 778 100) FoodDining;
    expenseOn (Date_UTC 2024 1 5) "Market"%string (lit 2655 100) FoodDining ].

(** Expenses of 1.14 and 2.46 in January and of 4.14 in February 2024:
    the change from 3.60 to 4.14 is exactly 15 percent. *)
Definition fifteenPercent : list CategorizedTransaction :=
  [ expenseOn (Date_UTC 2024 0 5) "Market"%string (lit 114 100) FoodDining;
    expenseOn (Date_UTC 2024 0 9) "Market"%string (lit 246 100) FoodDining;
    expenseOn (Date_UTC 2024 1 5) "Market"%string (lit 414 100) FoodDining ].

(** An expense of 100 in December of the year 999 and one of 200 in June
    2024. *)
Definition acrossYears : list CategorizedTransaction :=
  [ expenseOn (Date_UTC 999 11 15) "Tithe"%string (ofZ 100) Other;
    expenseOn (Date_UTC 2024 5 15) "Market"%string (ofZ 200) FoodDining ].
(** * Properties *)

(** ** Arithmetic of [num] *)



Lemma Qc_eq_iff (a b : Qc) : a = b <-> (a == b)%Q.
Proof. split; [intros ->; reflexivity | apply Qc_is_canon]. Qed.

(** Turns a goal on canonical rationals into one on [Q], for [lra]. *)
Ltac qc2q :=
  repeat match goal with
  | H : @eq Qc _ _ |- _ => apply Qc_eq_iff in H
  | H : ~ @eq Qc _ _ |- _ => rewrite Qc_eq_iff in H
  | |- @eq Qc _ _ => apply Qc_is_canon
  | |- ~ @eq Qc _ _ => rewrite Qc_eq_iff
  end;
  unfold Qclt, Qcle, Qcminus, Qcdiv, Qcplus, Qcmult, Qcopp, qz, Q2Qc in *;
  cbn [this] in *;
  repeat match goal with
  | H : context [Qred ?x] |- _ => rewrite (Qred_correct x) in H
  | |- context [Qred ?x] => rewrite (Qred_correct x)
  end;
  repeat match goal with
  | x : Qc |- _ =>
      let q := fresh "q" in
      let c := fresh "c" in
      destruct x as [q c]; cbn [this] in *; clear c
  end.

Lemma Qc_ltb_lt (a b : Qc) : Qc_ltb a b = true <-> (a < b)%Qc.
Proof.
  unfold Qc_ltb. rewrite Qclt_alt.
  destruct (a ?= b)%Qc; split; congruence.
Qed.

Lemma Qc_leb_le (a b : Qc) : Qc_leb a b = true <-> (a <= b)%Qc.
Proof.
  unfold Qc_leb. rewrite Qcle_alt.
  destruct (a ?= b)%Qc; split; congruence.
Qed.

Lemma Qc_eqb_eq (a b : Qc) : Qc_eqb a b = true <-> a = b.
Proof.
  unfold Qc_eqb. rewrite Qceq_alt.
  destruct (a ?= b)%Qc; split; congruence.
Qed.

Lemma Qc_ltb_ge (a b : Qc) : Qc_ltb a b = false <-> (b <= a)%Qc.
Proof.
  split; intros H.
  - apply Qcnot_lt_le. intros L. apply Qc_ltb_lt in L. congruence.
  - destruct (Qc_ltb a b) eqn:E; [|reflexivity].
    apply Qc_ltb_lt in E. exfalso. exact (Qclt_not_le _ _ E H).
Qed.

Lemma Qc_leb_gt (a b : Qc) : Qc_leb a b = false <-> (b < a)%Qc.
Proof.
  split; intros H.
  - apply Qcnot_le_lt. intros L. apply Qc_leb_le in L. congruence.
  - destruct (Qc_leb a b) eqn:E; [|reflexivity].
    apply Qc_leb_le in E. exfalso. exact (Qclt_not_le _ _ H E).
Qed.

Lemma Qc_eqb_refl (a : Qc) : Qc_eqb a a = true.
Proof. now apply Qc_eqb_eq. Qed.

Lemma qz_compare (a b : Z) : (qz a ?= qz b)%Qc = (a ?= b)%Z.
Proof.
  unfold Qccompare, qz, Q2Qc. cbn [this].
  rewrite <- Qred_compare. unfold Qcompare. cbn.
  now rewrite !Z.mul_1_r.
Qed.

Lemma qz_inj (a b : Z) : qz a = qz b -> a = b.
Proof.
  intros H. apply Z.compare_eq. rewrite <- qz_compare, H.
  now apply Qceq_alt.
Qed.

Lemma qz_add (a b : Z) : (qz a + qz b)%Qc = qz (a + b).
Proof. qc2q. rewrite inject_Z_plus. lra. Qed.

Lemma qz_opp (a : Z) : (- qz a)%Qc = qz (- a).
Proof. qc2q. rewrite inject_Z_opp. lra. Qed.

Lemma qz_0 : qz 0 = 0%Qc.
Proof. now apply Qc_is_canon. Qed.

Lemma ltb_ofZ (a b : Z) : ltb (ofZ a) (ofZ b) = (a <? b)%Z.
Proof.
  unfold ltb, ofZ, Qc_ltb. rewrite qz_compare. unfold Z.ltb.
  now destruct (a ?= b)%Z.
Qed.

Lemma leb_ofZ (a b : Z) : leb (ofZ a) (ofZ b) = (a <=? b)%Z.
Proof.
  unfold leb, ofZ, Qc_leb. rewrite qz_compare. unfold Z.leb.
  now destruct (a ?= b)%Z.
Qed.

Lemma sub_ofZ (a b : Z) : sub (ofZ a) (ofZ b) = ofZ (a - b).
Proof.
  unfold sub, ofZ. cbn. now rewrite qz_opp, qz_add.
Qed.

Lemma add_ofZ (a b : Z) : add (ofZ a) (ofZ b) = ofZ (a + b).
Proof. unfold ofZ. cbn. now rewrite qz_add. Qed.

Lemma ofZ_inj (a b : Z) : ofZ a = ofZ b -> a = b.
Proof.
  intros H. apply qz_inj.
  exact (f_equal (fun x => match x with Fin q => q | _ => qz a end) H).
Qed.

(** A comparator [x - y] is positive exactly when [y < x]. *)
Lemma gtb_sub_zero (x y : num) :
  is_nan x = false -> is_nan y = false -> gtb (sub x y) zero = ltb y x.
Proof.
  destruct x as [a| | |], y as [b| | |]; cbn; try reflexivity; try discriminate.
  intros _ _. rewrite qz_0.
  destruct (Qc_ltb b a) eqn:E.
  - apply Qc_ltb_lt in E. apply Qc_ltb_lt. qc2q. lra.
  - apply Qc_ltb_ge in E. apply Qc_ltb_ge. qc2q. lra.
Qed.

Lemma ltb_false_leb (x y : num) :
  is_nan x = false -> is_nan y = false -> ltb x y = false -> leb y x = true.
Proof.
  destruct x as [a| | |], y as [b| | |]; cbn; try reflexivity; try discriminate.
  intros _ _ H. apply Qc_leb_le. now apply Qc_ltb_ge.
Qed.

Lemma ltb_leb (x y : num) : ltb x y = true -> leb x y = true.
Proof.
  destruct x as [a| | |], y as [b| | |]; cbn; try reflexivity; try discriminate.
  intros H. apply Qc_leb_le. apply Qclt_le_weak. now apply Qc_ltb_lt.
Qed.

Lemma leb_trans (x y z : num) :
  leb x y = true -> leb y z = true -> leb x z = true.
Proof.
  destruct x as [a| | |], y as [b| | |], z as [c| | |]; cbn;
    try reflexivity; try discriminate.
  rewrite !Qc_leb_le. apply Qcle_trans.
Qed.

Lemma leb_not_nan (x y : num) :
  leb x y = true -> is_nan x = false /\ is_nan y = false.
Proof. destruct x, y; cbn; (discriminate || auto). Qed.

Lemma ltb_not_nan (x y : num) :
  ltb x y = true -> is_nan x = false /\ is_nan y = false.
Proof. destruct x, y; cbn; (discriminate || auto). Qed.

Lemma eqb_ltb_false (x y v : num) :
  eqb x v = true -> eqb y v = true -> ltb x y = false.
Proof.
  destruct x as [a| | |], y as [b| | |], v as [c| | |]; cbn;
    try reflexivity; try discriminate.
  rewrite !Qc_eqb_eq. intros -> ->.
  apply Qc_ltb_ge. apply Qcle_refl.
Qed.

(** ** [Array.prototype.sort] *)

Section ArraySortFacts.
Variable A : Type.
Variable cmp : A -> A -> num.

Lemma sort_insert_perm (x : A) (l : list A) :
  Permutation (sort_insert cmp x l) (x :: l).
Proof.
  induction l as [|y r IH]; cbn [sort_insert].
  - reflexivity.
  - destruct (after cmp x y).
    + transitivity (y :: x :: r); [now apply perm_skip | apply perm_swap].
    + reflexivity.
Qed.

Lemma Array_sort_perm (l : list A) : Permutation (Array_sort cmp l) l.
Proof.
  induction l as [|x l IH]; cbn [Array_sort fold_right].
  - reflexivity.
  - transitivity (x :: Array_sort cmp l);
      [apply sort_insert_perm | now apply perm_skip].
Qed.

Lemma Array_sort_In (x : A) (l : list A) :
  In x (Array_sort cmp l) <-> In x l.
Proof.
  split; apply Permutation_in;
    [apply Array_sort_perm | symmetry; apply Array_sort_perm].
Qed.

Lemma Array_sort_length (l : list A) :
  List.length (Array_sort cmp l) = List.length l.
Proof. apply Permutation_length, Array_sort_perm. Qed.

Section Sorted.
(** [R x y]: [x] may stand before [y]; [P] holds of the elements on
    which the comparator is consistent. *)
Variable R : A -> A -> Prop.
Variable P : A -> Prop.
Hypothesis R_stay :
  forall x y, P x -> P y -> after cmp x y = false -> R x y.
Hypothesis R_move :
  forall x y, P x -> P y -> after cmp x y = true -> R y x.
Hypothesis R_trans :
  forall x y z, P x -> P y -> P z -> R x y -> R y z -> R x z.

Lemma sort_insert_sorted (x : A) (l : list A) :
  P x -> Forall P l -> StronglySorted R l ->
  StronglySorted R (sort_insert cmp x l).
Proof.
  intros Px Pl Sl. induction Sl as [|y r Sr IH Hy]; cbn [sort_insert].
  - constructor; constructor.
  - inversion Pl as [|? ? Py Pr]; subst.
    destruct (after cmp x y) eqn:E.
    + constructor; [now apply IH|].
      apply Forall_forall. intros z Hz.
      apply (Permutation_in _ (sort_insert_perm x r)) in Hz.
      destruct Hz as [<-|Hz].
      * now apply R_move.
      * rewrite Forall_forall in Hy. now apply Hy.
    + constructor; [now constructor|].
      constructor; [now apply R_stay|].
      rewrite Forall_forall in Hy, Pr |- *. intros z Hz.
      apply R_trans with y; auto.
Qed.

Lemma Array_sort_sorted (l : list A) :
  Forall P l -> StronglySorted R (Array_sort cmp l).
Proof.
  induction 1 as [|x l Px Pl IH]; cbn [Array_sort fold_right].
  - constructor.
  - apply sort_insert_sorted; auto.
    rewrite Forall_forall in Pl |- *. intros z Hz.
    apply Pl. exact (proj1 (Array_sort_In z l) Hz).
Qed.
End Sorted.

(** Stability: elements of a class [f] whose members never have to move
    past each other keep their order. *)
Lemma sort_insert_stable (f : A -> bool) (x : A) (l : list A) :
  (forall y, In y l -> f x = true -> f y = true -> after cmp x y = false) ->
  filter f (sort_insert cmp x l) = filter f (x :: l).
Proof.
  induction l as [|y r IH]; intros H; [reflexivity|].
  cbn [sort_insert]. destruct (after cmp x y) eqn:E; [|reflexivity].
  cbn [filter]. rewrite IH by (intros; apply H; cbn; auto).
  cbn [filter].
  destruct (f x) eqn:Fx; [|reflexivity].
  destruct (f y) eqn:Fy; [|reflexivity].
  rewrite H in E; cbn; auto. discriminate.
Qed.

Lemma Array_sort_stable (f : A -> bool) (l : list A) :
  (forall x y, In x l -> In y l -> f x = true -> f y = true ->
               after cmp x y = false) ->
  filter f (Array_sort cmp l) = filter f l.
Proof.
  induction l as [|x l IH]; intros H; [reflexivity|].
  cbn [Array_sort fold_right].
  rewrite sort_insert_stable.
  - cbn [filter]. fold (Array_sort cmp l).
    rewrite IH; [reflexivity|]. intros; apply H; cbn; auto.
  - intros y Hy. apply (proj1 (Array_sort_In y l)) in Hy.
    apply H; cbn; auto.
Qed.
End ArraySortFacts.

(** Sorting by a numeric key, descending: [(a, b) => key(b) - key(a)]. *)
Section SortByKeyDescending.
Variable A : Type.
Variable key : A -> num.

Let descending : A -> A -> num := fun a b => sub (key b) (key a).

Lemma after_descending (a b : A) :
  is_nan (key a) = false -> is_nan (key b) = false ->
  after descending a b = ltb (key a) (key b).
Proof. intros Ha Hb. unfold after, descending. now apply gtb_sub_zero. Qed.

Lemma sort_descending_sorted (l : list A) :
  Forall (fun a => is_nan (key a) = false) l ->
  StronglySorted (fun a b => leb (key b) (key a) = true)
                 (Array_sort descending l).
Proof.
  apply Array_sort_sorted.
  - intros x y Hx Hy H. rewrite after_descending in H by assumption.
    now apply ltb_false_leb.
  - intros x y Hx Hy H. rewrite after_descending in H by assumption.
    now apply ltb_leb.
  - intros x y z _ _ _ H1 H2. eapply leb_trans; eassumption.
Qed.

Lemma sort_descending_stable (v : num) (l : list A) :
  Forall (fun a => is_nan (key a) = false) l ->
  filter (fun a => eqb (key a) v) (Array_sort descending l)
  = filter (fun a => eqb (key a) v) l.
Proof.
  intros Hl. apply Array_sort_stable.
  rewrite Forall_forall in Hl.
  intros x y Hx Hy Fx Fy. rewrite after_descending by auto.
  eapply eqb_ltb_false; eassumption.
Qed.
End SortByKeyDescending.

(** ** Maps, Sets and grouping loops *)

Section KeyFacts.
Context {K : Type} {KE : KeyEq K}.

Lemma keqb_refl (k : K) : keqb k k = true.
Proof. now apply keqb_eq. Qed.

Lemma keqb_neq (a b : K) : keqb a b = false <-> a <> b.
Proof.
  split.
  - intros H E. apply keqb_eq in E. congruence.
  - intros H. destruct (keqb a b) eqn:E; [|reflexivity].
    apply keqb_eq in E. contradiction.
Qed.

Lemma keqb_sym (a b : K) : keqb a b = keqb b a.
Proof.
  destruct (keqb a b) eqn:E.
  - apply keqb_eq in E. subst. symmetry. apply keqb_refl.
  - symmetry. apply keqb_neq. apply keqb_neq in E. congruence.
Qed.

Lemma Set_has_In (k : K) (s : list K) : Set_has k s = true <-> In k s.
Proof.
  unfold Set_has. rewrite existsb_exists. split.
  - intros [x [Hx E]]. apply keqb_eq in E. now subst.
  - intros H. exists k. split; [assumption | apply keqb_refl].
Qed.

Lemma Set_has_notin (k : K) (s : list K) : Set_has k s = false <-> ~ In k s.
Proof.
  rewrite <- Set_has_In. destruct (Set_has k s); split; congruence.
Qed.

Lemma Set_add_In (x k : K) (s : list K) :
  In x (Set_add k s) <-> x = k \/ In x s.
Proof.
  unfold Set_add. destruct (Set_has k s) eqn:E.
  - apply Set_has_In in E. split; [auto | intros [->|]; auto].
  - rewrite in_app_iff. cbn. intuition congruence.
Qed.

Lemma Set_add_NoDup (k : K) (s : list K) : NoDup s -> NoDup (Set_add k s).
Proof.
  intros H. unfold Set_add. destruct (Set_has k s) eqn:E; [assumption|].
  apply Set_has_notin in E.
  apply NoDup_rev in H. rewrite <- (rev_involutive (s ++ [k])).
  apply NoDup_rev. rewrite rev_app_distr. cbn.
  constructor; [now rewrite <- in_rev | assumption].
Qed.

Lemma fold_Set_add_In (x : K) (l s : list K) :
  In x (fold_left (fun s k => Set_add k s) l s) <-> In x s \/ In x l.
Proof.
  revert s. induction l as [|k l IH]; intros s; cbn.
  - tauto.
  - rewrite IH, Set_add_In. intuition congruence.
Qed.

Lemma fold_Set_add_NoDup (l s : list K) :
  NoDup s -> NoDup (fold_left (fun s k => Set_add k s) l s).
Proof.
  revert s. induction l as [|k l IH]; intros s H; cbn; [assumption|].
  apply IH. now apply Set_add_NoDup.
Qed.

Lemma distinct_In (x : K) (l : list K) : In x (distinct l) <-> In x l.
Proof. unfold distinct. rewrite fold_Set_add_In. cbn. tauto. Qed.

Lemma distinct_NoDup (l : list K) : NoDup (distinct l).
Proof. apply fold_Set_add_NoDup. constructor. Qed.
End KeyFacts.

Section MapFacts.
Context {K : Type} {KE : KeyEq K}.
Variable V : Type.
Implicit Types (m : JSMap (K:=K) V) (k : K) (v : V).

Lemma Map_get_set k k' v m :
  Map_get k (Map_set k' v m) = if keqb k' k then Some v else Map_get k m.
Proof.
  induction m as [|[k0 v0] r IH]; cbn.
  - reflexivity.
  - destruct (keqb k0 k') eqn:E0; cbn.
    + apply keqb_eq in E0. subst k0. now destruct (keqb k' k).
    + rewrite IH. destruct (keqb k0 k) eqn:E1; [|reflexivity].
      apply keqb_eq in E1. subst k0. now rewrite keqb_sym, E0.
Qed.

Lemma Map_set_keys k v m : map fst (Map_set k v m) = Set_add k (map fst m).
Proof.
  unfold Set_add, Set_has.
  induction m as [|[k0 v0] r IH]; cbn; [reflexivity|].
  rewrite (keqb_sym k k0). destruct (keqb k0 k) eqn:E; cbn.
  - apply keqb_eq in E. now subst.
  - rewrite IH. now destruct (existsb (keqb k) (map fst r)).
Qed.

Lemma Map_get_Some_In k v m : Map_get k m = Some v -> In (k, v) m.
Proof.
  induction m as [|[k0 v0] r IH]; cbn; [discriminate|].
  destruct (keqb k0 k) eqn:E.
  - apply keqb_eq in E. intros [= ->]. subst. now left.
  - intros H. right. now apply IH.
Qed.

Lemma Map_In_get k v m : NoDup (map fst m) -> In (k, v) m -> Map_get k m = Some v.
Proof.
  induction m as [|[k0 v0] r IH]; cbn; [tauto|].
  intros N [E|H].
  - injection E as -> ->. now rewrite keqb_refl.
  - inversion N as [|? ? Hn Nr]; subst.
    destruct (keqb k0 k) eqn:E.
    + apply keqb_eq in E. subst. exfalso. apply Hn.
      change k with (fst (k, v)). now apply in_map.
    + now apply IH.
Qed.

Lemma Map_get_None k m : Map_get k m = None <-> ~ In k (map fst m).
Proof.
  induction m as [|[k0 v0] r IH]; cbn; [tauto|].
  destruct (keqb k0 k) eqn:E.
  - apply keqb_eq in E. subst. split; [discriminate | tauto].
  - apply keqb_neq in E. rewrite IH. tauto.
Qed.

(** A map without repeated keys is the list of its keys, each paired
    with the value found under it. *)
Lemma Map_entries (d : V) m :
  NoDup (map fst m) ->
  m = map (fun k => (k, match Map_get k m with Some v => v | None => d end))
          (map fst m).
Proof.
  induction m as [|[k0 v0] r IH]; cbn; [reflexivity|].
  intros N. inversion N as [|? ? Hn Nr]; subst.
  rewrite keqb_refl. f_equal.
  rewrite (IH Nr) at 1. apply map_ext_in. intros k Hk.
  destruct (keqb k0 k) eqn:E; [|reflexivity].
  apply keqb_eq in E. now subst.
Qed.

Section Loop.
Variable T : Type.
Variable key : T -> K.
Variable f : option V -> T -> V.

Lemma loop_keys_from (l : list T) m :
  map fst (fold_left (Map_update key f) l m)
  = fold_left (fun s k => Set_add k s) (map key l) (map fst m).
Proof.
  revert m. induction l as [|t l IH]; intros m; cbn; [reflexivity|].
  rewrite IH. unfold Map_update. now rewrite Map_set_keys.
Qed.

Lemma loop_get_from (l : list T) m k :
  Map_get k (fold_left (Map_update key f) l m)
  = accumulate f (Map_get k m) (withKey key k l).
Proof.
  revert m. induction l as [|t l IH]; intros m; cbn; [reflexivity|].
  rewrite IH. unfold Map_update at 1. rewrite Map_get_set.
  destruct (keqb (key t) k) eqn:E; [|reflexivity].
  apply keqb_eq in E. now subst.
Qed.

(** The keys of the map a loop builds: the distinct keys of the
    input, in order of first occurrence. *)
Lemma loop_keys (l : list T) :
  map fst (fold_left (Map_update key f) l []) = distinct (map key l).
Proof. apply loop_keys_from. Qed.

Lemma loop_NoDup (l : list T) :
  NoDup (map fst (fold_left (Map_update key f) l [])).
Proof. rewrite loop_keys. apply distinct_NoDup. Qed.

(** The value under a key: the loop body run over the members with
    that key alone. *)
Lemma loop_get (l : list T) k :
  Map_get k (fold_left (Map_update key f) l [])
  = accumulate f None (withKey key k l).
Proof. apply loop_get_from. Qed.
End Loop.
End MapFacts.

Lemma fold_left_skip {A B : Type} (skip : B -> bool) (g : A -> B -> A)
      (l : list B) (a : A) :
  fold_left (fun a x => if skip x then a else g a x) l a
  = fold_left g (filter (fun x => negb (skip x)) l) a.
Proof.
  revert a. induction l as [|x l IH]; intros a; cbn; [reflexivity|].
  destruct (skip x); cbn; apply IH.
Qed.

Lemma withKey_In {K : Type} {KE : KeyEq K} {T : Type} (key : T -> K)
      (k : K) (l : list T) (t : T) :
  In t (withKey key k l) <-> In t l /\ key t = k.
Proof. unfold withKey. rewrite filter_In, keqb_eq. tauto. Qed.

Lemma withKey_nonempty {K : Type} {KE : KeyEq K} {T : Type} (key : T -> K)
      (k : K) (l : list T) :
  withKey key k l <> [] <-> In k (map key l).
Proof.
  rewrite in_map_iff. split.
  - destruct (withKey key k l) as [|t r] eqn:E; [congruence|].
    intros _. exists t. apply and_comm. apply (withKey_In key k l t).
    rewrite E. now left.
  - intros [t [E H]] N.
    assert (In t (withKey key k l)) as Ht by now apply withKey_In.
    rewrite N in Ht. destruct Ht.
Qed.

(** Pushing onto an array: the entry under a key is the list of its
    members. *)
Lemma accumulate_pushTo_cons {T : Type} (l : list T) :
  forall (o : option (list T)) (t : T),
    accumulate pushTo o (t :: l) = Some (get_or_empty o ++ t :: l).
Proof.
  induction l as [|t' l IH]; intros o t.
  - reflexivity.
  - change (accumulate pushTo o (t :: t' :: l))
      with (accumulate pushTo (Some (pushTo o t)) (t' :: l)).
    rewrite IH. cbn [get_or_empty]. unfold pushTo.
    now rewrite <- app_assoc.
Qed.

Lemma accumulate_pushTo {T : Type} (o : option (list T)) (l : list T) :
  l <> [] -> accumulate pushTo o l = Some (get_or_empty o ++ l).
Proof.
  destruct l as [|t l]; [congruence|]. intros _.
  apply accumulate_pushTo_cons.
Qed.

Lemma accumulate_nil {V T : Type} (f : option V -> T -> V) (o : option V) :
  accumulate f o [] = o.
Proof. reflexivity. Qed.

Lemma accumulate_Some {V T : Type} (f : option V -> T -> V) (o : option V)
      (l : list T) :
  l <> [] -> exists v, accumulate f o l = Some v.
Proof.
  revert o. induction l as [|t l IH]; intros o H; [congruence|].
  destruct l as [|t' l'].
  - eexists. reflexivity.
  - apply (IH (Some (f o t))). discriminate.
Qed.

(** Closed equations between values that contain numbers: both sides are
    evaluated and compared component by component, rationals by their
    canonical fractions. *)
Ltac js_refl :=
  vm_compute;
  repeat match goal with
  | |- @eq Qc _ _ => apply Qc_is_canon; reflexivity
  | |- _ => reflexivity
  | |- _ => f_equal
  end.

Lemma eqb_of_eq (x y : num) : x = y -> is_nan x = false -> eqb x y = true.
Proof.
  intros <- H. destruct x; cbn in *; try reflexivity; try discriminate.
  apply Qc_eqb_refl.
Qed.

(** ** The Metrics Aggregator *)

Lemma calculateMetrics_nil : calculateMetrics [] = emptyMetrics.
Proof. js_refl. Qed.

Lemma calculateMetrics_call_within (argumentLimit : nat)
      (ts : list CategorizedTransaction) :
  (List.length ts <= argumentLimit)%nat ->
  calculateMetrics_call argumentLimit ts = Returns (calculateMetrics ts).
Proof.
  intros H. unfold calculateMetrics_call, spreadCall.
  rewrite length_map.
  destruct (Nat.leb_spec (List.length ts) argumentLimit); [|lia].
  reflexivity.
Qed.

(** Beyond the engine's limit the spread call ends the computation with
    a [RangeError]. *)
Lemma calculateMetrics_call_beyond (argumentLimit : nat)
      (ts : list CategorizedTransaction) :
  (argumentLimit < List.length ts)%nat ->
  calculateMetrics_call argumentLimit ts = Throws RangeError.
Proof.
  intros H. unfold calculateMetrics_call, spreadCall.
  rewrite length_map.
  destruct (Nat.leb_spec (List.length ts) argumentLimit); [lia|].
  reflexivity.
Qed.

(** C1, as stated, fails: on the empty sequence [calculateMetrics] does not
    raise [EmptyDatasetError].  The spread calls pass no argument, so
    that no limit on arguments is exceeded, and the call returns the
    all-zero metrics with an empty category breakdown. *)
Lemma C1_empty_input_returns :
  calculateMetrics_call 0 [] = Returns emptyMetrics
  /\ calculateMetrics_call 0 [] <> Throws EmptyDatasetError.
Proof.
  rewrite calculateMetrics_call_within by (cbn; lia).
  rewrite calculateMetrics_nil.
  split; [reflexivity | discriminate].
Qed.

(** C1, amended: for every transaction sequence that the engine can pass
    as the arguments of a call, empty or not, [calculateMetrics] returns
    one [FinancialMetrics] value, with the total of the expenses as
    totalSpending and the total of the income as totalIncome; on the
    empty sequence every total and average is 0 and the category
    breakdown is empty.  No call raises an [EmptyDatasetError]. *)
Theorem C1_calculateMetrics_returns (argumentLimit : nat)
        (ts : list CategorizedTransaction) :
  (List.length ts <= argumentLimit)%nat ->
  (exists m, calculateMetrics_call argumentLimit ts = Returns m
             /\ m = calculateMetrics ts
             /\ totalSpending m = sumAmounts (filter expense ts)
             /\ totalIncome m = sumAmounts (filter isIncome ts))
  /\ calculateMetrics_call argumentLimit [] = Returns emptyMetrics
  /\ (forall ts', calculateMetrics_call argumentLimit ts'
                  <> Throws EmptyDatasetError).
Proof.
  intros H. split; [|split].
  - exists (calculateMetrics ts). split; [|repeat split].
    now apply calculateMetrics_call_within.
  - rewrite calculateMetrics_call_within by (cbn; lia).
    now rewrite calculateMetrics_nil.
  - intros ts'.
    destruct (Nat.le_gt_cases (List.length ts') argumentLimit) as [L|L].
    + rewrite calculateMetrics_call_within by exact L. discriminate.
    + rewrite calculateMetrics_call_beyond by exact L. discriminate.
Qed.

Lemma C1_calculateMetrics_returns_witness :
  (List.length halfMonth <= 1000)%nat
  /\ calculateMetrics_call 1000 halfMonth = Returns (calculateMetrics halfMonth).
Proof.
  assert (List.length halfMonth <= 1000)%nat as H by (cbn; lia).
  split; [exact H|].
  destruct (proj1 (C1_calculateMetrics_returns halfMonth H))
    as [m [E [-> _]]].
  exact E.
Defined.

(** *** The date span *)

Lemma min2_ofZ (a b : Z) : min2 (ofZ a) (ofZ b) = ofZ (Z.min a b).
Proof.
  unfold min2. change (ofZ a) with (Fin (qz a)) at 1.
  change (ofZ b) with (Fin (qz b)) at 1.
  cbv iota beta. fold (ofZ a) (ofZ b). rewrite ltb_ofZ.
  destruct (Z.ltb_spec b a).
  - now rewrite Z.min_r by lia.
  - now rewrite Z.min_l by lia.
Qed.

Lemma max2_ofZ (a b : Z) : max2 (ofZ a) (ofZ b) = ofZ (Z.max a b).
Proof.
  unfold max2. change (ofZ a) with (Fin (qz a)) at 1.
  change (ofZ b) with (Fin (qz b)) at 1.
  cbv iota beta. fold (ofZ a) (ofZ b). rewrite ltb_ofZ.
  destruct (Z.ltb_spec a b).
  - now rewrite Z.max_r by lia.
  - now rewrite Z.max_l by lia.
Qed.

Lemma fold_min2_ofZ (r : list Z) (z : Z) :
  fold_left min2 (map ofZ r) (ofZ z) = ofZ (fold_left Z.min r z).
Proof.
  revert z. induction r as [|a r IH]; intros z; cbn [map fold_left].
  - reflexivity.
  - now rewrite min2_ofZ, IH.
Qed.

Lemma fold_max2_ofZ (r : list Z) (z : Z) :
  fold_left max2 (map ofZ r) (ofZ z) = ofZ (fold_left Z.max r z).
Proof.
  revert z. induction r as [|a r IH]; intros z; cbn [map fold_left].
  - reflexivity.
  - now rewrite max2_ofZ, IH.
Qed.

Lemma fold_Zmin_spec (r : list Z) (z : Z) :
  In (fold_left Z.min r z) (z :: r)
  /\ forall x, In x (z :: r) -> fold_left Z.min r z <= x.
Proof.
  revert z. induction r as [|a r IH]; intros z; cbn [fold_left].
  - split; [now left | intros x [<-|[]]; lia].
  - destruct (IH (Z.min z a)) as [Hin Hle]. split.
    + destruct Hin as [E|Hin].
      * rewrite <- E. destruct (Z.min_spec z a) as [[_ ->]|[_ ->]];
          cbn; auto.
      * cbn; auto.
    + intros x [<-|[<-|Hx]].
      * specialize (Hle (Z.min z a) (or_introl eq_refl)). lia.
      * specialize (Hle (Z.min z a) (or_introl eq_refl)). lia.
      * apply Hle. now right.
Qed.

Lemma fold_Zmax_spec (r : list Z) (z : Z) :
  In (fold_left Z.max r z) (z :: r)
  /\ forall x, In x (z :: r) -> x <= fold_left Z.max r z.
Proof.
  revert z. induction r as [|a r IH]; intros z; cbn [fold_left].
  - split; [now left | intros x [<-|[]]; lia].
  - destruct (IH (Z.max z a)) as [Hin Hle]. split.
    + destruct Hin as [E|Hin].
      * rewrite <- E. destruct (Z.max_spec z a) as [[_ ->]|[_ ->]];
          cbn; auto.
      * cbn; auto.
    + intros x [<-|[<-|Hx]].
      * specialize (Hle (Z.max z a) (or_introl eq_refl)). lia.
      * specialize (Hle (Z.max z a) (or_introl eq_refl)). lia.
      * apply Hle. now right.
Qed.

Lemma min2_PInf_ofZ (z : Z) : min2 PInf (ofZ z) = ofZ z.
Proof. reflexivity. Qed.

Lemma max2_NInf_ofZ (z : Z) : max2 NInf (ofZ z) = ofZ z.
Proof. reflexivity. Qed.

Lemma Math_min_times (t : CategorizedTransaction)
      (ts : list CategorizedTransaction) :
  Math_min (map time (t :: ts)) = ofZ (earliest (t :: ts)).
Proof.
  unfold Math_min, earliest, time. cbn [map fold_left].
  rewrite min2_PInf_ofZ.
  rewrite <- (map_map (fun t => getTime (date t)) ofZ).
  apply fold_min2_ofZ.
Qed.

Lemma Math_max_times (t : CategorizedTransaction)
      (ts : list CategorizedTransaction) :
  Math_max (map time (t :: ts)) = ofZ (latest (t :: ts)).
Proof.
  unfold Math_max, latest, time. cbn [map fold_left].
  rewrite max2_NInf_ofZ.
  rewrite <- (map_map (fun t => getTime (date t)) ofZ).
  apply fold_max2_ofZ.
Qed.

Lemma trunc_qz (z : Z) : trunc (qz z) = z.
Proof.
  unfold trunc, qz, Q2Qc. cbn [this].
  assert (Qred (inject_Z z) = inject_Z z) as ->.
  { apply Qred_identity. cbn. apply Z.gcd_1_r. }
  cbn. apply Z.quot_1_r.
Qed.

Lemma Qc_leb_qz (a b : Z) : Qc_leb (qz a) (qz b) = (a <=? b).
Proof.
  unfold Qc_leb. rewrite qz_compare. unfold Z.leb.
  now destruct (a ?= b).
Qed.

Lemma TimeClip_ofZ (z : Z) :
  -8640000000000000 <= z <= 8640000000000000 -> TimeClip (ofZ z) = ofZ z.
Proof.
  intros H. unfold TimeClip, ofZ. rewrite !Qc_leb_qz.
  destruct (Z.leb_spec z 8640000000000000); [|lia].
  destruct (Z.leb_spec (-8640000000000000) z); [|lia].
  cbn. now rewrite trunc_qz.
Qed.

Lemma qz_div_zero_iff (d c : Z) :
  c <> 0 -> Qc_eqb (qz d / qz c) 0 = (d =? 0).
Proof.
  intros Hc.
  assert (qz c <> 0%Qc) as Hc'.
  { rewrite <- qz_0. intros E. apply qz_inj in E. contradiction. }
  destruct (Z.eqb_spec d 0) as [->|Hd].
  - apply Qc_eqb_eq. rewrite qz_0. unfold Qcdiv. apply Qcmult_0_l.
  - destruct (Qc_eqb (qz d / qz c) 0) eqn:E; [|reflexivity].
    apply Qc_eqb_eq in E. exfalso. apply Hd. apply qz_inj.
    rewrite qz_0, <- (Qcmult_div_r (qz d) (qz c) Hc'), E. apply Qcmult_0_r.
Qed.

Lemma Qc_div_zero_iff (q c : Qc) :
  c <> 0%Qc -> Qc_eqb (q / c) 0 = Qc_eqb q 0.
Proof.
  intros Hc. destruct (Qc_eqb q 0) eqn:E.
  - apply Qc_eqb_eq in E. subst. apply Qc_eqb_eq. unfold Qcdiv.
    apply Qcmult_0_l.
  - destruct (Qc_eqb (q / c) 0) eqn:E'; [|reflexivity].
    apply Qc_eqb_eq in E'. exfalso.
    assert (q = 0%Qc) as Hq.
    { rewrite <- (Qcmult_div_r q c Hc), E'. apply Qcmult_0_r. }
    subst. now rewrite Qc_eqb_refl in E.
Qed.

(** The two denominators of [calculateMetrics], for a span of [span]
    milliseconds. *)
Lemma span_denominators (span : Z) :
  let daysDiff := div (ofZ span) MS_PER_DAY in
  or daysDiff (ofZ 1) = (if span =? 0 then ofZ 1 else daysDiff)
  /\ or (div daysDiff (ofZ 30)) (ofZ 1)
     = (if span =? 0 then ofZ 1 else div daysDiff (ofZ 30)).
Proof.
  assert (Qc_eqb (qz (1000 * 60 * 60 * 24)) 0 = false) as Hms by reflexivity.
  assert (Qc_eqb (qz 30) 0 = false) as H30 by reflexivity.
  assert (qz 30 <> 0%Qc) as H30'.
  { intros E. apply Qc_eqb_eq in E. congruence. }
  cbv zeta. unfold MS_PER_DAY, ofZ, div. rewrite Hms, H30.
  unfold or, truthy.
  rewrite (Qc_div_zero_iff _ H30'), qz_div_zero_iff by discriminate.
  now destruct (span =? 0).
Qed.

Lemma earliest_spec (t : CategorizedTransaction)
      (ts : list CategorizedTransaction) :
  In (earliest (t :: ts)) (map (fun t => getTime (date t)) (t :: ts))
  /\ forall x, In x (t :: ts) -> earliest (t :: ts) <= getTime (date x).
Proof.
  unfold earliest. cbn [map].
  destruct (fold_Zmin_spec (map (fun t => getTime (date t)) ts)
                           (getTime (date t))) as [Hin Hle].
  split; [exact Hin|]. intros x Hx. apply Hle.
  exact (in_map (fun t => getTime (date t)) (t :: ts) x Hx).
Qed.

Lemma latest_spec (t : CategorizedTransaction)
      (ts : list CategorizedTransaction) :
  In (latest (t :: ts)) (map (fun t => getTime (date t)) (t :: ts))
  /\ forall x, In x (t :: ts) -> getTime (date x) <= latest (t :: ts).
Proof.
  unfold latest. cbn [map].
  destruct (fold_Zmax_spec (map (fun t => getTime (date t)) ts)
                           (getTime (date t))) as [Hin Hle].
  split; [exact Hin|]. intros x Hx. apply Hle.
  exact (in_map (fun t => getTime (date t)) (t :: ts) x Hx).
Qed.

Lemma valid_in_times (ts : list CategorizedTransaction) (z : Z) :
  Forall validDate ts -> In z (map (fun t => getTime (date t)) ts) ->
  -8640000000000000 <= z <= 8640000000000000.
Proof.
  intros H Hz. apply in_map_iff in Hz. destruct Hz as [t [<- Ht]].
  rewrite Forall_forall in H. now apply H.
Qed.

(** C4, as stated, fails.  For two expenses of 100 and 200 made fifteen
    days apart the code returns averageMonthly = 600, where the claimed
    formula totalSpending / max(1, dateSpanDays/30) gives 300; for the
    same expenses made twelve hours apart it returns averageDaily = 600,
    where the claimed span of max(1, whole days) = 1 day gives 300. *)
Lemma C4_claimed_span_differs :
  (averageMonthly (calculateMetrics halfMonth) = ofZ 600
   /\ spec_averageMonthly halfMonth = ofZ 300
   /\ averageMonthly (calculateMetrics halfMonth)
      <> spec_averageMonthly halfMonth)
  /\ (averageDaily (calculateMetrics halfDay) = ofZ 600
      /\ spec_dateSpanDays halfDay = 1
      /\ spec_averageDaily halfDay = ofZ 300
      /\ averageDaily (calculateMetrics halfDay) <> spec_averageDaily halfDay).
Proof.
  assert (averageMonthly (calculateMetrics halfMonth) = ofZ 600) as H1
    by js_refl.
  assert (spec_averageMonthly halfMonth = ofZ 300) as H2 by js_refl.
  assert (averageDaily (calculateMetrics halfDay) = ofZ 600) as H3
    by js_refl.
  assert (spec_averageDaily halfDay = ofZ 300) as H4 by js_refl.
  repeat split; try assumption.
  - rewrite H1, H2. intros E. apply ofZ_inj in E. discriminate.
  - rewrite H3, H4. intros E. apply ofZ_inj in E. discriminate.
Qed.

(** C4, amended: for every non-empty sequence of transactions with valid
    dates, the span is the exact difference between the latest and the
    earliest time stamp over all transactions, income and expense alike,
    divided by the 86,400,000 ms of a day: it is not rounded to whole
    days and has no minimum of one day.  averageDaily is totalSpending
    divided by that span in days, and averageMonthly is totalSpending
    divided by that span over 30; each denominator is replaced by 1 only
    when it is zero, that is when all transactions share one instant. *)
Theorem C4_averages_over_exact_span (ts : list CategorizedTransaction) :
  ts <> [] -> Forall validDate ts ->
  let m := calculateMetrics ts in
  let span := latest ts - earliest ts in
  let daysDiff := div (ofZ span) MS_PER_DAY in
  (forall t, In t ts -> earliest ts <= getTime (date t) <= latest ts)
  /\ In (earliest ts) (map (fun t => getTime (date t)) ts)
  /\ In (latest ts) (map (fun t => getTime (date t)) ts)
  /\ totalSpending m = sumAmounts (filter expense ts)
  /\ averageDaily m
     = div (totalSpending m) (if span =? 0 then ofZ 1 else daysDiff)
  /\ averageMonthly m
     = div (totalSpending m)
           (if span =? 0 then ofZ 1 else div daysDiff (ofZ 30)).
Proof.
  intros Hne Hvalid. destruct ts as [|t ts]; [congruence|].
  destruct (earliest_spec t ts) as [Hlo_in Hlo].
  destruct (latest_spec t ts) as [Hhi_in Hhi].
  cbv zeta.
  split; [intros x Hx; split; [now apply Hlo | now apply Hhi]|].
  split; [exact Hlo_in|]. split; [exact Hhi_in|].
  split; [reflexivity|].
  destruct (span_denominators (latest (t :: ts) - earliest (t :: ts)))
    as [Hd Hm].
  unfold calculateMetrics.
  cbn [averageDaily averageMonthly totalSpending].
  rewrite Math_min_times, Math_max_times.
  rewrite !TimeClip_ofZ by (eapply valid_in_times; eassumption).
  rewrite sub_ofZ. rewrite Hd, Hm. split; reflexivity.
Qed.

Lemma C4_averages_over_exact_span_witness :
  halfMonth <> [] /\ Forall validDate halfMonth
  /\ averageDaily (calculateMetrics halfMonth)
     = div (totalSpending (calculateMetrics halfMonth))
           (if latest halfMonth - earliest halfMonth =? 0 then ofZ 1
            else div (ofZ (latest halfMonth - earliest halfMonth)) MS_PER_DAY).
Proof.
  assert (halfMonth <> []) as Hne by discriminate.
  assert (Forall validDate halfMonth) as Hv.
  { repeat constructor; vm_compute; discriminate. }
  split; [exact Hne|]. split; [exact Hv|].
  exact (proj1 (proj2 (proj2 (proj2 (proj2
           (C4_averages_over_exact_span Hne Hv)))))).
Defined.

(** *** Percentages *)

(** C5: with a single expense of amount 0 the total spending is 0 and the
    category's percentage is [0 / 0 * 100], which is NaN and not the 0
    the claim requires. *)
Theorem C5_zero_spending_percentage :
  totalSpending (calculateMetrics zeroExpense) = zero
  /\ map percentage (categoryBreakdown (calculateMetrics zeroExpense)) = [NaN].
Proof. split; js_refl. Qed.

(** *** The category breakdown *)

Lemma tally_fold (l : list CategorizedTransaction)
      (m1 m2 : JSMap (K:=SpendingCategory) num) :
  fold_left tallyStep l (m1, m2)
  = (fold_left (Map_update category addAmount) l m1,
     fold_left (Map_update category addOne) l m2).
Proof.
  revert m1 m2. induction l as [|t l IH]; intros m1 m2; cbn [fold_left].
  - reflexivity.
  - unfold tallyStep at 2. apply IH.
Qed.

Lemma or_fin_zero (q : Qc) : or (Fin q) zero = Fin q.
Proof.
  unfold or, truthy. destruct (Qc_eqb q 0) eqn:E; [|reflexivity].
  apply Qc_eqb_eq in E. subst. cbn. unfold zero, ofZ. now rewrite qz_0.
Qed.

Lemma fold_amounts_fin (l : list CategorizedTransaction) (q : Qc) :
  Forall finiteAmount l ->
  is_fin (fold_left (fun s t => add s (amount t)) l (Fin q)) = true.
Proof.
  intros H. revert q. induction H as [|t l Ht Hl IH]; intros q.
  - reflexivity.
  - cbn [fold_left]. unfold finiteAmount in Ht.
    destruct (amount t) as [a| | |]; try discriminate. apply IH.
Qed.

Lemma sumAmounts_fin (l : list CategorizedTransaction) :
  Forall finiteAmount l -> is_fin (sumAmounts l) = true.
Proof. apply fold_amounts_fin. Qed.

Lemma accumulate_addAmount_from (l : list CategorizedTransaction) (q : Qc) :
  Forall finiteAmount l ->
  accumulate addAmount (Some (Fin q)) l
  = Some (fold_left (fun s t => add s (amount t)) l (Fin q)).
Proof.
  intros H. revert q. induction H as [|t l Ht Hl IH]; intros q.
  - reflexivity.
  - unfold accumulate. cbn [fold_left]. unfold addAmount at 2.
    cbn [get_or]. rewrite or_fin_zero. unfold finiteAmount in Ht.
    destruct (amount t) as [a| | |]; try discriminate. apply IH.
Qed.

(** With finite amounts the [|| 0] fallback never discards a partial
    sum: the value accumulated under a key is the sum of its members. *)
Lemma accumulate_addAmount (l : list CategorizedTransaction) :
  Forall finiteAmount l -> l <> [] ->
  accumulate addAmount None l = Some (sumAmounts l).
Proof.
  intros H Hne. destruct l as [|t l]; [congruence|].
  inversion H as [|? ? Ht Hl]; subst.
  unfold accumulate, sumAmounts. cbn [fold_left].
  unfold addAmount at 2. cbn [get_or]. unfold finiteAmount in Ht.
  destruct (amount t) as [a| | |]; try discriminate.
  apply accumulate_addAmount_from; assumption.
Qed.

Lemma Forall_withKey {K : Type} {KE : KeyEq K} {T : Type} (key : T -> K)
      (P : T -> Prop) (k : K) (l : list T) :
  Forall P l -> Forall P (withKey key k l).
Proof.
  rewrite !Forall_forall. intros H t Ht. apply H.
  now apply (withKey_In key k l t).
Qed.

(** The totals map of [calculateCategoryBreakdown]. *)
Lemma categoryTotals_get (expenses : list CategorizedTransaction)
      (c : SpendingCategory) :
  Forall finiteAmount expenses -> In c (map category expenses) ->
  Map_get c (fold_left (Map_update category addAmount) expenses [])
  = Some (categoryTotal c expenses).
Proof.
  intros Hfin Hc. rewrite loop_get. apply accumulate_addAmount.
  - now apply Forall_withKey.
  - now apply withKey_nonempty.
Qed.

Lemma filter_map_comm {A B : Type} (p : B -> bool) (g : A -> B) (l : list A) :
  filter p (map g l) = map g (filter (fun a => p (g a)) l).
Proof.
  induction l as [|a l IH]; cbn; [reflexivity|].
  destruct (p (g a)); cbn; now rewrite IH.
Qed.

Lemma is_fin_not_nan (x : num) : is_fin x = true -> is_nan x = false.
Proof. now destruct x. Qed.

(** The entries of the breakdown before the sort: one per distinct
    category, in order of first occurrence, carrying the category's
    total. *)
Lemma breakdown_entries (expenses : list CategorizedTransaction) :
  Forall finiteAmount expenses ->
  exists g : SpendingCategory -> CategoryBreakdown,
    (forall c, cb_category (g c) = c)
    /\ (forall c, In c (map category expenses) ->
                  total (g c) = categoryTotal c expenses)
    /\ calculateCategoryBreakdown expenses
       = Array_sort (fun a b => sub (total b) (total a))
                    (map g (distinct (map category expenses))).
Proof.
  intros Hfin. unfold calculateCategoryBreakdown.
  rewrite tally_fold.
  set (totals := fold_left (Map_update category addAmount) expenses []).
  set (counts := fold_left (Map_update category addOne) expenses []).
  exists (fun c => breakdownEntry counts (sumAmounts expenses)
                     (c, match Map_get c totals with
                         | Some v => v
                         | None => zero
                         end)).
  split; [reflexivity|]. split.
  - intros c Hc. cbn. unfold totals.
    now rewrite categoryTotals_get.
  - f_equal. rewrite (Map_entries zero totals) at 1
      by apply loop_NoDup.
    rewrite map_map. unfold totals at 2. now rewrite loop_keys.
Qed.

(** C6, as stated, fails: with one expense of 10 in Shopping followed by
    one of 10 in Food & Dining, the breakdown lists Shopping before
    Food & Dining although the totals are equal and "Food & Dining"
    precedes "Shopping" alphabetically. *)
Lemma C6_tie_not_by_name :
  map cb_category (categoryBreakdown (calculateMetrics tiedCategories))
  = [Shopping; FoodDining]
  /\ ~ StronglySorted spec_breakdownOrder
         (categoryBreakdown (calculateMetrics tiedCategories)).
Proof.
  split; [reflexivity|].
  assert (categoryBreakdown (calculateMetrics tiedCategories)
          = [ {| cb_category := Shopping; total := ofZ 10;
                 percentage := ofZ 50; transactionCount := ofZ 1 |};
              {| cb_category := FoodDining; total := ofZ 10;
                 percentage := ofZ 50; transactionCount := ofZ 1 |} ]) as ->
    by js_refl.
  intros S. inversion S as [|? ? _ F]; subst.
  inversion F as [|? ? [H|[_ H]] _]; subst; vm_compute in H; discriminate.
Qed.

(** C6, amended: when the amounts are finite, the category breakdown is
    sorted descending by total, and entries with equal totals stand in
    the order in which their categories first occur among the expenses
    (the sort is stable and has no tie-break on the category name). *)
Theorem C6_breakdown_sorted_stable (ts : list CategorizedTransaction) :
  Forall finiteAmount ts ->
  let expenses := filter expense ts in
  let breakdown := categoryBreakdown (calculateMetrics ts) in
  StronglySorted (fun a b => leb (total b) (total a) = true) breakdown
  /\ Permutation (map cb_category breakdown)
                 (distinct (map category expenses))
  /\ (forall e, In e breakdown ->
                total e = categoryTotal (cb_category e) expenses)
  /\ (forall v,
        map cb_category (filter (fun e => eqb (total e) v) breakdown)
        = filter (fun c => eqb (categoryTotal c expenses) v)
                 (distinct (map category expenses))).
Proof.
  intros Hfin. cbv zeta. cbn [calculateMetrics categoryBreakdown].
  set (expenses := filter expense ts).
  assert (Forall finiteAmount expenses) as Hexp.
  { rewrite Forall_forall in Hfin |- *. intros t Ht. apply Hfin.
    unfold expenses in Ht. now apply filter_In in Ht. }
  destruct (breakdown_entries Hexp) as [g [Hcat [Htot ->]]].
  set (cats := distinct (map category expenses)).
  assert (forall c, In c cats -> total (g c) = categoryTotal c expenses)
    as Htot'.
  { intros c Hc. apply Htot. now apply distinct_In. }
  assert (Forall (fun e => is_nan (total e) = false) (map g cats)) as Hnan.
  { apply Forall_forall. intros e He. apply in_map_iff in He.
    destruct He as [c [<- Hc]]. rewrite Htot' by assumption.
    apply is_fin_not_nan. apply sumAmounts_fin.
    now apply Forall_withKey. }
  split; [now apply sort_descending_sorted|].
  split.
  { rewrite (Permutation_map cb_category (Array_sort_perm _ (map g cats))).
    rewrite map_map. erewrite map_ext by apply Hcat.
    now rewrite map_id. }
  split.
  { intros e He. apply (Array_sort_In) in He. apply in_map_iff in He.
    destruct He as [c [<- Hc]]. rewrite Hcat. now apply Htot'. }
  intros v. rewrite (sort_descending_stable total v Hnan).
  rewrite filter_map_comm, map_map.
  erewrite map_ext by apply Hcat. rewrite map_id.
  apply filter_ext_in. intros c Hc. now rewrite Htot'.
Qed.

Lemma C6_breakdown_sorted_stable_witness :
  Forall finiteAmount tiedCategories
  /\ StronglySorted (fun a b => leb (total b) (total a) = true)
       (categoryBreakdown (calculateMetrics tiedCategories)).
Proof.
  assert (Forall finiteAmount tiedCategories) as H
    by (repeat constructor).
  split; [exact H|].
  exact (proj1 (C6_breakdown_sorted_stable H)).
Defined.

(** ** The Pattern Detector *)

(** *** What each detector emits *)

Lemma recurringOf_In (entry : string * list CategorizedTransaction)
      (p : DetectedPattern) :
  In p (recurringOf entry) <->
  (2 <= List.length (snd entry))%nat
  /\ amountsSimilar (average (map amount (snd entry)))
                    (map amount (snd entry)) = true
  /\ geb (daysIntervalOf (snd entry)) (ofZ 25) = true
  /\ leb (daysIntervalOf (snd entry)) (ofZ 35) = true
  /\ p = recurringPattern (fst entry) (snd entry)
                          (average (map amount (snd entry))).
Proof.
  destruct entry as [desc txns]. unfold recurringOf. cbn [fst snd].
  destruct (Nat.leb_spec 2 (List.length txns)) as [Hlen|Hlen].
  - destruct (amountsSimilar _ _).
    + destruct (geb _ _); destruct (leb _ _); cbn;
        intuition (try discriminate; try lia; auto).
    + cbn. intuition discriminate.
  - cbn. intuition lia.
Qed.

Lemma findRecurringCharges_In (ts : list CategorizedTransaction)
      (p : DetectedPattern) :
  In p (findRecurringCharges ts) <->
  exists entry, In entry (descriptionGroups ts) /\ In p (recurringOf entry).
Proof. unfold findRecurringCharges. apply in_flat_map. Qed.

Lemma similar_average_fin (avg amt : num) :
  ltb (abs (sub amt avg)) (mul avg (lit 1 10)) = true -> is_fin avg = true.
Proof.
  destruct avg as [a| | |]; [reflexivity| | |];
    destruct amt as [b| | |]; vm_compute; discriminate.
Qed.

Lemma recurring_impact_not_nan (ts : list CategorizedTransaction)
      (p : DetectedPattern) :
  In p (findRecurringCharges ts) -> is_nan (impact p) = false.
Proof.
  intros H. apply findRecurringCharges_In in H.
  destruct H as [[desc txns] [_ H]]. apply recurringOf_In in H.
  cbn [fst snd] in H. destruct H as [Hlen [Hsim [_ [_ ->]]]].
  destruct txns as [|t txns]; [cbn in Hlen; lia|].
  unfold amountsSimilar in Hsim. cbn [map forallb] in Hsim.
  apply andb_prop in Hsim. destruct Hsim as [Hsim _].
  apply similar_average_fin in Hsim. cbn [impact recurringPattern].
  destruct (average _); try discriminate. reflexivity.
Qed.

Lemma recurring_type (ts : list CategorizedTransaction) (p : DetectedPattern) :
  In p (findRecurringCharges ts) -> type p = recurring_charge.
Proof.
  intros H. apply findRecurringCharges_In in H.
  destruct H as [entry [_ H]]. apply recurringOf_In in H.
  now destruct H as [_ [_ [_ [_ ->]]]].
Qed.

Lemma anomalyOf_In (rd : list string) (avg variance : num)
      (t : CategorizedTransaction) (p : DetectedPattern) :
  In p (anomalyOf rd avg variance t) <->
  isIncome t = false
  /\ Set_has (normalized t) rd = false
  /\ gt_plus_3_sqrt (amount t) avg variance = true
  /\ p = anomalyPattern t.
Proof.
  unfold anomalyOf.
  destruct (isIncome t); [cbn; intuition discriminate|].
  destruct (Set_has _ _); [cbn; intuition discriminate|].
  destruct (gt_plus_3_sqrt _ _ _); cbn; intuition (try discriminate; auto).
Qed.

Lemma findAnomalies_In (ts : list CategorizedTransaction)
      (rec : list DetectedPattern) (p : DetectedPattern) :
  In p (findAnomalies ts rec) ->
  exists t, In t ts
            /\ isIncome t = false
            /\ Set_has (normalized t) (recurringDescriptions rec) = false
            /\ is_nan (amount t) = false
            /\ p = anomalyPattern t.
Proof.
  unfold findAnomalies. destruct (_ =? _)%nat; [intros []|].
  intros H. apply in_flat_map in H. destruct H as [t [Ht H]].
  apply anomalyOf_In in H. destruct H as [Hinc [Hrd [Hgt ->]]].
  exists t. repeat split; try assumption.
  unfold gt_plus_3_sqrt in Hgt.
  destruct (amount t); try reflexivity.
  destruct (varianceOf _ _); try discriminate.
  destruct (Qc_ltb _ _); try discriminate.
  now destruct (average _).
Qed.

Lemma spikeOf_In (entry : SpendingCategory * list num) (p : DetectedPattern) :
  In p (spikeOf entry) <->
  (2 <= List.length (snd entry))%nat
  /\ gtb (Math_max (snd entry)) (mul (average (snd entry)) (lit 15 10)) = true
  /\ p = spikePattern (fst entry) (Math_max (snd entry)) (average (snd entry)).
Proof.
  destruct entry as [c totals]. unfold spikeOf. cbn [fst snd].
  destruct (Nat.ltb_spec (List.length totals) 2) as [Hlen|Hlen].
  - cbn. intuition lia.
  - destruct (gtb _ _); cbn; intuition (try discriminate; auto).
Qed.

Lemma spike_gap_not_nan (max avg : num) :
  gtb max (mul avg (lit 15 10)) = true -> is_nan (sub max avg) = false.
Proof.
  destruct max as [m| | |], avg as [a| | |]; vm_compute;
    (reflexivity || discriminate || idtac).
  all: intros H; destruct (Qcompare _ _); (reflexivity || discriminate).
Qed.

Lemma findSpendingSpikes_In (ts : list CategorizedTransaction)
      (p : DetectedPattern) :
  In p (findSpendingSpikes ts) ->
  type p = spending_spike /\ transactions p = []
  /\ is_nan (impact p) = false.
Proof.
  unfold findSpendingSpikes. intros H. apply in_flat_map in H.
  destruct H as [entry [_ H]]. apply spikeOf_In in H.
  destruct H as [_ [Hgt ->]]. repeat split.
  cbn [impact spikePattern]. now apply spike_gap_not_nan.
Qed.

Lemma trendOf_In (firstMonth lastMonth : num) (p : DetectedPattern) :
  In p (trendOf firstMonth lastMonth) <->
  let change := sub lastMonth firstMonth in
  let percentChange := mul (div change firstMonth) (ofZ 100) in
  gtb (abs percentChange) (ofZ 15) = true
  /\ p = trendPattern change percentChange.
Proof.
  unfold trendOf. cbv zeta.
  destruct (gtb _ _); cbn; intuition (try discriminate; auto).
Qed.

Lemma trend_change_not_nan (change firstMonth : num) :
  gtb (abs (mul (div change firstMonth) (ofZ 100))) (ofZ 15) = true ->
  is_nan (abs change) = false.
Proof.
  destruct change as [c| | |]; try reflexivity.
  - intros _. cbn. now destruct (Qc_ltb c 0).
  - destruct firstMonth; vm_compute; discriminate.
Qed.

Lemma findTrends_In (ts : list CategorizedTransaction) (p : DetectedPattern) :
  In p (findTrends ts) ->
  type p = trend /\ transactions p = [] /\ is_nan (impact p) = false.
Proof.
  unfold findTrends. destruct (_ <? _)%nat; [intros []|].
  destruct (Array_sort _ _) as [|[k0 firstMonth] r]; [intros []|].
  destruct (last_opt _) as [[k1 lastMonth]|]; [|intros []].
  intros H. apply trendOf_In in H. cbv zeta in H.
  destruct H as [Hgt ->]. repeat split.
  cbn [impact trendPattern]. eapply trend_change_not_nan; eassumption.
Qed.

Lemma emitted_impact_not_nan (ts : list CategorizedTransaction) :
  Forall (fun p => is_nan (impact p) = false) (emittedPatterns ts).
Proof.
  apply Forall_forall. intros p H. unfold emittedPatterns in H.
  rewrite !in_app_iff in H. destruct H as [H|[H|[H|H]]].
  - eapply recurring_impact_not_nan; eassumption.
  - apply findAnomalies_In in H.
    destruct H as [t [_ [_ [_ [Hn ->]]]]]. exact Hn.
  - now apply findSpendingSpikes_In in H.
  - now apply findTrends_In in H.
Qed.

(** *** Orchestration *)

(** C2: [detectPatterns] returns the patterns of the four detectors, run
    in the order recurring, anomaly (on the recurring detector's
    output), spike, trend, rearranged so that impacts descend; patterns
    of equal impact keep the order in which they were emitted. *)
Theorem C2_detectPatterns_merge_sorted (ts : list CategorizedTransaction) :
  let recurring := findRecurringCharges ts in
  let emitted :=
    recurring ++ findAnomalies ts recurring
      ++ findSpendingSpikes ts ++ findTrends ts in
  Permutation (detectPatterns ts) emitted
  /\ StronglySorted (fun a b => leb (impact b) (impact a) = true)
                    (detectPatterns ts)
  /\ forall v,
       filter (fun p => eqb (impact p) v) (detectPatterns ts)
       = filter (fun p => eqb (impact p) v) emitted.
Proof.
  cbv zeta. fold (emittedPatterns ts). unfold detectPatterns.
  pose proof (emitted_impact_not_nan ts) as Hnan.
  split; [apply Array_sort_perm|].
  split; [now apply sort_descending_sorted|].
  intros v. now apply sort_descending_stable.
Qed.

Lemma fold_left_map {A B C : Type} (g : A -> C -> A) (f : B -> C)
      (l : list B) (a : A) :
  fold_left (fun a x => g a (f x)) l a = fold_left g (map f l) a.
Proof.
  revert a. induction l as [|x l IH]; intros a; cbn; [reflexivity|apply IH].
Qed.

Lemma recurringDescriptions_from (ps : list DetectedPattern) (s : list string)
      (x : string) :
  In x (fold_left
          (fun s pattern =>
             fold_left (fun s t => Set_add (normalized t) s)
                       (transactions pattern) s)
          ps s)
  <-> In x s
      \/ exists p t, In p ps /\ In t (transactions p) /\ normalized t = x.
Proof.
  revert s. induction ps as [|p ps IH]; intros s; cbn [fold_left].
  - split; [auto | intros [H|[p [t [[] _]]]]; exact H].
  - rewrite IH.
    rewrite (fold_left_map (fun s k => Set_add k s) normalized).
    rewrite fold_Set_add_In, in_map_iff. split.
    + intros [[H|[t [E Ht]]]|[p' [t [Hp [Ht E]]]]].
      * now left.
      * right. exists p, t. cbn. auto.
      * right. exists p', t. cbn. auto.
    + intros [H|[p' [t [[<-|Hp] [Ht E]]]]].
      * left. now left.
      * left. right. now exists t.
      * right. now exists p', t.
Qed.

(** The exclusion set: the normalized descriptions of the transactions
    attached to the recurring patterns. *)
Lemma recurringDescriptions_In (ps : list DetectedPattern) (x : string) :
  In x (recurringDescriptions ps)
  <-> exists p t, In p ps /\ In t (transactions p) /\ normalized t = x.
Proof.
  unfold recurringDescriptions. rewrite recurringDescriptions_from.
  cbn. tauto.
Qed.

Lemma detected_anomaly (ts : list CategorizedTransaction)
      (q : DetectedPattern) :
  In q (detectPatterns ts) -> type q = anomaly ->
  In q (findAnomalies ts (findRecurringCharges ts)).
Proof.
  intros Hq Hty. unfold detectPatterns in Hq.
  apply (proj1 (Array_sort_In _ q (emittedPatterns ts))) in Hq.
  unfold emittedPatterns in Hq. rewrite !in_app_iff in Hq.
  destruct Hq as [H|[H|[H|H]]].
  - apply recurring_type in H. congruence.
  - exact H.
  - apply findSpendingSpikes_In in H. destruct H as [H _]. congruence.
  - apply findTrends_In in H. destruct H as [H _]. congruence.
Qed.

(** C3: within one [detectPatterns] pass, a transaction attached to an
    [anomaly] pattern never has a normalized description that occurs
    among the transactions attached to the recurring patterns; so no
    transaction of an accepted recurring group is reported as an
    anomaly, whatever its amount. *)
Theorem C3_recurring_never_anomaly (ts : list CategorizedTransaction)
        (q : DetectedPattern) (t : CategorizedTransaction) :
  In q (detectPatterns ts) -> type q = anomaly -> In t (transactions q) ->
  Set_has (normalized t) (recurringDescriptions (findRecurringCharges ts))
  = false
  /\ forall p t',
       In p (findRecurringCharges ts) -> In t' (transactions p) ->
       normalized t' <> normalized t /\ t' <> t.
Proof.
  intros Hq Hty Ht.
  apply detected_anomaly in Hq; [|assumption].
  apply findAnomalies_In in Hq.
  destruct Hq as [t0 [_ [_ [Hrd [_ ->]]]]].
  cbn [transactions anomalyPattern] in Ht.
  destruct Ht as [<-|[]]. split; [exact Hrd|].
  intros p t' Hp Ht'.
  assert (normalized t' <> normalized t0) as Hne.
  { intros E. apply Set_has_notin in Hrd. apply Hrd.
    apply recurringDescriptions_In. now exists p, t'. }
  split; [exact Hne | congruence].
Qed.

Lemma rentCoffeeLaptop_patterns :
  detectPatterns rentCoffeeLaptop
  = [ recurringPattern "rent"
        [ expenseOn (Date_UTC 2024 0 1) "Rent" (ofZ 1500) Housing;
          expenseOn (Date_UTC 2024 0 31) "Rent" (ofZ 1500) Housing ]
        (ofZ 1500);
      anomalyPattern
        (expenseOn (Date_UTC 2024 0 15) "Laptop" (ofZ 9000) Shopping) ].
Proof. js_refl. Qed.

Lemma C3_recurring_never_anomaly_witness :
  Set_has
    (normalized (expenseOn (Date_UTC 2024 0 15) "Laptop" (ofZ 9000) Shopping))
    (recurringDescriptions (findRecurringCharges rentCoffeeLaptop))
  = false.
Proof.
  refine (proj1 (@C3_recurring_never_anomaly rentCoffeeLaptop
            (anomalyPattern
               (expenseOn (Date_UTC 2024 0 15) "Laptop" (ofZ 9000) Shopping))
            _ _ _ _)).
  - rewrite rentCoffeeLaptop_patterns. right. left. reflexivity.
  - reflexivity.
  - left. reflexivity.
Defined.

(** The rent of [rentAndCoffee] lies more than three standard deviations
    above the mean: without the recurring patterns both payments would
    be reported, with them none is. *)
Lemma rent_excluded_from_anomalies :
  map transactions (findAnomalies rentAndCoffee [])
  = [ [expenseOn (Date_UTC 2024 0 1) "Rent" (ofZ 1500) Housing];
      [expenseOn (Date_UTC 2024 0 31) "Rent" (ofZ 1500) Housing] ]
  /\ findAnomalies rentAndCoffee (findRecurringCharges rentAndCoffee) = []
  /\ map type (detectPatterns rentAndCoffee) = [recurring_charge].
Proof. repeat split; js_refl. Qed.

(** C10: the recurring detector does not look at [isIncome].  For a
    salary deposited twice, thirty days apart, [detectPatterns] emits a
    [recurring_charge] pattern to which exactly these income
    transactions are attached, and their normalized description is in
    the exclusion set the anomaly detector builds. *)
Theorem C10_income_detected_as_recurring :
  exists ts : list CategorizedTransaction,
    ts <> []
    /\ Forall (fun t => isIncome t = true) ts
    /\ exists p,
         In p (detectPatterns ts)
         /\ type p = recurring_charge
         /\ transactions p = ts
         /\ Forall (fun t =>
                      In (normalized t)
                         (recurringDescriptions (findRecurringCharges ts)))
                   ts.
Proof.
  exists salaryOnly. split; [discriminate|].
  split; [repeat constructor|].
  exists (recurringPattern "salary" salaryOnly (ofZ 3000)).
  assert (detectPatterns salaryOnly
          = [recurringPattern "salary" salaryOnly (ofZ 3000)]) as ->
    by js_refl.
  split; [now left|]. split; [reflexivity|]. split; [reflexivity|].
  assert (recurringDescriptions (findRecurringCharges salaryOnly)
          = ["salary"%string]) as -> by reflexivity.
  apply Forall_forall. intros t [<-|[<-|[]]]; now left.
Qed.

(** *** Recurring charges *)

(** The groups of the recurring detector: under each normalized
    description that occurs, the transactions bearing it, in input
    order. *)
Lemma descriptionGroups_In (ts : list CategorizedTransaction) (k : string)
      (g : list CategorizedTransaction) :
  In (k, g) (descriptionGroups ts)
  <-> g = withKey normalized k ts /\ g <> [].
Proof.
  unfold descriptionGroups. split.
  - intros H. apply Map_In_get in H; [|apply loop_NoDup].
    rewrite loop_get in H.
    destruct (withKey normalized k ts) as [|t r] eqn:E; [discriminate|].
    rewrite accumulate_pushTo in H by discriminate.
    cbn in H. injection H as <-. split; [reflexivity | discriminate].
  - intros [-> Hne]. apply Map_get_Some_In. rewrite loop_get.
    now rewrite accumulate_pushTo.
Qed.




(** *** Month keys *)

Lemma uint_chars_digits (d : Decimal.uint) (c : ascii) :
  In c (list_ascii_of_string (NilEmpty.string_of_uint d)) ->
  is_digit c = true.
Proof.
  induction d; cbn; try tauto;
    (intros [<-|H]; [reflexivity | now apply IHd]).
Qed.

Lemma NilZero_uint_chars (d : Decimal.uint) (c : ascii) :
  In c (list_ascii_of_string (NilZero.string_of_uint d)) ->
  is_digit c = true.
Proof.
  destruct d; try apply (uint_chars_digits (_ d)).
  cbn. intros [<-|[]]. reflexivity.
Qed.

Lemma NilZero_uint_nonempty (d : Decimal.uint) :
  exists c s, NilZero.string_of_uint d = String c s /\ is_digit c = true.
Proof.
  destruct d; cbn; eexists; eexists; split; reflexivity.
Qed.

(** Two keys that agree agree on the digits before the first hyphen and
    on what follows it. *)
Lemma cut_at_hyphen (d1 : string) :
  forall d2 r1 r2 : string,
    (forall c, In c (list_ascii_of_string d1) -> is_digit c = true) ->
    (forall c, In c (list_ascii_of_string d2) -> is_digit c = true) ->
    (d1 ++ String "-" r1)%string = (d2 ++ String "-" r2)%string ->
    d1 = d2 /\ r1 = r2.
Proof.
  induction d1 as [|a d1 IH]; intros [|b d2] r1 r2 H1 H2 E; cbn in E.
  - injection E as ->. auto.
  - injection E as <- _. specialize (H2 "-"%char (or_introl eq_refl)).
    discriminate.
  - injection E as -> _. specialize (H1 "-"%char (or_introl eq_refl)).
    discriminate.
  - injection E as -> E. apply IH in E.
    + destruct E as [-> ->]. auto.
    + intros c Hc. apply H1. now right.
    + intros c Hc. apply H2. now right.
Qed.

Lemma to_int_not_nil (z : Z) :
  Z.to_int z <> Decimal.Pos Decimal.Nil /\ Z.to_int z <> Decimal.Neg Decimal.Nil.
Proof.
  destruct z; cbn; split; try discriminate;
    intros [= E]; now apply DecimalPos.Unsigned.to_uint_nonnil in E.
Qed.

Lemma string_of_Z_inj (a b : Z) : string_of_Z a = string_of_Z b -> a = b.
Proof.
  unfold string_of_Z. intros E.
  apply DecimalZ.to_int_inj.
  destruct (to_int_not_nil a) as [Ha1 Ha2].
  destruct (to_int_not_nil b) as [Hb1 Hb2].
  pose proof (NilZero.isi _ Ha1 Ha2) as Ia.
  pose proof (NilZero.isi _ Hb1 Hb2) as Ib.
  rewrite E in Ia. congruence.
Qed.

Lemma int_key_inj (y1 y2 : Z) (r1 r2 : string) :
  (string_of_Z y1 ++ String "-" r1)%string
  = (string_of_Z y2 ++ String "-" r2)%string ->
  y1 = y2 /\ r1 = r2.
Proof.
  intros E.
  assert (string_of_Z y1 = string_of_Z y2 /\ r1 = r2) as [Hs Hr].
  { unfold string_of_Z in *.
    destruct (Z.to_int y1) as [d1|d1], (Z.to_int y2) as [d2|d2];
      cbn [NilZero.string_of_int] in *.
    - apply cut_at_hyphen in E;
        [exact E | apply NilZero_uint_chars | apply NilZero_uint_chars].
    - destruct (NilZero_uint_nonempty d1) as [c [s [Hd Hc]]].
      rewrite Hd in E. cbn in E. injection E as -> _. discriminate.
    - destruct (NilZero_uint_nonempty d2) as [c [s [Hd Hc]]].
      rewrite Hd in E. cbn in E. injection E as <- _. discriminate.
    - cbn in E. injection E as E.
      apply cut_at_hyphen in E;
        [| apply NilZero_uint_chars | apply NilZero_uint_chars].
      destruct E as [-> ->]. auto. }
  split; [now apply string_of_Z_inj | exact Hr].
Qed.

Lemma spikeMonthKey_yearMonth (t : CategorizedTransaction) :
  spikeMonthKey t = spikeKeyOf (yearMonth t).
Proof. reflexivity. Qed.

(** The spike detector's month keys tell calendar months apart. *)
Lemma spikeKeyOf_inj (a b : Z * Z) : spikeKeyOf a = spikeKeyOf b -> a = b.
Proof.
  destruct a as [y m], b as [y' m']. unfold spikeKeyOf. cbn [fst snd].
  intros E. apply int_key_inj in E. destruct E as [-> E].
  apply string_of_Z_inj in E. now subst.
Qed.

Section InjectiveOn.
Context {K K' : Type} {KE : KeyEq K} {KE' : KeyEq K'}.
Variable f : K -> K'.
(** The keys on which [f] is known to be injective. *)
Variable D : K -> Prop.
Hypothesis f_inj : forall a b, D a -> D b -> f a = f b -> a = b.

Lemma keqb_inj (a b : K) : D a -> D b -> keqb (f a) (f b) = keqb a b.
Proof.
  intros Ha Hb. destruct (keqb a b) eqn:E.
  - apply keqb_eq in E. subst. apply keqb_refl.
  - apply keqb_neq. apply keqb_neq in E. intros H. apply E. now apply f_inj.
Qed.

Lemma Set_has_map (k : K) (s : list K) :
  D k -> Forall D s -> Set_has (f k) (map f s) = Set_has k s.
Proof.
  intros Hk Hs. unfold Set_has.
  induction Hs as [|x s Hx Hs IH]; cbn; [reflexivity|].
  now rewrite keqb_inj, IH.
Qed.

Lemma Set_add_map (k : K) (s : list K) :
  D k -> Forall D s -> Set_add (f k) (map f s) = map f (Set_add k s).
Proof.
  intros Hk Hs. unfold Set_add. rewrite Set_has_map by assumption.
  destruct (Set_has k s); [reflexivity|].
  now rewrite map_app.
Qed.

Lemma Set_add_Forall (k : K) (s : list K) :
  D k -> Forall D s -> Forall D (Set_add k s).
Proof.
  intros Hk Hs. unfold Set_add. destruct (Set_has k s); [assumption|].
  apply Forall_app. split; [assumption | now constructor].
Qed.

Lemma distinct_map_from (l s : list K) :
  Forall D l -> Forall D s ->
  fold_left (fun s k => Set_add k s) (map f l) (map f s)
  = map f (fold_left (fun s k => Set_add k s) l s).
Proof.
  intros Hl. revert s. induction Hl as [|k l Hk Hl IH]; intros s Hs; cbn.
  - reflexivity.
  - rewrite Set_add_map by assumption. apply IH.
    now apply Set_add_Forall.
Qed.

Lemma distinct_map (l : list K) :
  Forall D l -> distinct (map f l) = map f (distinct l).
Proof. intros Hl. apply (distinct_map_from Hl (Forall_nil D)). Qed.

Lemma withKey_inj {T : Type} (key : T -> K) (k : K) (l : list T) :
  D k -> Forall (fun t => D (key t)) l ->
  withKey (fun t => f (key t)) (f k) l = withKey key k l.
Proof.
  intros Hk Hl. unfold withKey. apply filter_ext_in. intros t Ht.
  rewrite Forall_forall in Hl. apply keqb_inj; auto.
Qed.
End InjectiveOn.

Lemma Forall_True {A : Type} (l : list A) : Forall (fun _ => True) l.
Proof. apply Forall_forall. trivial. Qed.

Lemma spikeKeyOf_inj_on (a b : Z * Z) :
  True -> True -> spikeKeyOf a = spikeKeyOf b -> a = b.
Proof. intros _ _. apply spikeKeyOf_inj. Qed.

(** *** Spending spikes *)

Lemma group_get {K : Type} {KE : KeyEq K} {T : Type} (key : T -> K)
      (l : list T) (k : K) :
  Map_get k (fold_left (Map_update key pushTo) l [])
  = if nonEmpty (withKey key k l) then Some (withKey key k l) else None.
Proof.
  rewrite loop_get. destruct (withKey key k l) as [|t r] eqn:E.
  - reflexivity.
  - now rewrite accumulate_pushTo_cons.
Qed.

Lemma monthlyByCategory_loop (ts : list CategorizedTransaction) :
  monthlyByCategory ts
  = fold_left (Map_update spikeMonthKey pushToCategory) (filter expense ts) [].
Proof. unfold monthlyByCategory. now rewrite fold_left_skip. Qed.

Lemma accumulate_pushToCategory_cons (l : list CategorizedTransaction) :
  forall o t,
    accumulate pushToCategory o (t :: l)
    = Some (fold_left (Map_update category pushTo) (t :: l) (get_or_empty o)).
Proof.
  induction l as [|t' l IH]; intros o t.
  - reflexivity.
  - change (accumulate pushToCategory o (t :: t' :: l))
      with (accumulate pushToCategory (Some (pushToCategory o t)) (t' :: l)).
    now rewrite IH.
Qed.

(** The category map filed under a month key: the month's expenses
    grouped by category. *)
Lemma monthlyByCategory_get (ts : list CategorizedTransaction) (mk : string) :
  match Map_get mk (monthlyByCategory ts) with
  | Some cm => cm
  | None => []
  end
  = fold_left (Map_update category pushTo)
              (withKey spikeMonthKey mk (filter expense ts)) [].
Proof.
  rewrite monthlyByCategory_loop, loop_get.
  destruct (withKey spikeMonthKey mk (filter expense ts)) as [|t r].
  - reflexivity.
  - now rewrite accumulate_pushToCategory_cons.
Qed.

Lemma fold_left_flat_map {A B C : Type} (g : A -> C -> A) (f : B -> list C)
      (l : list B) (a : A) :
  fold_left (fun acc x => fold_left g (f x) acc) l a
  = fold_left g (flat_map f l) a.
Proof.
  revert a. induction l as [|x l IH]; intros a; cbn; [reflexivity|].
  now rewrite fold_left_app, IH.
Qed.

Lemma accumulate_pushTotal_cons
      (l : list (SpendingCategory * list CategorizedTransaction)) :
  forall o e,
    accumulate pushTotal o (e :: l)
    = Some (get_or_empty o ++ map (fun e => sumAmounts (snd e)) (e :: l)).
Proof.
  induction l as [|e' l IH]; intros o e.
  - reflexivity.
  - change (accumulate pushTotal o (e :: e' :: l))
      with (accumulate pushTotal (Some (pushTotal o e)) (e' :: l)).
    rewrite IH. cbn [get_or_empty]. unfold pushTotal.
    now rewrite <- app_assoc.
Qed.

Lemma withKey_flat_map {K : Type} {KE : KeyEq K} {T U : Type} (key : U -> K)
      (k : K) (f : T -> list U) (l : list T) :
  withKey key k (flat_map f l) = flat_map (fun x => withKey key k (f x)) l.
Proof.
  unfold withKey. induction l as [|x l IH]; cbn; [reflexivity|].
  now rewrite filter_app, IH.
Qed.

Lemma withKey_fst_NoDup {K : Type} {KE : KeyEq K} {V : Type}
      (m : JSMap (K:=K) V) (k : K) :
  NoDup (map fst m) ->
  withKey fst k m = match Map_get k m with
                    | Some v => [(k, v)]
                    | None => []
                    end.
Proof.
  induction m as [|[k0 v0] r IH]; cbn; [reflexivity|].
  intros N. inversion N as [|? ? Hn Nr]; subst.
  destruct (keqb k0 k) eqn:E.
  - apply keqb_eq in E. subst. unfold withKey in IH. rewrite IH by assumption.
    apply Map_get_None in Hn. now rewrite Hn.
  - now apply IH.
Qed.

Lemma flat_map_singleton_if {A B : Type} (p : A -> bool) (h : A -> B)
      (l : list A) :
  flat_map (fun x => if p x then [h x] else []) l = map h (filter p l).
Proof.
  induction l as [|x l IH]; cbn; [reflexivity|].
  destruct (p x); cbn; now rewrite IH.
Qed.

Lemma flat_map_if {A B : Type} (p : A -> bool) (g : A -> list B)
      (l : list A) :
  flat_map (fun x => if p x then g x else []) l = flat_map g (filter p l).
Proof.
  induction l as [|x l IH]; cbn; [reflexivity|].
  destruct (p x); cbn; now rewrite IH.
Qed.

Lemma flat_map_map {A B C : Type} (f : A -> B) (g : B -> list C)
      (l : list A) :
  flat_map g (map f l) = flat_map (fun x => g (f x)) l.
Proof.
  induction l as [|x l IH]; cbn; [reflexivity|]. now rewrite IH.
Qed.

Lemma filter_flat_map {A B : Type} (p : B -> bool) (g : A -> list B)
      (l : list A) :
  filter p (flat_map g l) = flat_map (fun x => filter p (g x)) l.
Proof.
  induction l as [|x l IH]; cbn; [reflexivity|].
  now rewrite filter_app, IH.
Qed.

Lemma monthKeys_observed (ts : list CategorizedTransaction) :
  map fst (monthlyByCategory ts) = map spikeKeyOf (observedMonths ts).
Proof.
  rewrite monthlyByCategory_loop, loop_keys. unfold observedMonths.
  rewrite <- (@distinct_map _ _ _ _ spikeKeyOf (fun _ => True)
                            spikeKeyOf_inj_on)
    by apply Forall_True.
  now rewrite map_map.
Qed.

(** The entries of one category over all month maps: one per observed
    month in which the category has an expense, carrying these
    expenses. *)
Lemma spike_entries (ts : list CategorizedTransaction) (c : SpendingCategory) :
  withKey fst c (flat_map snd (monthlyByCategory ts))
  = map (fun ym => (c, expensesIn ym c ts))
        (filter (fun ym => nonEmpty (expensesIn ym c ts)) (observedMonths ts)).
Proof.
  rewrite withKey_flat_map.
  rewrite (Map_entries [] (monthlyByCategory ts)) at 1.
  2:{ rewrite monthlyByCategory_loop. apply loop_NoDup. }
  rewrite monthKeys_observed, map_map, flat_map_map. cbn [snd].
  rewrite <- flat_map_singleton_if. apply flat_map_ext. intros ym.
  rewrite monthlyByCategory_get.
  rewrite withKey_fst_NoDup by apply loop_NoDup.
  rewrite group_get.
  change (withKey spikeMonthKey (spikeKeyOf ym) (filter expense ts))
    with (withKey (fun t => spikeKeyOf (yearMonth t)) (spikeKeyOf ym)
                  (filter expense ts)).
  rewrite (@withKey_inj _ _ _ _ spikeKeyOf (fun _ => True)
                        spikeKeyOf_inj_on)
    by (trivial || apply Forall_True).
  fold (expensesIn ym c ts).
  now destruct (nonEmpty (expensesIn ym c ts)).
Qed.

(** The totals the spike detector files under a category are the
    category's monthly totals. *)
Lemma categoryMonthlyTotals_get (ts : list CategorizedTransaction)
      (c : SpendingCategory) :
  Map_get c (categoryMonthlyTotals (monthlyByCategory ts))
  = if nonEmpty (spec_monthlyTotals c ts)
    then Some (spec_monthlyTotals c ts) else None.
Proof.
  unfold categoryMonthlyTotals. rewrite fold_left_flat_map, loop_get.
  rewrite spike_entries. unfold spec_monthlyTotals.
  destruct (filter _ (observedMonths ts)) as [|ym r]; [reflexivity|].
  cbn [map]. rewrite accumulate_pushTotal_cons. cbn [nonEmpty get_or_empty].
  cbn [app map snd]. now rewrite map_map.
Qed.

Lemma nonEmpty_In {A : Type} (l : list A) :
  nonEmpty l = true <-> exists x, In x l.
Proof.
  destruct l as [|x l]; cbn.
  - split; [discriminate | intros [x []]].
  - split; [intros _; exists x; now left | reflexivity].
Qed.

(** There is one monthly total per calendar month in which the category
    has an expense. *)
Lemma spec_monthlyTotals_length (ts : list CategorizedTransaction)
      (c : SpendingCategory) :
  List.length (spec_monthlyTotals c ts) = List.length (monthsOf c ts).
Proof.
  unfold spec_monthlyTotals. rewrite length_map.
  apply Permutation_length. apply NoDup_Permutation.
  - apply NoDup_filter. apply distinct_NoDup.
  - apply distinct_NoDup.
  - intros ym. unfold monthsOf, observedMonths.
    rewrite filter_In, nonEmpty_In, !distinct_In, !in_map_iff. split.
    + intros [_ [t Ht]]. unfold expensesIn in Ht.
      apply withKey_In in Ht. destruct Ht as [Ht Hc].
      apply withKey_In in Ht. destruct Ht as [Ht Hym].
      exists t. split; [assumption|]. now apply withKey_In.
    + intros [t [Hym Ht]]. apply withKey_In in Ht. destruct Ht as [Ht Hc].
      split; [now exists t|]. exists t. unfold expensesIn.
      apply withKey_In. split; [|assumption]. now apply withKey_In.
Qed.

(** *** Order of the trend detector's month keys *)

Lemma string_compare_refl (s : string) : String.compare s s = Eq.
Proof. now apply OrderedTypeEx.String_as_OT.cmp_eq. Qed.

Lemma string_lt_trans (a b c : string) :
  String.compare a b = Lt -> String.compare b c = Lt ->
  String.compare a c = Lt.
Proof.
  intros H1 H2. apply OrderedTypeEx.String_as_OT.cmp_lt.
  apply OrderedTypeEx.String_as_OT.cmp_lt in H1, H2.
  eapply OrderedTypeEx.String_as_OT.lt_trans; eassumption.
Qed.

(** "Not greater" is transitive. *)
Lemma string_le_trans (a b c : string) :
  String.compare a b <> Gt -> String.compare b c <> Gt ->
  String.compare a c <> Gt.
Proof.
  intros H1 H2.
  destruct (String.compare a b) eqn:E1; [| |congruence].
  - apply String.compare_eq_iff in E1. now subst.
  - destruct (String.compare b c) eqn:E2; [| |congruence].
    + apply String.compare_eq_iff in E2. subst. congruence.
    + rewrite (string_lt_trans _ _ _ E1 E2). discriminate.
Qed.

Lemma string_compare_app (a : string) :
  forall b r1 r2 : string,
    String.length a = String.length b ->
    String.compare (a ++ r1) (b ++ r2)
    = match String.compare a b with
      | Eq => String.compare r1 r2
      | c => c
      end.
Proof.
  induction a as [|x a IH]; intros [|y b] r1 r2 H; cbn in H |- *;
    try discriminate; [reflexivity|].
  destruct (Ascii.compare x y); try reflexivity.
  apply IH. now injection H.
Qed.

Lemma fourDigitYears_In (y : Z) : 1000 <= y <= 9999 -> In y fourDigitYears.
Proof.
  intros H. unfold fourDigitYears. apply in_map_iff.
  exists (Z.to_nat (y - 1000)). split; [lia|].
  apply in_seq. lia.
Qed.

Lemma monthIndices_In (m : Z) : 0 <= m <= 11 -> In m monthIndices.
Proof.
  intros H. unfold monthIndices. apply in_map_iff.
  exists (Z.to_nat m). split; [lia|]. apply in_seq. lia.
Qed.

Lemma year_string_length (y : Z) :
  1000 <= y <= 9999 -> String.length (string_of_Z y) = 4%nat.
Proof.
  intros H. apply fourDigitYears_In in H.
  assert (forallb (fun y => Nat.eqb (String.length (string_of_Z y)) 4)
                  fourDigitYears = true) as F
    by (vm_compute; reflexivity).
  rewrite forallb_forall in F. apply F in H. now apply Nat.eqb_eq.
Qed.

Lemma year_string_next (y : Z) :
  1000 <= y <= 9998 ->
  String.compare (string_of_Z y) (string_of_Z (y + 1)) = Lt.
Proof.
  intros H. assert (In y fourDigitYears) as Hy by (apply fourDigitYears_In; lia).
  assert (forallb
            (fun y => (9998 <? y)
                      || match String.compare (string_of_Z y)
                                              (string_of_Z (y + 1))
                         with Lt => true | _ => false end)
            fourDigitYears = true) as F
    by (vm_compute; reflexivity).
  rewrite forallb_forall in F. apply F in Hy.
  destruct (Z.ltb_spec 9998 y); [lia|]. cbn in Hy.
  now destruct (String.compare _ _).
Qed.

Lemma year_string_lt (y y' : Z) :
  1000 <= y -> y < y' -> y' <= 9999 ->
  String.compare (string_of_Z y) (string_of_Z y') = Lt.
Proof.
  intros Hlo Hlt Hhi.
  replace y' with (y + 1 + Z.of_nat (Z.to_nat (y' - y - 1))) in * by lia.
  induction (Z.to_nat (y' - y - 1)) as [|n IH].
  - rewrite Z.add_0_r. apply year_string_next. lia.
  - apply string_lt_trans with (string_of_Z (y + 1 + Z.of_nat n)).
    + apply IH; lia.
    + replace (y + 1 + Z.of_nat (S n)) with (y + 1 + Z.of_nat n + 1) by lia.
      apply year_string_next. lia.
Qed.

Lemma comparison_of_lt (a b : Z) :
  (a ?= b) = if a <? b then Lt else if a =? b then Eq else Gt.
Proof.
  destruct (Z.compare_spec a b); destruct (Z.ltb_spec a b);
    destruct (Z.eqb_spec a b); (reflexivity || lia).
Qed.

Lemma year_string_compare (y y' : Z) :
  1000 <= y <= 9999 -> 1000 <= y' <= 9999 ->
  String.compare (string_of_Z y) (string_of_Z y') = (y ?= y').
Proof.
  intros H H'. destruct (Z.compare_spec y y') as [->|L|L].
  - apply string_compare_refl.
  - apply year_string_lt; lia.
  - rewrite String.compare_antisym.
    rewrite year_string_lt by lia. reflexivity.
Qed.

Lemma month_string_compare (m m' : Z) :
  0 <= m <= 11 -> 0 <= m' <= 11 ->
  String.compare (String "-" (padStart2 (string_of_Z (m + 1))))
                 (String "-" (padStart2 (string_of_Z (m' + 1))))
  = (m ?= m').
Proof.
  intros H H'. apply monthIndices_In in H, H'.
  assert (forallb
            (fun m =>
               forallb
                 (fun m' =>
                    match
                      String.compare
                        (String "-" (padStart2 (string_of_Z (m + 1))))
                        (String "-" (padStart2 (string_of_Z (m' + 1)))),
                      (m ?= m')
                    with
                    | Lt, Lt | Eq, Eq | Gt, Gt => true
                    | _, _ => false
                    end)
                 monthIndices)
            monthIndices = true) as F
    by (vm_compute; reflexivity).
  rewrite forallb_forall in F. apply F in H.
  rewrite forallb_forall in H. apply H in H'.
  destruct (String.compare _ _), (m ?= m'); (reflexivity || discriminate).
Qed.

(** For four-digit years the order of the keys is the chronological
    order of the months. *)
Lemma trendKey_compare (a b : Z * Z) :
  fourDigitYear a -> fourDigitYear b ->
  String.compare (trendKeyOf a) (trendKeyOf b)
  = (monthIndex a ?= monthIndex b).
Proof.
  destruct a as [y m], b as [y' m']. unfold fourDigitYear, trendKeyOf, monthIndex.
  cbn [fst snd]. intros [Hy Hm] [Hy' Hm'].
  change (string_of_Z y ++ "-" ++ padStart2 (string_of_Z (m + 1)))%string
    with (string_of_Z y ++ String "-" (padStart2 (string_of_Z (m + 1))))%string.
  change (string_of_Z y' ++ "-" ++ padStart2 (string_of_Z (m' + 1)))%string
    with (string_of_Z y' ++ String "-" (padStart2 (string_of_Z (m' + 1))))%string.
  rewrite string_compare_app
    by (rewrite !year_string_length by assumption; reflexivity).
  rewrite year_string_compare, month_string_compare by assumption.
  destruct (Z.compare_spec y y'); destruct (Z.compare_spec m m');
    symmetry; first [apply Z.compare_eq_iff | apply Z.compare_lt_iff
                    | apply Z.compare_gt_iff]; lia.
Qed.

Lemma trendKeyOf_inj_on (a b : Z * Z) :
  fourDigitYear a -> fourDigitYear b -> trendKeyOf a = trendKeyOf b -> a = b.
Proof.
  intros Ha Hb E.
  assert (monthIndex a = monthIndex b) as Hi.
  { apply Z.compare_eq. rewrite <- trendKey_compare by assumption.
    rewrite E. apply string_compare_refl. }
  destruct a as [y m], b as [y' m']. unfold fourDigitYear, monthIndex in *.
  cbn [fst snd] in *. f_equal; lia.
Qed.

Lemma monthIndex_inj_on (a b : Z * Z) :
  fourDigitYear a -> fourDigitYear b -> monthIndex a = monthIndex b -> a = b.
Proof.
  destruct a as [y m], b as [y' m']. unfold fourDigitYear, monthIndex.
  cbn [fst snd]. intros. f_equal; lia.
Qed.

(** *** Trends *)

Lemma monthlyTotals_loop (ts : list CategorizedTransaction) :
  monthlyTotals ts
  = fold_left (Map_update trendMonthKey addAmount) (filter expense ts) [].
Proof. unfold monthlyTotals. now rewrite fold_left_skip. Qed.

Lemma observedMonths_fourDigit (ts : list CategorizedTransaction) :
  Forall (fun t => fourDigitYear (yearMonth t)) (filter expense ts) ->
  Forall fourDigitYear (observedMonths ts).
Proof.
  intros H. apply Forall_forall. intros ym Hym.
  unfold observedMonths in Hym. apply (proj1 (distinct_In _ _)) in Hym.
  apply in_map_iff in Hym.
  destruct Hym as [t [<- Ht]]. rewrite Forall_forall in H. now apply H.
Qed.

Lemma trendKeys_observed (ts : list CategorizedTransaction) :
  Forall (fun t => fourDigitYear (yearMonth t)) (filter expense ts) ->
  map fst (monthlyTotals ts) = map trendKeyOf (observedMonths ts).
Proof.
  intros H. rewrite monthlyTotals_loop, loop_keys. unfold observedMonths.
  rewrite <- (@distinct_map _ _ _ _ trendKeyOf fourDigitYear trendKeyOf_inj_on).
  - now rewrite map_map.
  - apply Forall_forall. intros ym Hym. apply in_map_iff in Hym.
    destruct Hym as [t [<- Ht]]. rewrite Forall_forall in H. now apply H.
Qed.

(** The total the trend detector files under a month's key. *)
Lemma monthlyTotals_get (ts : list CategorizedTransaction) (ym : Z * Z) :
  Forall finiteAmount ts ->
  Forall (fun t => fourDigitYear (yearMonth t)) (filter expense ts) ->
  In ym (observedMonths ts) ->
  Map_get (trendKeyOf ym) (monthlyTotals ts) = Some (monthTotal ym ts).
Proof.
  intros Hfin Hval Hym.
  assert (fourDigitYear ym) as Hd.
  { pose proof (@observedMonths_fourDigit ts Hval) as H.
    rewrite Forall_forall in H. now apply H. }
  rewrite monthlyTotals_loop, loop_get.
  change (withKey trendMonthKey (trendKeyOf ym) (filter expense ts))
    with (withKey (fun t => trendKeyOf (yearMonth t)) (trendKeyOf ym)
                  (filter expense ts)).
  rewrite (@withKey_inj _ _ _ _ trendKeyOf fourDigitYear trendKeyOf_inj_on)
    by assumption.
  apply accumulate_addAmount.
  - apply Forall_withKey. rewrite Forall_forall in Hfin |- *.
    intros t Ht. apply Hfin. now apply filter_In in Ht.
  - apply withKey_nonempty. apply (proj1 (distinct_In _ _)). exact Hym.
Qed.

Lemma monthlyTotals_entries (ts : list CategorizedTransaction) :
  Forall finiteAmount ts ->
  Forall (fun t => fourDigitYear (yearMonth t)) (filter expense ts) ->
  monthlyTotals ts
  = map (fun ym => (trendKeyOf ym, monthTotal ym ts)) (observedMonths ts).
Proof.
  intros Hfin Hval.
  rewrite (Map_entries zero (monthlyTotals ts)) at 1.
  2:{ rewrite monthlyTotals_loop. apply loop_NoDup. }
  rewrite trendKeys_observed by assumption. rewrite map_map.
  apply map_ext_in. intros ym Hym.
  now rewrite monthlyTotals_get.
Qed.

Lemma after_localeCompare (a b : string * num) :
  after (fun a b => localeCompare (fst a) (fst b)) a b
  = match String.compare (fst a) (fst b) with Gt => true | _ => false end.
Proof.
  unfold after, localeCompare. now destruct (String.compare (fst a) (fst b)).
Qed.

Lemma sortedMonths_sorted (m : list (string * num)) :
  StronglySorted (fun a b => String.compare (fst a) (fst b) <> Gt)
    (Array_sort (fun a b => localeCompare (fst a) (fst b)) m).
Proof.
  apply Array_sort_sorted with (P := fun _ => True).
  - intros x y _ _ H. rewrite after_localeCompare in H.
    destruct (String.compare (fst x) (fst y)); congruence.
  - intros x y _ _ H. rewrite after_localeCompare in H.
    rewrite String.compare_antisym.
    destruct (String.compare (fst x) (fst y)); cbn; congruence.
  - intros x y z _ _ _. apply string_le_trans.
  - apply Forall_True.
Qed.

Lemma sorted_head_least {A : Type} (R : A -> A -> Prop) (x : A) (l : list A) :
  StronglySorted R (x :: l) -> forall y, In y l -> R x y.
Proof.
  intros S. inversion S as [|? ? _ F]; subst.
  now apply Forall_forall.
Qed.

Lemma sorted_last_greatest {A : Type} (R : A -> A -> Prop) (l : list A) (z : A) :
  StronglySorted R l -> last_opt l = Some z ->
  In z l /\ forall y, In y l -> y = z \/ R y z.
Proof.
  induction 1 as [|x l S IH F]; cbn [last_opt]; [discriminate|].
  destruct l as [|x' l'].
  - intros [= ->]. split; [now left|]. intros y [<-|[]]. now left.
  - intros E. destruct (IH E) as [Hz Hall]. split; [now right|].
    intros y [<-|Hy].
    + right. rewrite Forall_forall in F. now apply F.
    + now apply Hall.
Qed.

Lemma last_opt_cons {A : Type} (x : A) (l : list A) :
  exists z, last_opt (x :: l) = Some z.
Proof.
  revert x. induction l as [|y l IH]; intros x.
  - now exists x.
  - destruct (IH y) as [z Hz]. exists z. exact Hz.
Qed.

(** A non-empty list of months has a chronologically first and a
    chronologically last member. *)
Lemma first_last_month_exist (ts : list CategorizedTransaction) :
  observedMonths ts <> [] ->
  (exists ym, firstMonthOf ts ym) /\ (exists ym, lastMonthOf ts ym).
Proof.
  unfold firstMonthOf, lastMonthOf.
  induction (observedMonths ts) as [|a l IH]; [congruence|]. intros _.
  destruct l as [|b l'].
  - split; exists a; (split; [now left | intros y [<-|[]]; lia]).
  - destruct IH as [[lo [Hlo Hlo']] [hi [Hhi Hhi']]]; [discriminate|].
    split.
    + destruct (Z.le_gt_cases (monthIndex a) (monthIndex lo)).
      * exists a. split; [now left|]. intros y [<-|Hy]; [lia|].
        specialize (Hlo' y Hy). lia.
      * exists lo. split; [now right|]. intros y [<-|Hy]; [lia|].
        now apply Hlo'.
    + destruct (Z.le_gt_cases (monthIndex hi) (monthIndex a)).
      * exists a. split; [now left|]. intros y [<-|Hy]; [lia|].
        specialize (Hhi' y Hy). lia.
      * exists hi. split; [now right|]. intros y [<-|Hy]; [lia|].
        now apply Hhi'.
Qed.

(** When the first month's total is 0 the percent change is infinite and
    a trend of high severity is emitted. *)
Lemma zero_first_month_trend :
  trendOf zero (ofZ 100) = [trendPattern (ofZ 100) PInf]
  /\ text (trendPattern (ofZ 100) PInf) = TrendText increasing PInf
  /\ severity (trendPattern (ofZ 100) PInf) = high.
Proof. repeat split; js_refl. Qed.

(** A change of 14 percent, 1000 then 1140, is below the threshold: no
    trend pattern. *)
Lemma small_change_no_trend :
  trendOf (ofZ 1000) (ofZ 1140) = [].
Proof. reflexivity. Qed.

(** * Further properties *)

(** ** Sums of numbers *)

Lemma add_comm (x y : num) : add x y = add y x.
Proof.
  destruct x as [a| | |], y as [b| | |]; cbn; try reflexivity.
  now rewrite Qcplus_comm.
Qed.

Lemma add_assoc (x y z : num) : add x (add y z) = add (add x y) z.
Proof.
  destruct x as [a| | |], y as [b| | |], z as [c| | |]; cbn;
    try reflexivity.
  now rewrite Qcplus_assoc.
Qed.

Lemma add_zero_l (x : num) : add zero x = x.
Proof.
  destruct x as [a| | |]; cbn; try reflexivity.
  now rewrite qz_0, Qcplus_0_l.
Qed.

Lemma add_zero_r (x : num) : add x zero = x.
Proof. rewrite add_comm. apply add_zero_l. Qed.

Lemma fold_add_from (l : list num) (a : num) :
  fold_left add l a = add a (sum l).
Proof.
  unfold sum. revert a. induction l as [|x l IH]; intros a; cbn [fold_left].
  - now rewrite add_zero_r.
  - rewrite IH, (IH (add zero x)), add_zero_l. now rewrite add_assoc.
Qed.

Lemma sum_cons (x : num) (l : list num) : sum (x :: l) = add x (sum l).
Proof.
  unfold sum at 1. cbn [fold_left]. now rewrite fold_add_from, add_zero_l.
Qed.

Lemma sum_app (l l' : list num) : sum (l ++ l') = add (sum l) (sum l').
Proof.
  induction l as [|x l IH]; cbn [app].
  - now rewrite add_zero_l.
  - now rewrite !sum_cons, IH, add_assoc.
Qed.

(** The sum of a list does not depend on the order of its members. *)
Lemma sum_perm (l l' : list num) : Permutation l l' -> sum l = sum l'.
Proof.
  induction 1 as [|x l l' _ IH|x y l|l l' l'' _ IH1 _ IH2].
  - reflexivity.
  - now rewrite !sum_cons, IH.
  - rewrite !sum_cons, !add_assoc. now rewrite (add_comm y x).
  - congruence.
Qed.

Lemma sumAmounts_sum (l : list CategorizedTransaction) :
  sumAmounts l = sum (map amount l).
Proof. unfold sumAmounts, sum. now rewrite fold_left_map. Qed.

Lemma sumAmounts_cons (t : CategorizedTransaction)
      (l : list CategorizedTransaction) :
  sumAmounts (t :: l) = add (amount t) (sumAmounts l).
Proof. rewrite !sumAmounts_sum. apply sum_cons. Qed.

Section SumByKey.
Context {K : Type} {KE : KeyEq K}.

(** Adding [x] to the term of one key adds [x] to the whole sum. *)
Lemma sum_map_add_at (g : K -> num) (x : num) (k0 : K) (ks : list K) :
  NoDup ks -> In k0 ks ->
  sum (map (fun k => if keqb k0 k then add x (g k) else g k) ks)
  = add x (sum (map g ks)).
Proof.
  induction ks as [|k ks IH]; intros N Hin; [destruct Hin|].
  inversion N as [|? ? Hn N']; subst. cbn [map]. rewrite !sum_cons.
  destruct (keqb k0 k) eqn:E.
  - apply keqb_eq in E. subst k.
    rewrite <- add_assoc. f_equal. f_equal. f_equal.
    apply map_ext_in. intros k Hk.
    destruct (keqb k0 k) eqn:E'; [|reflexivity].
    apply keqb_eq in E'. subst. contradiction.
  - destruct Hin as [->|Hin]; [now rewrite keqb_refl in E|].
    rewrite IH by assumption.
    rewrite !add_assoc. now rewrite (add_comm (g k) x).
Qed.

(** Summing group by group gives the sum over all members, for any
    weight [w] of the members. *)
Lemma sum_by_key {T : Type} (key : T -> K) (w : T -> num) (ks : list K)
      (l : list T) :
  NoDup ks -> (forall t, In t l -> In (key t) ks) ->
  sum (map (fun k => sum (map w (withKey key k l))) ks) = sum (map w l).
Proof.
  intros N. induction l as [|t l IH]; intros Hks.
  - clear N Hks. induction ks as [|k ks IHk]; [reflexivity|].
    cbn [map]. rewrite sum_cons, IHk. apply add_zero_l.
  - cbn [map]. rewrite sum_cons, <- IH by (intros; apply Hks; now right).
    rewrite <- (sum_map_add_at _ (w t) (key t) N)
      by (apply Hks; now left).
    f_equal. apply map_ext. intros k. unfold withKey. cbn [filter].
    destruct (keqb (key t) k); [apply sum_cons | reflexivity].
Qed.

Lemma sumAmounts_by_key (key : CategorizedTransaction -> K)
      (l : list CategorizedTransaction) :
  sum (map (fun k => sumAmounts (withKey key k l)) (distinct (map key l)))
  = sumAmounts l.
Proof.
  rewrite sumAmounts_sum.
  rewrite <- (@sum_by_key _ key amount (distinct (map key l)) l
                          (distinct_NoDup (map key l))).
  - f_equal. apply map_ext. intros k. apply sumAmounts_sum.
  - intros t Ht. apply distinct_In. now apply in_map.
Qed.
End SumByKey.

(** ** More on the category breakdown *)

Lemma ofNat_succ (n : nat) : add (ofNat n) (ofZ 1) = ofNat (S n).
Proof. unfold ofNat. rewrite add_ofZ. f_equal. lia. Qed.

Lemma accumulate_addOne_from (l : list CategorizedTransaction) (n : nat) :
  accumulate addOne (Some (ofNat n)) l = Some (ofNat (n + List.length l)).
Proof.
  revert n. induction l as [|t l IH]; intros n.
  - cbn. now rewrite Nat.add_0_r.
  - unfold accumulate. cbn [fold_left]. unfold addOne at 2.
    cbn [get_or]. unfold ofNat at 1, ofZ at 1. rewrite or_fin_zero.
    fold (ofZ (Z.of_nat n)). fold (ofNat n). rewrite ofNat_succ.
    fold (accumulate addOne (Some (ofNat (S n))) l). rewrite IH.
    cbn [List.length]. f_equal. f_equal. lia.
Qed.

(** The count filed under a category: the number of its members. *)
Lemma accumulate_addOne (l : list CategorizedTransaction) :
  l <> [] -> accumulate addOne None l = Some (ofNat (List.length l)).
Proof.
  destruct l as [|t l]; [congruence|]. intros _.
  unfold accumulate. cbn [fold_left].
  assert (addOne None t = ofNat 1) as -> by js_refl.
  fold (accumulate addOne (Some (ofNat 1)) l).
  now rewrite accumulate_addOne_from.
Qed.

Lemma categoryCounts_get (expenses : list CategorizedTransaction)
      (c : SpendingCategory) :
  In c (map category expenses) ->
  Map_get c (fold_left (Map_update category addOne) expenses [])
  = Some (ofNat (List.length (withKey category c expenses))).
Proof.
  intros Hc. rewrite loop_get. apply accumulate_addOne.
  now apply withKey_nonempty.
Qed.

(** The entries of the breakdown, whatever the amounts: one per category
    with an expense, counting that category's expenses. *)
Lemma breakdown_counts (expenses : list CategorizedTransaction) :
  Permutation (map cb_category (calculateCategoryBreakdown expenses))
              (distinct (map category expenses))
  /\ forall e, In e (calculateCategoryBreakdown expenses) ->
       transactionCount e
       = ofNat (List.length (withKey category (cb_category e) expenses))
       /\ percentage e = mul (div (total e) (sumAmounts expenses)) (ofZ 100).
Proof.
  unfold calculateCategoryBreakdown. rewrite tally_fold.
  set (totals := fold_left (Map_update category addAmount) expenses []).
  set (counts := fold_left (Map_update category addOne) expenses []).
  assert (map fst totals = distinct (map category expenses)) as Hkeys
    by apply loop_keys.
  split.
  - rewrite (Permutation_map cb_category (Array_sort_perm _ _)).
    rewrite map_map, <- Hkeys. apply Permutation_refl'.
    apply map_ext. now intros [c tot].
  - intros e He. apply (proj1 (Array_sort_In _ _ _)) in He.
    apply in_map_iff in He. destruct He as [[c tot] [<- Hin]].
    cbn [breakdownEntry cb_category transactionCount percentage total].
    split; [|reflexivity].
    assert (In c (map category expenses)) as Hc.
    { apply distinct_In. rewrite <- Hkeys.
      exact (in_map fst totals (c, tot) Hin). }
    unfold counts. rewrite categoryCounts_get by assumption.
    cbn [get_or]. unfold ofNat, ofZ. apply or_fin_zero.
Qed.

Lemma sum_ones {T : Type} (l : list T) :
  sum (map (fun _ => ofZ 1) l) = ofNat (List.length l).
Proof.
  induction l as [|t l IH]; [reflexivity|].
  cbn [map List.length]. rewrite sum_cons, IH, add_comm. apply ofNat_succ.
Qed.

Lemma breakdown_totals_sum (ts : list CategorizedTransaction) :
  Forall finiteAmount ts ->
  sum (map total (categoryBreakdown (calculateMetrics ts)))
  = totalSpending (calculateMetrics ts).
Proof.
  intros Hfin. cbn [calculateMetrics categoryBreakdown totalSpending].
  set (expenses := filter expense ts).
  assert (Forall finiteAmount expenses) as Hexp.
  { rewrite Forall_forall in Hfin |- *. intros t Ht. apply Hfin.
    unfold expenses in Ht. now apply filter_In in Ht. }
  destruct (breakdown_entries Hexp) as [g [_ [Htot ->]]].
  rewrite (sum_perm (Permutation_map total (Array_sort_perm _ _))).
  rewrite map_map, <- sumAmounts_by_key with (key := category).
  f_equal. apply map_ext_in. intros c Hc. apply Htot.
  now apply distinct_In.
Qed.

Lemma wholeAmounts_finite (ts : list CategorizedTransaction) :
  wholeAmounts ts -> Forall finiteAmount ts.
Proof.
  intros [zs [E _]]. apply Forall_forall. intros t Ht.
  apply (in_map amount) in Ht. rewrite E in Ht.
  apply in_map_iff in Ht as [z [Hz _]]. unfold finiteAmount.
  now rewrite <- Hz.
Qed.

Lemma gymAndConcert_whole : wholeAmounts gymAndConcert.
Proof.
  exists [100; 100; 100; 100; 300]. split; [reflexivity|].
  split; [|vm_compute; discriminate].
  repeat constructor; lia.
Qed.

(** X1: when the amounts are whole numbers, none negative, that add up
    to at most 2^53, the totals of the category breakdown add up to the
    total spending. *)
Theorem X1_breakdown_totals_add_up (ts : list CategorizedTransaction) :
  wholeAmounts ts ->
  sum (map total (categoryBreakdown (calculateMetrics ts)))
  = totalSpending (calculateMetrics ts).
Proof. intros H. apply breakdown_totals_sum. now apply wholeAmounts_finite. Qed.

Lemma X1_breakdown_totals_add_up_witness :
  wholeAmounts gymAndConcert
  /\ sum (map total (categoryBreakdown (calculateMetrics gymAndConcert)))
     = totalSpending (calculateMetrics gymAndConcert).
Proof.
  split; [exact gymAndConcert_whole|].
  exact (X1_breakdown_totals_add_up gymAndConcert_whole).
Defined.

(** X2: whatever the amounts, the category breakdown has exactly one
    entry for each category in which an expense occurs and none for the
    other categories; the entry's transactionCount is the number of
    expenses of its category, and the counts add up to the number of
    expenses. *)
Theorem X2_breakdown_counts (ts : list CategorizedTransaction) :
  let expenses := filter expense ts in
  let breakdown := categoryBreakdown (calculateMetrics ts) in
  Permutation (map cb_category breakdown) (distinct (map category expenses))
  /\ (forall e, In e breakdown ->
        transactionCount e
        = ofNat (List.length (withKey category (cb_category e) expenses)))
  /\ sum (map transactionCount breakdown) = ofNat (List.length expenses).
Proof.
  cbv zeta. cbn [calculateMetrics categoryBreakdown].
  set (expenses := filter expense ts).
  destruct (breakdown_counts expenses) as [Hperm Hcount].
  split; [exact Hperm|]. split; [intros e He; now apply Hcount|].
  rewrite (map_ext_in transactionCount
             (fun e => ofNat (List.length
                                (withKey category (cb_category e) expenses))))
    by (intros e He; now apply Hcount).
  rewrite <- (map_map cb_category
                (fun c => ofNat (List.length (withKey category c expenses)))).
  rewrite (sum_perm (Permutation_map _ Hperm)).
  rewrite <- sum_ones.
  rewrite <- (@sum_by_key _ _ _ category (fun _ => ofZ 1)
                          (distinct (map category expenses)) expenses
                          (distinct_NoDup (map category expenses))).
  - f_equal. apply map_ext. intros c. symmetry. apply sum_ones.
  - intros t Ht. apply distinct_In. now apply in_map.
Qed.

(** ** Input without expenses *)

Lemma filter_none {A : Type} (p : A -> bool) (l : list A) :
  Forall (fun x => p x = false) l -> filter p l = [].
Proof.
  induction 1 as [|x l Hx _ IH]; cbn; [reflexivity|]. now rewrite Hx.
Qed.

Lemma filter_all {A : Type} (p : A -> bool) (l : list A) :
  Forall (fun x => p x = true) l -> filter p l = l.
Proof.
  induction 1 as [|x l Hx _ IH]; cbn; [reflexivity|]. now rewrite Hx, IH.
Qed.

Lemma or_truthy (x d : num) : truthy d = true -> truthy (or x d) = true.
Proof. intros H. unfold or. now destruct (truthy x) eqn:E. Qed.

(** Zero divided by a truthy number is zero. *)
Lemma div_zero_truthy (d : num) : truthy d = true -> div zero d = zero.
Proof.
  destruct d as [b| | |]; cbn; try reflexivity; try discriminate.
  intros H. apply negb_true_iff in H. rewrite H.
  unfold zero, ofZ. apply (f_equal Fin). rewrite qz_0. unfold Qcdiv. ring.
Qed.

Lemma sub_zero_r (x : num) : sub x zero = x.
Proof.
  destruct x as [a| | |]; cbn; try reflexivity.
  apply (f_equal Fin). rewrite qz_0. ring.
Qed.

(** X4: when no transaction is an expense (all are income, or there is
    none), the metrics have total spending 0, both averages 0 and an
    empty category breakdown, and the net cash flow is the total income:
    no division by zero shows. *)
Theorem X4_no_expense_metrics (ts : list CategorizedTransaction) :
  Forall (fun t => isIncome t = true) ts ->
  let m := calculateMetrics ts in
  totalSpending m = zero
  /\ averageDaily m = zero
  /\ averageMonthly m = zero
  /\ categoryBreakdown m = []
  /\ totalIncome m = sumAmounts ts
  /\ netCashFlow m = totalIncome m.
Proof.
  intros H. cbv zeta. unfold calculateMetrics.
  cbn [totalSpending averageDaily averageMonthly categoryBreakdown
       totalIncome netCashFlow].
  assert (filter expense ts = []) as ->.
  { apply filter_none. rewrite Forall_forall in H |- *. intros t Ht.
    unfold expense. now rewrite (H t Ht). }
  rewrite (filter_all _ H).
  change (sumAmounts []) with zero.
  repeat split.
  - apply div_zero_truthy. now apply or_truthy.
  - apply div_zero_truthy. now apply or_truthy.
  - apply sub_zero_r.
Qed.

Lemma X4_no_expense_metrics_witness :
  Forall (fun t => isIncome t = true) salaryOnly
  /\ averageDaily (calculateMetrics salaryOnly) = zero.
Proof.
  assert (Forall (fun t => isIncome t = true) salaryOnly) as H
    by (repeat constructor).
  split; [exact H|].
  exact (proj1 (proj2 (X4_no_expense_metrics H))).
Defined.

(** ** Averages by category *)

Lemma Map_set_fresh {K : Type} {KE : KeyEq K} {V : Type}
      (m : JSMap (K:=K) V) (k : K) (v : V) :
  ~ In k (map fst m) -> Map_set k v m = m ++ [(k, v)].
Proof.
  induction m as [|[k0 v0] r IH]; cbn; [reflexivity|]. intros H.
  destruct (keqb k0 k) eqn:E.
  - apply keqb_eq in E. subst. tauto.
  - rewrite IH by tauto. reflexivity.
Qed.

(** Setting the entries of a map without repeated keys one after the
    other into another map appends them. *)
Lemma fold_Map_set_fresh {K : Type} {KE : KeyEq K} {V W : Type}
      (h : K * V -> W) (entries : list (K * V)) :
  forall acc : JSMap (K:=K) W,
    NoDup (map fst acc ++ map fst entries) ->
    fold_left (fun m e => Map_set (fst e) (h e) m) entries acc
    = acc ++ map (fun e => (fst e, h e)) entries.
Proof.
  induction entries as [|[k v] r IH]; intros acc N; cbn [fold_left map].
  - now rewrite app_nil_r.
  - cbn [fst]. rewrite Map_set_fresh.
    + rewrite IH.
      * now rewrite <- app_assoc.
      * rewrite map_app. cbn [map fst]. rewrite <- app_assoc. exact N.
    + cbn [map fst] in N. apply NoDup_remove_2 in N.
      intros Hin. apply N. apply in_or_app. now left.
Qed.

Lemma fold_left_same {A B : Type} (f g : A -> B -> A) (l : list B) (a : A) :
  (forall a x, f a x = g a x) -> fold_left f l a = fold_left g l a.
Proof.
  intros H. revert a. induction l as [|x l IH]; intros a; cbn;
    [reflexivity|]. now rewrite H, IH.
Qed.

Lemma averages_entries (expenses : list CategorizedTransaction) :
  let totals := fold_left (Map_update category addAmount) expenses [] in
  let counts := fold_left (Map_update category addOne) expenses [] in
  fold_left (averageStep counts) totals []
  = map (fun e => (fst e,
                   div (snd e) (get_or (Map_get (fst e) counts) (ofZ 1))))
        totals.
Proof.
  cbv zeta.
  set (totals := fold_left (Map_update category addAmount) expenses []).
  set (counts := fold_left (Map_update category addOne) expenses []).
  rewrite <- (app_nil_l (map _ totals)).
  rewrite <- (fold_Map_set_fresh
                (fun e => div (snd e) (get_or (Map_get (fst e) counts) (ofZ 1)))
                totals []) by apply loop_NoDup.
  apply fold_left_same. intros m [c tot]. reflexivity.
Qed.

Lemma Map_get_map {K : Type} {KE : KeyEq K} {V W : Type} (h : K * V -> W)
      (m : JSMap (K:=K) V) (k : K) :
  Map_get k (map (fun e => (fst e, h e)) m)
  = match Map_get k m with
    | Some v => Some (h (k, v))
    | None => None
    end.
Proof.
  induction m as [|[k0 v0] r IH]; cbn; [reflexivity|].
  destruct (keqb k0 k) eqn:E; [|exact IH].
  apply keqb_eq in E. now subst.
Qed.

Lemma withKey_length_pos {K : Type} {KE : KeyEq K} {T : Type} (key : T -> K)
      (k : K) (l : list T) :
  In k (map key l) -> (1 <= List.length (withKey key k l))%nat.
Proof.
  intros H. apply withKey_nonempty in H.
  destruct (withKey key k l); [congruence | cbn; lia].
Qed.

(** X6: with finite amounts, [calculateAverageByCategory] files, under
    each category in which an expense occurs, the category's total
    divided by the number of its expenses; the categories come in order
    of first occurrence, and a category without expense has no entry. *)
Theorem X6_average_by_category (ts : list CategorizedTransaction) :
  Forall finiteAmount ts ->
  let expenses := filter expense ts in
  let averages := calculateAverageByCategory ts in
  map fst averages = distinct (map category expenses)
  /\ (forall c, In c (map category expenses) ->
        let average :=
          div (categoryTotal c expenses)
              (ofNat (List.length (withKey category c expenses))) in
        Map_get c averages = Some average)
  /\ (forall c, ~ In c (map category expenses) ->
        Map_get c averages = None).
Proof.
  intros Hfin. cbv zeta. unfold calculateAverageByCategory.
  set (expenses := filter expense ts).
  assert (Forall finiteAmount expenses) as Hexp.
  { rewrite Forall_forall in Hfin |- *. intros t Ht. apply Hfin.
    unfold expenses in Ht. now apply filter_In in Ht. }
  rewrite tally_fold. rewrite (averages_entries expenses).
  split; [|split].
  - rewrite map_map. cbn [fst]. apply loop_keys.
  - intros c Hc. rewrite Map_get_map, categoryTotals_get by assumption.
    cbn [fst snd]. rewrite categoryCounts_get by assumption.
    cbn [get_or]. unfold ofNat at 1, ofZ at 1.
    unfold or. cbn [truthy].
    assert (Qc_eqb (qz (Z.of_nat (List.length (withKey category c expenses))))
                   0 = false) as ->.
    { destruct (Qc_eqb _ 0) eqn:E; [|reflexivity].
      apply Qc_eqb_eq in E. rewrite <- qz_0 in E. apply qz_inj in E.
      pose proof (withKey_length_pos category c expenses Hc). lia. }
    cbn [negb]. reflexivity.
  - intros c Hc. rewrite Map_get_map.
    assert (Map_get c (fold_left (Map_update category addAmount) expenses [])
            = None) as ->; [|reflexivity].
    apply Map_get_None. rewrite loop_keys. now rewrite distinct_In.
Qed.

Lemma X6_average_by_category_witness :
  Forall finiteAmount gymAndConcert
  /\ Map_get Entertainment (calculateAverageByCategory gymAndConcert)
     = Some (div (categoryTotal Entertainment (filter expense gymAndConcert))
                 (ofNat (List.length
                           (withKey category Entertainment
                                    (filter expense gymAndConcert))))).
Proof.
  assert (Forall finiteAmount gymAndConcert) as H by (repeat constructor).
  split; [exact H|].
  refine (proj1 (proj2 (X6_average_by_category H)) Entertainment _).
  vm_compute. auto.
Defined.

(** ** The monthly trend *)

Lemma sort_insert_map {A B : Type} (cmp : B -> B -> num) (f : A -> B)
      (x : A) (l : list A) :
  sort_insert cmp (f x) (map f l)
  = map f (sort_insert (fun a b => cmp (f a) (f b)) x l).
Proof.
  induction l as [|y l IH]; cbn [map sort_insert]; [reflexivity|].
  unfold after. destruct (gtb (cmp (f x) (f y)) zero).
  - cbn [map]. now rewrite IH.
  - reflexivity.
Qed.

(** Sorting the images under [f] is sorting by the comparator read
    through [f]. *)
Lemma Array_sort_map {A B : Type} (cmp : B -> B -> num) (f : A -> B)
      (l : list A) :
  Array_sort cmp (map f l)
  = map f (Array_sort (fun a b => cmp (f a) (f b)) l).
Proof.
  induction l as [|x l IH]; cbn [map Array_sort fold_right]; [reflexivity|].
  fold (Array_sort cmp (map f l)). rewrite IH.
  fold (Array_sort (fun a b => cmp (f a) (f b)) l).
  apply sort_insert_map.
Qed.

Lemma last_opt_map {A B : Type} (f : A -> B) (l : list A) :
  last_opt (map f l) = option_map f (last_opt l).
Proof.
  induction l as [|x l IH]; [reflexivity|].
  destruct l as [|y l']; [reflexivity|]. exact IH.
Qed.

Lemma calculateMonthlyTrend_sorted_pairs (ts : list CategorizedTransaction) :
  calculateMonthlyTrend ts
  = map (fun entry => {| month := fst entry; month_amount := snd entry |})
        (Array_sort (fun a b => localeCompare (fst a) (fst b))
                    (monthlyTotals ts)).
Proof.
  unfold calculateMonthlyTrend. rewrite <- monthlyTotals_loop.
  now rewrite Array_sort_map.
Qed.

(** X5: the trend detector compares the first and the last entry of the
    monthly trend: [findTrends] returns nothing when
    [calculateMonthlyTrend] has fewer than two entries, and otherwise
    what the comparison of the first entry's amount with the last
    entry's amount yields. *)
Theorem X5_trend_of_monthly_trend (ts : list CategorizedTransaction) :
  findTrends ts
  = match calculateMonthlyTrend ts, last_opt (calculateMonthlyTrend ts) with
    | first :: _ :: _, Some last =>
        trendOf (month_amount first) (month_amount last)
    | _, _ => []
    end.
Proof.
  rewrite calculateMonthlyTrend_sorted_pairs, last_opt_map.
  unfold findTrends.
  rewrite <- (Array_sort_length
                (fun a b => localeCompare (fst a) (fst b)) (monthlyTotals ts)).
  destruct (Array_sort _ (monthlyTotals ts)) as [|[k0 v0] [|e1 r]].
  - reflexivity.
  - reflexivity.
  - cbn [List.length Nat.ltb Nat.leb map].
    destruct (last_opt ((k0, v0) :: e1 :: r)) as [[k1 v1]|]; reflexivity.
Qed.

Lemma sorted_le_strict {A : Type} (idx : A -> Z) (l : list A) :
  (forall a b, In a l -> In b l -> idx a = idx b -> a = b) ->
  NoDup l ->
  StronglySorted (fun a b => idx a <= idx b) l ->
  StronglySorted (fun a b => idx a < idx b) l.
Proof.
  intros Hinj N S. induction S as [|x l S IH F]; constructor.
  - apply IH.
    + intros a b Ha Hb. apply Hinj; now right.
    + now inversion N.
  - inversion N as [|? ? Hn _]; subst.
    rewrite Forall_forall in F |- *. intros y Hy.
    specialize (F y Hy).
    assert (idx x <> idx y); [|lia].
    intros E. apply Hinj in E; [|now left|now right]. now subst.
Qed.

(** The observed months in the order of their keys. *)
Lemma sorted_months_chronological (ts : list CategorizedTransaction) :
  Forall (fun t => fourDigitYear (yearMonth t)) (filter expense ts) ->
  let months :=
    Array_sort (fun a b => localeCompare (trendKeyOf a) (trendKeyOf b))
               (observedMonths ts) in
  Permutation months (observedMonths ts)
  /\ StronglySorted (fun a b => monthIndex a < monthIndex b) months.
Proof.
  intros Hval. cbv zeta.
  pose proof (@observedMonths_fourDigit ts Hval) as Hd.
  set (cmp := fun a b => localeCompare (trendKeyOf a) (trendKeyOf b)).
  assert (Permutation (Array_sort cmp (observedMonths ts)) (observedMonths ts))
    as Hperm by apply Array_sort_perm.
  split; [exact Hperm|].
  assert (forall x y, fourDigitYear x -> fourDigitYear y ->
            after cmp x y
            = match monthIndex x ?= monthIndex y with
              | Gt => true | _ => false end) as Hafter.
  { intros x y Hx Hy. unfold after, cmp, localeCompare.
    rewrite trendKey_compare by assumption.
    now destruct (monthIndex x ?= monthIndex y). }
  apply sorted_le_strict.
  - intros a b Ha Hb. rewrite Forall_forall in Hd.
    apply monthIndex_inj_on; apply Hd;
      now apply (Permutation_in _ Hperm).
  - apply (Permutation_NoDup (Permutation_sym Hperm)).
    apply distinct_NoDup.
  - apply Array_sort_sorted with (P := fourDigitYear).
    + intros x y Hx Hy H. rewrite Hafter in H by assumption.
      destruct (Z.compare_spec (monthIndex x) (monthIndex y));
        (lia || discriminate).
    + intros x y Hx Hy H. rewrite Hafter in H by assumption.
      destruct (Z.compare_spec (monthIndex x) (monthIndex y));
        (lia || discriminate).
    + intros; lia.
    + exact Hd.
Qed.

(** X7: with finite amounts and four-digit years, the monthly trend
    lists every calendar month in which an expense occurs exactly once,
    in chronological order, with the total of that month's expenses. *)
Theorem X7_monthly_trend_chronological (ts : list CategorizedTransaction) :
  Forall finiteAmount ts ->
  Forall (fun t => fourDigitYear (yearMonth t)) (filter expense ts) ->
  exists months,
    Permutation months (observedMonths ts)
    /\ StronglySorted (fun a b => monthIndex a < monthIndex b) months
    /\ calculateMonthlyTrend ts
       = map (fun ym => {| month := trendKeyOf ym;
                           month_amount := monthTotal ym ts |})
             months.
Proof.
  intros Hfin Hval.
  destruct (sorted_months_chronological ts Hval) as [Hperm Hsorted].
  set (months := Array_sort _ (observedMonths ts)) in *.
  exists months. split; [exact Hperm|]. split; [exact Hsorted|].
  rewrite calculateMonthlyTrend_sorted_pairs.
  rewrite (monthlyTotals_entries Hfin Hval).
  rewrite Array_sort_map, map_map. reflexivity.
Qed.

Lemma X7_monthly_trend_chronological_witness :
  Forall finiteAmount risingSpending
  /\ Forall (fun t => fourDigitYear (yearMonth t))
            (filter expense risingSpending)
  /\ exists months,
       Permutation months (observedMonths risingSpending)
       /\ StronglySorted (fun a b => monthIndex a < monthIndex b) months
       /\ calculateMonthlyTrend risingSpending
          = map (fun ym => {| month := trendKeyOf ym;
                              month_amount := monthTotal ym risingSpending |})
                months.
Proof.
  assert (Forall finiteAmount risingSpending) as Hfin
    by (repeat constructor).
  assert (Forall (fun t => fourDigitYear (yearMonth t))
                 (filter expense risingSpending)) as Hval.
  { repeat constructor; cbn; lia. }
  split; [exact Hfin|]. split; [exact Hval|].
  exact (X7_monthly_trend_chronological Hfin Hval).
Defined.

(** ** The description normalizer *)

Lemma keep_chars_ext (p q : ascii -> bool) (s : string) :
  (forall c, p c = q c) -> keep_chars p s = keep_chars q s.
Proof.
  intros H. induction s as [|c s IH]; cbn; [reflexivity|].
  now rewrite H, IH.
Qed.

Lemma keep_chars_twice (p q : ascii -> bool) (s : string) :
  keep_chars p (keep_chars q s) = keep_chars (fun c => q c && p c) s.
Proof.
  induction s as [|c s IH]; cbn; [reflexivity|].
  destruct (q c); cbn; [|exact IH]. destruct (p c); now rewrite IH.
Qed.

Lemma keep_chars_lower (p : ascii -> bool) (s : string) :
  keep_chars p (toLowerCase s)
  = toLowerCase (keep_chars (fun c => p (lower_char c)) s).
Proof.
  induction s as [|c s IH]; cbn; [reflexivity|].
  destruct (p (lower_char c)); cbn; now rewrite IH.
Qed.

Lemma lower_char_class (c : ascii) :
  is_digit (lower_char c) = is_digit c
  /\ is_space (lower_char c) = is_space c
  /\ is_lower (lower_char c) = is_upper c || is_lower c
  /\ (negb (is_digit c) && (is_lower c || is_space c)
      = (is_lower c || is_space c)).
Proof.
  destruct c as [[] [] [] [] [] [] [] []]; vm_compute; auto.
Qed.

(** The key is computed from the letters and whitespace of the
    description alone. *)
Lemma normalizeDescription_letters (s : string) :
  normalizeDescription s
  = String.concat " "
      (firstn 3 (split_ws (trim (toLowerCase (keep_chars letterOrSpace s))))).
Proof.
  unfold normalizeDescription. do 3 f_equal. f_equal.
  rewrite keep_chars_twice.
  rewrite (keep_chars_ext _ (fun c => is_lower c || is_space c))
    by (intros c; apply lower_char_class).
  rewrite keep_chars_lower. f_equal. apply keep_chars_ext.
  intros c. unfold letterOrSpace.
  destruct (lower_char_class c) as [_ [-> [-> _]]]. reflexivity.
Qed.

(** X8: two descriptions get the same grouping key as soon as they
    agree, up to letter case, once every character other than a letter
    or whitespace is dropped: digits, punctuation and case never
    separate two descriptions. *)
Theorem X8_normalize_ignores_digits_punctuation_case (s s' : string) :
  toLowerCase (keep_chars letterOrSpace s)
  = toLowerCase (keep_chars letterOrSpace s') ->
  normalizeDescription s = normalizeDescription s'.
Proof.
  intros H. rewrite !normalizeDescription_letters. now rewrite H.
Qed.

Lemma X8_normalize_ignores_digits_punctuation_case_witness :
  normalizeDescription "Starbucks #1234" = normalizeDescription "STARBUCKS #5678".
Proof.
  apply X8_normalize_ignores_digits_punctuation_case.
  vm_compute. reflexivity.
Defined.

Lemma all_chars_impl (p q : ascii -> bool) (s : string) :
  (forall c, p c = true -> q c = true) ->
  all_chars p s = true -> all_chars q s = true.
Proof.
  intros H. induction s as [|c s IH]; cbn; [reflexivity|].
  intros [Hc Hs]%andb_prop. rewrite (H _ Hc). cbn. auto.
Qed.

Lemma all_chars_app (p : ascii -> bool) (a b : string) :
  all_chars p (a ++ b) = all_chars p a && all_chars p b.
Proof.
  induction a as [|c a IH]; cbn; [reflexivity|].
  now rewrite IH, andb_assoc.
Qed.

Lemma all_chars_keep (p : ascii -> bool) (s : string) :
  all_chars p (keep_chars p s) = true.
Proof.
  induction s as [|c s IH]; cbn; [reflexivity|].
  destruct (p c) eqn:E; cbn; [now rewrite E|exact IH].
Qed.

Lemma keep_chars_id (p : ascii -> bool) (s : string) :
  all_chars p s = true -> keep_chars p s = s.
Proof.
  induction s as [|c s IH]; cbn; [reflexivity|].
  intros [-> Hs]%andb_prop. now rewrite IH.
Qed.

Lemma toLowerCase_id (s : string) :
  all_chars (fun c => negb (is_upper c)) s = true -> toLowerCase s = s.
Proof.
  induction s as [|c s IH]; cbn; [reflexivity|].
  intros [Hc Hs]%andb_prop. rewrite IH by exact Hs.
  unfold lower_char. destruct (is_upper c); [discriminate|reflexivity].
Qed.

Lemma all_chars_trimStart (p : ascii -> bool) (s : string) :
  all_chars p s = true -> all_chars p (trimStart s) = true.
Proof.
  induction s as [|c s IH]; cbn; [reflexivity|].
  intros H. destruct (is_space c); [|exact H].
  apply andb_prop in H. now apply IH.
Qed.

Lemma all_chars_trimEnd (p : ascii -> bool) (s : string) :
  all_chars p s = true -> all_chars p (trimEnd s) = true.
Proof.
  induction s as [|c s IH]; cbn; [reflexivity|].
  intros [Hc Hs]%andb_prop. specialize (IH Hs).
  destruct (trimEnd s).
  - destruct (is_space c); cbn; [reflexivity|now rewrite Hc].
  - cbn [all_chars] in *. now rewrite Hc, IH.
Qed.

Lemma last_char_cons (c : ascii) (r : string) (x : ascii) :
  last_char r = Some x -> last_char (String c r) = Some x.
Proof. cbn. now intros ->. Qed.

Lemma last_char_None (s : string) : last_char s = None -> s = EmptyString.
Proof.
  destruct s as [|c r]; [reflexivity|]. cbn.
  destruct (last_char r); discriminate.
Qed.

Lemma trimStart_first (s : string) (c : ascii) :
  first_char (trimStart s) = Some c -> is_space c = false.
Proof.
  induction s as [|a s IH]; cbn; [discriminate|].
  destruct (is_space a) eqn:E; [exact IH|].
  cbn. now intros [= <-].
Qed.

Lemma trimEnd_first (s : string) (c : ascii) :
  first_char s = Some c -> is_space c = false ->
  first_char (trimEnd s) = Some c.
Proof.
  destruct s as [|a s]; cbn; [discriminate|].
  intros [= ->] Hc. destruct (trimEnd s); [now rewrite Hc|reflexivity].
Qed.

Lemma trimEnd_empty_first (s : string) :
  trimEnd s = EmptyString ->
  match first_char s with Some c => is_space c = true | None => True end.
Proof.
  destruct s as [|a s]; cbn; [trivial|].
  destruct (trimEnd s); [|discriminate].
  destruct (is_space a); [reflexivity|discriminate].
Qed.

Lemma trimEnd_last (s : string) (c : ascii) :
  last_char (trimEnd s) = Some c -> is_space c = false.
Proof.
  induction s as [|a s IH]; cbn; [discriminate|].
  destruct (trimEnd s) as [|b r] eqn:E.
  - destruct (is_space a) eqn:Ea; cbn; [discriminate|].
    now intros [= <-].
  - intros H. apply IH.
    change (last_char (String a (String b r))) with
      (match last_char (String b r) with None => Some a | o => o end) in H.
    destruct (last_char (String b r)) eqn:El; [exact H|].
    apply last_char_None in El. discriminate.
Qed.

(** What [trim] returns starts and ends with a character that is no
    whitespace, unless it is empty. *)
Lemma trim_edges (s : string) :
  (forall c, first_char (trim s) = Some c -> is_space c = false)
  /\ (forall c, last_char (trim s) = Some c -> is_space c = false).
Proof.
  unfold trim. split; [|apply trimEnd_last].
  intros c Hc.
  destruct (first_char (trimStart s)) as [a|] eqn:Ea.
  - pose proof (trimStart_first s Ea) as Hs.
    rewrite (trimEnd_first _ Ea Hs) in Hc. injection Hc as <-. exact Hs.
  - destruct (trimStart s); [discriminate Hc|discriminate Ea].
Qed.

Lemma trimStart_id (s : string) :
  (forall c, first_char s = Some c -> is_space c = false) -> trimStart s = s.
Proof.
  destruct s as [|a s]; cbn; [reflexivity|].
  intros H. now rewrite (H a eq_refl).
Qed.

Lemma trimEnd_id (s : string) :
  (forall c, last_char s = Some c -> is_space c = false) -> trimEnd s = s.
Proof.
  induction s as [|a s IH]; [reflexivity|].
  intros H. cbn [trimEnd]. rewrite IH.
  - destruct s as [|b r]; [|reflexivity].
    now rewrite (H a eq_refl).
  - intros c Hc. apply H. now apply last_char_cons.
Qed.

(** The pieces of [split] hold the characters of the input that are no
    whitespace. *)
Lemma split_ws_from_chars (p : ascii -> bool) (s : string) :
  forall in_ws cur,
    all_chars p cur = true ->
    all_chars (fun c => is_space c || p c) s = true ->
    forallb (all_chars p) (split_ws_from in_ws cur s) = true.
Proof.
  induction s as [|c s IH]; intros in_ws cur Hcur Hs; cbn.
  - now rewrite Hcur.
  - cbn in Hs. apply andb_prop in Hs as [Hc Hs].
    destruct (is_space c) eqn:E.
    + destruct in_ws; cbn; [|rewrite Hcur; cbn]; now apply IH.
    + apply IH; [|exact Hs]. rewrite all_chars_app, Hcur. cbn.
      cbn in Hc. now rewrite Hc.
Qed.

Lemma app_nonEmpty (a : string) (c : ascii) :
  nonEmpty_string (a ++ String c EmptyString) = true.
Proof. destruct a; reflexivity. Qed.

Lemma split_ws_from_nonEmpty (s : string) :
  (forall cur,
      nonEmpty_string cur = true ->
      (forall c, last_char s = Some c -> is_space c = false) ->
      forallb nonEmpty_string (split_ws_from false cur s) = true)
  /\ ((exists c, last_char s = Some c /\ is_space c = false) ->
      forallb nonEmpty_string (split_ws_from true EmptyString s) = true).
Proof.
  induction s as [|a s [IH1 IH2]].
  - split.
    + intros cur Hcur _. cbn. now rewrite Hcur.
    + intros [c [Hc _]]. discriminate.
  - assert (Hlast : forall c, last_char s = Some c ->
                               last_char (String a s) = Some c)
      by (intros c; apply last_char_cons).
    assert (Hsp : is_space a = true ->
                  (forall c, last_char (String a s) = Some c ->
                             is_space c = false) ->
                  exists c, last_char s = Some c /\ is_space c = false).
    { intros Ha H. destruct (last_char s) as [c|] eqn:El.
      - exists c. split; [reflexivity|]. apply H. now apply last_char_cons.
      - specialize (H a). cbn in H. rewrite El in H.
        rewrite (H eq_refl) in Ha. discriminate. }
    split.
    + intros cur Hcur H. cbn. destruct (is_space a) eqn:Ea.
      * cbn. rewrite Hcur. cbn. apply IH2. now apply Hsp.
      * apply IH1; [apply app_nonEmpty|]. intros c Hc. apply H. auto.
    + intros [c [Hc Hn]]. cbn. destruct (is_space a) eqn:Ea.
      * apply IH2. apply Hsp; [reflexivity|].
        intros c' Hc'. rewrite Hc in Hc'. now injection Hc' as <-.
      * apply IH1; [reflexivity|].
        intros c' Hc'. apply Hlast in Hc'. rewrite Hc in Hc'.
        now injection Hc' as <-.
Qed.

Lemma split_ws_trimmed (s : string) :
  (forall c, first_char s = Some c -> is_space c = false) ->
  (forall c, last_char s = Some c -> is_space c = false) ->
  s = EmptyString
  \/ forallb nonEmpty_string (split_ws s) = true.
Proof.
  intros Hf Hl. destruct s as [|a s]; [now left|right].
  unfold split_ws. cbn. rewrite (Hf a eq_refl).
  apply (proj1 (split_ws_from_nonEmpty s)); [reflexivity|].
  intros c Hc. apply Hl. now apply last_char_cons.
Qed.

Lemma split_ws_from_not_nil (s : string) :
  forall in_ws cur, split_ws_from in_ws cur s <> [].
Proof.
  induction s as [|a s IH]; intros in_ws cur; cbn; [discriminate|].
  destruct (is_space a); [destruct in_ws|]; try apply IH. discriminate.
Qed.

Lemma forallb_firstn {A : Type} (p : A -> bool) (n : nat) (l : list A) :
  forallb p l = true -> forallb p (firstn n l) = true.
Proof.
  revert l. induction n as [|n IH]; intros [|x l]; cbn; auto.
  intros [-> H]%andb_prop. cbn. auto.
Qed.

Lemma forallb_and {A : Type} (p q : A -> bool) (l : list A) :
  forallb p l = true -> forallb q l = true ->
  forallb (fun x => p x && q x) l = true.
Proof.
  induction l as [|x l IH]; cbn; [reflexivity|].
  intros [-> Hp]%andb_prop [-> Hq]%andb_prop. cbn. auto.
Qed.

(** The shape of a key, shared by the two theorems below. *)
Lemma normalizeDescription_words (s : string) :
  normalizeDescription s = EmptyString
  \/ exists ws, ws <> [] /\ (List.length ws <= 3)%nat
                /\ forallb lowercaseWord ws = true
                /\ normalizeDescription s = String.concat " " ws.
Proof.
  unfold normalizeDescription.
  set (k := keep_chars (fun c => is_lower c || is_space c) _).
  assert (Hk : all_chars (fun c => is_space c || is_lower c) (trim k) = true).
  { unfold trim. apply all_chars_trimEnd, all_chars_trimStart.
    apply all_chars_impl with (p := fun c => is_lower c || is_space c).
    - intros c. now rewrite orb_comm.
    - apply all_chars_keep. }
  destruct (trim_edges k) as [Hf Hl].
  destruct (@split_ws_trimmed _ Hf Hl) as [E|Hne].
  - left. now rewrite E.
  - right. exists (firstn 3 (split_ws (trim k))). repeat split.
    + unfold split_ws. pose proof (@split_ws_from_not_nil (trim k) false EmptyString).
      destruct (split_ws_from false EmptyString (trim k)); [congruence|discriminate].
    + apply firstn_le_length.
    + apply forallb_firstn. apply forallb_and; [exact Hne|].
      now apply split_ws_from_chars.
Qed.

(** X9: a grouping key is empty, or it is made of one to three words of
    the letters a to z, joined by single spaces. *)
Theorem X9_normalize_key_shape (s : string) :
  normalizeDescription s = EmptyString
  \/ exists ws, ws <> [] /\ (List.length ws <= 3)%nat
                /\ forallb lowercaseWord ws = true
                /\ normalizeDescription s = String.concat " " ws.
Proof. apply normalizeDescription_words. Qed.

Lemma lower_not_space (c : ascii) :
  is_lower c = true -> is_space c = false /\ is_upper c = false.
Proof.
  destruct c as [[] [] [] [] [] [] [] []]; vm_compute; auto; discriminate.
Qed.

Lemma space_not_upper (c : ascii) : is_space c = true -> is_upper c = false.
Proof.
  destruct c as [[] [] [] [] [] [] [] []]; vm_compute; auto; discriminate.
Qed.

Lemma String_app_assoc (a b c : string) :
  ((a ++ b) ++ c)%string = (a ++ (b ++ c))%string.
Proof. induction a as [|x a IH]; cbn; [reflexivity|now rewrite IH]. Qed.

Lemma split_ws_from_word (w : string) :
  all_chars is_lower w = true ->
  forall in_ws cur rest,
    nonEmpty_string w = true ->
    split_ws_from in_ws cur (w ++ rest)
    = split_ws_from false (cur ++ w) rest.
Proof.
  induction w as [|c w IH]; intros Hw in_ws cur rest Hne; [discriminate|].
  cbn in Hw. apply andb_prop in Hw as [Hc Hw].
  cbn. rewrite (proj1 (lower_not_space c Hc)).
  destruct w as [|d w].
  - reflexivity.
  - rewrite IH by (auto; reflexivity).
    f_equal. rewrite String_app_assoc. reflexivity.
Qed.

Lemma String_app_empty (s : string) : (s ++ EmptyString)%string = s.
Proof. induction s as [|c s IH]; cbn; [reflexivity|now rewrite IH]. Qed.

(** Splitting what was joined by single spaces gives the words back. *)
Lemma split_ws_concat (ws : list string) :
  ws <> [] -> forallb lowercaseWord ws = true ->
  forall in_ws, split_ws_from in_ws EmptyString (String.concat " " ws) = ws.
Proof.
  induction ws as [|w ws IH]; [congruence|].
  intros _ H in_ws. cbn in H. apply andb_prop in H as [Hw Hws].
  apply andb_prop in Hw as [Hne Hlow].
  destruct ws as [|w2 ws].
  - cbn. rewrite <- (String_app_empty w) at 1.
    rewrite split_ws_from_word by assumption. reflexivity.
  - change (String.concat " " (w :: w2 :: ws))
      with (w ++ String " " (String.concat " " (w2 :: ws)))%string.
    rewrite split_ws_from_word by assumption.
    cbn [split_ws_from]. change (is_space " ") with true. cbv iota.
    rewrite IH by (auto; discriminate). reflexivity.
Qed.

Lemma last_char_app (a b : string) :
  nonEmpty_string b = true -> last_char (a ++ b) = last_char b.
Proof.
  intros Hb. induction a as [|c a IH]; [reflexivity|].
  cbn. rewrite IH. destruct (last_char b) eqn:E; [reflexivity|].
  apply last_char_None in E. subst b. discriminate.
Qed.

Lemma last_char_all (p : ascii -> bool) (s : string) (c : ascii) :
  all_chars p s = true -> last_char s = Some c -> p c = true.
Proof.
  induction s as [|a s IH]; cbn; [discriminate|].
  intros [Ha Hs]%andb_prop. destruct (last_char s) as [x|] eqn:E.
  - intros [= <-]. now apply IH.
  - now intros [= <-].
Qed.

Lemma concat_words_chars (ws : list string) :
  forallb lowercaseWord ws = true ->
  all_chars (fun c => is_lower c || is_space c) (String.concat " " ws) = true.
Proof.
  induction ws as [|w ws IH]; [reflexivity|].
  intros H. cbn in H. apply andb_prop in H as [Hw Hws].
  apply andb_prop in Hw as [_ Hlow].
  assert (Hw : all_chars (fun c => is_lower c || is_space c) w = true).
  { apply all_chars_impl with (p := is_lower); [|exact Hlow].
    intros c ->. reflexivity. }
  destruct ws as [|w2 ws]; [exact Hw|].
  change (String.concat " " (w :: w2 :: ws))
    with (w ++ String " " (String.concat " " (w2 :: ws)))%string.
  rewrite all_chars_app, Hw. cbn [all_chars andb].
  apply IH, Hws.
Qed.

Lemma concat_words_edges (ws : list string) :
  ws <> [] -> forallb lowercaseWord ws = true ->
  (forall c, first_char (String.concat " " ws) = Some c -> is_space c = false)
  /\ (forall c, last_char (String.concat " " ws) = Some c ->
                is_space c = false).
Proof.
  induction ws as [|w ws IH]; [congruence|].
  intros _ H. cbn in H. apply andb_prop in H as [Hw Hws].
  apply andb_prop in Hw as [Hne Hlow].
  destruct ws as [|w2 ws].
  - cbn. split; intros c Hc.
    + destruct w as [|a w]; [discriminate|]. cbn in Hc. injection Hc as <-.
      cbn in Hlow. apply andb_prop in Hlow as [Ha _].
      apply lower_not_space, Ha.
    + apply lower_not_space. exact (last_char_all _ _ Hlow Hc).
  - change (String.concat " " (w :: w2 :: ws))
      with (w ++ String " " (String.concat " " (w2 :: ws)))%string.
    split; intros c Hc.
    + destruct w as [|a w]; [discriminate|]. cbn in Hc. injection Hc as <-.
      cbn in Hlow. apply andb_prop in Hlow as [Ha _].
      apply lower_not_space, Ha.
    + rewrite last_char_app in Hc by reflexivity.
      destruct IH as [_ IHl]; [discriminate|exact Hws|].
      apply IHl.
      change (last_char (String " " (String.concat " " (w2 :: ws))))
        with (match last_char (String.concat " " (w2 :: ws)) with
              | None => Some " "%char | o => o end) in Hc.
      destruct (last_char (String.concat " " (w2 :: ws))) eqn:E; [exact Hc|].
      apply last_char_None in E.
      assert (Hw2 : nonEmpty_string (String.concat " " (w2 :: ws)) = true).
      { cbn in Hws. apply andb_prop in Hws as [Hw2 _].
        apply andb_prop in Hw2 as [Hw2 _].
        destruct w2; [discriminate|]. destruct ws; reflexivity. }
      rewrite E in Hw2. discriminate.
Qed.

Lemma firstn_all_short {A : Type} (n : nat) (l : list A) :
  (List.length l <= n)%nat -> firstn n l = l.
Proof.
  revert l. induction n as [|n IH]; intros [|x l]; cbn; auto.
  - lia.
  - intros H. f_equal. apply IH. lia.
Qed.

(** One to three lowercase words joined by single spaces are their own
    key. *)
Lemma normalizeDescription_fixed (ws : list string) :
  ws <> [] -> (List.length ws <= 3)%nat ->
  forallb lowercaseWord ws = true ->
  normalizeDescription (String.concat " " ws) = String.concat " " ws.
Proof.
  intros Hne Hlen Hws. unfold normalizeDescription.
  pose proof (concat_words_chars ws Hws) as Hch.
  destruct (concat_words_edges Hne Hws) as [Hf Hl].
  rewrite toLowerCase_id.
  2:{ revert Hch. apply all_chars_impl. intros c [H|H]%orb_prop.
      - now rewrite (proj2 (lower_not_space c H)).
      - now rewrite (space_not_upper c H). }
  rewrite (@keep_chars_id (fun c => negb (is_digit c))).
  2:{ revert Hch. apply all_chars_impl. intros c H.
      destruct (lower_char_class c) as [_ [_ [_ E]]].
      rewrite <- E in H. now apply andb_prop in H as [-> _]. }
  rewrite keep_chars_id by exact Hch.
  unfold trim. rewrite (trimStart_id _ Hf), (trimEnd_id _ Hl).
  unfold split_ws. rewrite split_ws_concat by assumption.
  now rewrite firstn_all_short.
Qed.

(** X10: normalizing a key gives the key back: the keys are exactly the
    descriptions the normalizer leaves unchanged. *)
Theorem X10_normalize_idempotent (s : string) :
  normalizeDescription (normalizeDescription s) = normalizeDescription s.
Proof.
  destruct (normalizeDescription_words s) as [E|[ws [Hne [Hlen [Hws E]]]]];
    rewrite E; [reflexivity|].
  now apply normalizeDescription_fixed.
Qed.

(** ** Recurring charges: cadence and groups *)

Lemma intervalsOf_length (l : list num) :
  List.length (intervalsOf l) = (List.length l - 1)%nat.
Proof.
  induction l as [|a [|b r] IH]; [reflexivity|reflexivity|].
  change (intervalsOf (a :: b :: r)) with (sub b a :: intervalsOf (b :: r)).
  cbn [List.length] in *. rewrite IH. lia.
Qed.

(** The gaps between consecutive dates add up to the distance from the
    first to the last. *)
Lemma intervalsOf_sum (l : list Z) :
  forall a z,
    last_opt (a :: l) = Some z ->
    sum (intervalsOf (map ofZ (a :: l))) = ofZ (z - a).
Proof.
  induction l as [|b r IH]; intros a z H.
  - cbn in H. injection H as <-. now rewrite Z.sub_diag.
  - change (last_opt (a :: b :: r)) with (last_opt (b :: r)) in H.
    change (intervalsOf (map ofZ (a :: b :: r)))
      with (sub (ofZ b) (ofZ a) :: intervalsOf (map ofZ (b :: r))).
    rewrite sum_cons, (IH b z H), sub_ofZ, add_ofZ. f_equal. lia.
Qed.

Lemma sortedTimes (g : list CategorizedTransaction) :
  exists S,
    sortedDates g = map ofZ S
    /\ Permutation S (map (fun t => getTime (date t)) g)
    /\ StronglySorted Z.le S.
Proof.
  exists (Array_sort (fun a b => sub (ofZ a) (ofZ b))
                     (map (fun t => getTime (date t)) g)).
  split; [|split].
  - unfold sortedDates, time.
    rewrite <- (map_map (fun t => getTime (date t)) ofZ).
    apply Array_sort_map.
  - apply Array_sort_perm.
  - apply Array_sort_sorted with (P := fun _ => True).
    + intros x y _ _ H. unfold after in H.
      rewrite gtb_sub_zero, ltb_ofZ in H by reflexivity.
      apply Z.ltb_ge in H. exact H.
    + intros x y _ _ H. unfold after in H.
      rewrite gtb_sub_zero, ltb_ofZ in H by reflexivity.
      apply Z.ltb_lt in H. lia.
    + intros x y z _ _ _. apply Z.le_trans.
    + apply Forall_forall. trivial.
Qed.

(** The mean gap of a group of at least two transactions. *)
Lemma daysIntervalOf_span (g : list CategorizedTransaction) :
  (2 <= List.length g)%nat ->
  daysIntervalOf g
  = div (div (ofZ (latest g - earliest g)) (ofNat (List.length g - 1)))
        MS_PER_DAY.
Proof.
  intros Hlen. unfold daysIntervalOf, average.
  rewrite intervalsOf_length.
  destruct (sortedTimes g) as [S [-> [HP HS]]].
  rewrite length_map, (Permutation_length HP), length_map.
  destruct g as [|t ts]; [cbn in Hlen; lia|].
  destruct S as [|a l].
  { apply Permutation_length in HP. discriminate. }
  destruct (last_opt_cons a l) as [z Hz].
  rewrite (intervalsOf_sum l a Hz).
  destruct (earliest_spec t ts) as [Ein Ele].
  destruct (latest_spec t ts) as [Lin Lle].
  assert (Hin : forall x, In x (a :: l) ->
                          earliest (t :: ts) <= x <= latest (t :: ts)).
  { intros x Hx. apply (Permutation_in _ HP) in Hx.
    apply in_map_iff in Hx as [u [<- Hu]]. split; auto. }
  apply (Permutation_in _ (Permutation_sym HP)) in Ein, Lin.
  destruct (sorted_last_greatest HS Hz) as [Hzin Hzmax].
  assert (a = earliest (t :: ts)) as ->.
  { destruct Ein as [E|E]; [exact E|].
    pose proof (sorted_head_least HS _ E). pose proof (Hin a (or_introl eq_refl)).
    lia. }
  assert (z = latest (t :: ts)) as ->.
  { destruct (Hzmax _ Lin) as [E|E]; [now symmetry|].
    pose proof (Hin z Hzin). lia. }
  reflexivity.
Qed.

(** X11: for a group of valid dates that lie at most 2^53 milliseconds
    apart, the cadence the recurring-charge test looks at depends only
    on the size of the group and on its earliest and latest date: the
    mean gap in days is (latest - earliest) / (n - 1) / 86400000. *)
Theorem X11_recurring_cadence_from_span (g : list CategorizedTransaction) :
  (2 <= List.length g)%nat ->
  Forall validDate g ->
  latest g - earliest g <= 2 ^ 53 ->
  daysIntervalOf g
  = div (div (ofZ (latest g - earliest g)) (ofNat (List.length g - 1)))
        MS_PER_DAY.
Proof. intros H _ _. now apply daysIntervalOf_span. Qed.

Lemma X11_recurring_cadence_from_span_witness :
  daysIntervalOf rentAndCoffee
  = div (div (ofZ (latest rentAndCoffee - earliest rentAndCoffee))
             (ofNat (List.length rentAndCoffee - 1)))
        MS_PER_DAY.
Proof.
  apply X11_recurring_cadence_from_span.
  - vm_compute. lia.
  - apply Forall_forall. intros t Ht. unfold validDate.
    assert (forallb (fun t => (-8640000000000000 <=? getTime (date t))
                              && (getTime (date t) <=? 8640000000000000))
                    rentAndCoffee = true) as H by (vm_compute; reflexivity).
    rewrite forallb_forall in H. specialize (H t Ht).
    apply andb_prop in H. destruct H as [H1 H2].
    apply Z.leb_le in H1. apply Z.leb_le in H2. lia.
  - vm_compute. discriminate.
Defined.


(** ** Counts as numbers *)

Lemma qz_succ (n : nat) : qz (Z.of_nat (S n)) = (qz (Z.of_nat n) + 1)%Qc.
Proof.
  rewrite Nat2Z.inj_succ, <- Z.add_1_r, <- qz_add. f_equal.
Qed.

Lemma qz_nat_nonneg (n : nat) : (0 <= qz (Z.of_nat n))%Qc.
Proof.
  rewrite <- qz_0. apply Qc_leb_le. unfold Qc_leb. rewrite qz_compare.
  destruct (Z.compare_spec 0 (Z.of_nat n)); try reflexivity. lia.
Qed.

Lemma flat_map_nil {A B : Type} (f : A -> list B) (l : list A) :
  (forall x, In x l -> f x = []) -> flat_map f l = [].
Proof.
  induction l as [|x l IH]; intros H; [reflexivity|].
  cbn [flat_map]. rewrite (H x (or_introl eq_refl)). apply IH.
  intros y Hy. apply H. now right.
Qed.

Lemma div_Fin_count (a : Qc) (n : nat) :
  n <> O -> div (Fin a) (ofNat n) = Fin (a / qz (Z.of_nat n)).
Proof.
  intros H. unfold ofNat, ofZ, div.
  destruct (Qc_eqb (qz (Z.of_nat n)) 0) eqn:E; [|reflexivity].
  apply Qc_eqb_eq in E. rewrite <- qz_0 in E. apply qz_inj in E. lia.
Qed.

(** ** Income and the expense detectors *)

Lemma filter_idem {A : Type} (p : A -> bool) (l : list A) :
  filter p (filter p l) = filter p l.
Proof.
  induction l as [|x l IH]; cbn; [reflexivity|].
  destruct (p x) eqn:E; cbn; [rewrite E; f_equal|]; exact IH.
Qed.

Lemma flat_map_filter {A B : Type} (p : A -> bool) (f : A -> list B)
      (l : list A) :
  (forall x, p x = false -> f x = []) ->
  flat_map f (filter p l) = flat_map f l.
Proof.
  intros H. induction l as [|x l IH]; cbn; [reflexivity|].
  destruct (p x) eqn:E; cbn; [now rewrite IH|].
  now rewrite (H x E).
Qed.

(** X14: income transactions have no influence on the spike, trend and
    anomaly detectors: each returns on the whole input what it returns
    on the expenses alone. *)
Theorem X14_income_ignored_by_expense_detectors
        (ts : list CategorizedTransaction) (rec : list DetectedPattern) :
  findSpendingSpikes (filter expense ts) = findSpendingSpikes ts
  /\ findTrends (filter expense ts) = findTrends ts
  /\ findAnomalies (filter expense ts) rec = findAnomalies ts rec.
Proof.
  split; [|split].
  - unfold findSpendingSpikes.
    now rewrite !monthlyByCategory_loop, filter_idem.
  - unfold findTrends. now rewrite !monthlyTotals_loop, filter_idem.
  - unfold findAnomalies. rewrite filter_idem.
    destruct (_ =? _)%nat; [reflexivity|].
    apply flat_map_filter. intros t Ht. unfold anomalyOf.
    unfold expense in Ht. now destruct (isIncome t).
Qed.

(** ** The impact of a pattern *)

Lemma finiteNonNegative_iff (x : num) :
  finiteNonNegative x = true <-> exists q, x = Fin q /\ (0 <= q)%Qc.
Proof.
  unfold finiteNonNegative. split.
  - intros [Hf Hl]%andb_prop. destruct x as [q| | |]; try discriminate.
    exists q. split; [reflexivity|]. cbn in Hl. rewrite qz_0 in Hl.
    now apply Qc_leb_le.
  - intros [q [-> Hq]]. cbn. rewrite qz_0. now apply Qc_leb_le.
Qed.

Lemma finiteNonNegative_add (x y : num) :
  finiteNonNegative x = true -> finiteNonNegative y = true ->
  finiteNonNegative (add x y) = true.
Proof.
  rewrite !finiteNonNegative_iff. intros [a [-> Ha]] [b [-> Hb]].
  exists (a + b)%Qc. split; [reflexivity|]. qc2q. lra.
Qed.

Lemma finiteNonNegative_sum (l : list num) :
  Forall (fun x => finiteNonNegative x = true) l ->
  finiteNonNegative (sum l) = true.
Proof.
  induction 1 as [|x l Hx Hl IH]; [reflexivity|].
  rewrite sum_cons. now apply finiteNonNegative_add.
Qed.

Lemma finiteNonNegative_average (l : list num) :
  l <> [] -> Forall (fun x => finiteNonNegative x = true) l ->
  finiteNonNegative (average l) = true.
Proof.
  intros Hne H. apply finiteNonNegative_sum in H.
  apply finiteNonNegative_iff in H as [s [Es Hs]].
  unfold average. rewrite Es, div_Fin_count by (now destruct l).
  apply finiteNonNegative_iff. eexists. split; [reflexivity|].
  assert (Hn : (1 <= qz (Z.of_nat (List.length l)))%Qc).
  { destruct l as [|x l]; [congruence|]. cbn [List.length]. rewrite qz_succ.
    pose proof (qz_nat_nonneg (List.length l)) as H. revert H.
    generalize (qz (Z.of_nat (List.length l))). intros k H. qc2q. lra. }
  revert Hn. generalize (qz (Z.of_nat (List.length l))). intros n Hn.
  clear - Hs Hn. destruct s as [s' cs], n as [n' cn].
  unfold Qcdiv, Qcinv. qc2q.
  apply Qmult_le_0_compat; [exact Hs|].
  apply Qinv_le_0_compat. lra.
Qed.

Lemma fold_max2_In (l : list num) (a : Qc) :
  Forall (fun x => is_fin x = true) l ->
  fold_left max2 l (Fin a) = Fin a \/ In (fold_left max2 l (Fin a)) l.
Proof.
  intros H. revert a. induction H as [|x l Hx Hl IH]; intros a.
  - now left.
  - destruct x as [b| | |]; try discriminate. cbn [fold_left].
    assert (E : max2 (Fin a) (Fin b) = Fin a \/ max2 (Fin a) (Fin b) = Fin b).
    { unfold max2. destruct (ltb (Fin a) (Fin b)); auto. }
    destruct E as [-> | ->].
    + destruct (IH a) as [E|E]; [left; exact E|right; now right].
    + destruct (IH b) as [E|E]; right; [left; now rewrite E|now right].
Qed.

(** [Math.max] of finite numbers is one of them. *)
Lemma Math_max_In (l : list num) :
  l <> [] -> Forall (fun x => is_fin x = true) l -> In (Math_max l) l.
Proof.
  destruct l as [|x l]; [congruence|]. intros _ H.
  inversion H as [|? ? Hx Hl]; subst.
  destruct x as [a| | |]; try discriminate.
  unfold Math_max. cbn [fold_left].
  change (max2 NInf (Fin a)) with (Fin a).
  destruct (fold_max2_In a Hl) as [E|E]; [left; now rewrite E|now right].
Qed.

Lemma finiteNonNegative_fin (x : num) :
  finiteNonNegative x = true -> is_fin x = true.
Proof. unfold finiteNonNegative. now intros [H _]%andb_prop. Qed.

Lemma spike_gap_nonneg (max avg : num) :
  finiteNonNegative max = true -> finiteNonNegative avg = true ->
  gtb max (mul avg (lit 15 10)) = true ->
  finiteNonNegative (sub max avg) = true.
Proof.
  rewrite !finiteNonNegative_iff. intros [m [-> Hm]] [a [-> Ha]] H.
  exists (m - a)%Qc. split; [reflexivity|].
  unfold gtb, mul, lit, ltb in H. apply Qc_ltb_lt in H.
  qc2q. lra.
Qed.

Lemma similar_average_pos (avg amt : num) :
  ltb (abs (sub amt avg)) (mul avg (lit 1 10)) = true ->
  exists a, avg = Fin a /\ (0 < a)%Qc.
Proof.
  intros H. destruct avg as [a| | |];
    [|destruct amt; vm_compute in H; discriminate..].
  exists a. split; [reflexivity|].
  destruct amt as [b| | |]; try (vm_compute in H; discriminate).
  unfold sub, neg, add, abs, mul, lit in H.
  destruct (Qc_ltb (b + - a) 0) eqn:E.
  - apply Qc_ltb_lt in E. cbn [ltb] in H. apply Qc_ltb_lt in H.
    qc2q. lra.
  - apply Qc_ltb_ge in E. cbn [ltb] in H. apply Qc_ltb_lt in H.
    qc2q. lra.
Qed.

(** The yearly cost of a recurring charge is finite and positive,
    whatever the amounts. *)
Lemma recurring_impact_positive (ts : list CategorizedTransaction)
      (p : DetectedPattern) :
  In p (findRecurringCharges ts) ->
  exists q, impact p = Fin q /\ (0 < q)%Qc.
Proof.
  intros H. apply findRecurringCharges_In in H.
  destruct H as [[desc txns] [_ H]]. apply recurringOf_In in H.
  cbn [fst snd] in H. destruct H as [Hlen [Hsim [_ [_ ->]]]].
  destruct txns as [|t txns]; [cbn in Hlen; lia|].
  unfold amountsSimilar in Hsim. cbn [map forallb] in Hsim.
  apply andb_prop in Hsim. destruct Hsim as [Hsim _].
  apply similar_average_pos in Hsim as [a [Ea Ha]].
  cbn [impact recurringPattern map]. rewrite Ea.
  exists (a * qz 12)%Qc. split; [reflexivity|].
  clear - Ha. qc2q. unfold inject_Z. lra.
Qed.

Lemma last_opt_In {A : Type} (l : list A) (z : A) :
  last_opt l = Some z -> In z l.
Proof.
  induction l as [|x [|y r] IH]; cbn [last_opt]; [discriminate| |].
  - intros [= ->]. now left.
  - intros H. right. now apply IH.
Qed.

Lemma monthlyTotals_fin (ts : list CategorizedTransaction)
      (k : string) (v : num) :
  Forall finiteAmount (filter expense ts) ->
  In (k, v) (monthlyTotals ts) -> is_fin v = true.
Proof.
  intros Hfin H. rewrite monthlyTotals_loop in H.
  apply Map_In_get in H; [|apply loop_NoDup]. rewrite loop_get in H.
  destruct (withKey trendMonthKey k (filter expense ts)) as [|t r] eqn:E;
    [discriminate|].
  assert (Hg : Forall finiteAmount (t :: r))
    by (rewrite <- E; now apply Forall_withKey).
  rewrite accumulate_addAmount in H by (auto; discriminate).
  injection H as <-. now apply sumAmounts_fin.
Qed.

Lemma abs_sub_nonneg (x y : num) :
  is_fin x = true -> is_fin y = true ->
  finiteNonNegative (abs (sub x y)) = true.
Proof.
  destruct x as [a| | |], y as [b| | |]; try discriminate. intros _ _.
  apply finiteNonNegative_iff. unfold sub, neg, add, abs.
  destruct (Qc_ltb (a + - b) 0) eqn:E; eexists; (split; [reflexivity|]).
  - apply Qc_ltb_lt in E. qc2q. lra.
  - now apply Qc_ltb_ge in E.
Qed.

Lemma trend_impact_nonneg (ts : list CategorizedTransaction)
      (p : DetectedPattern) :
  Forall finiteAmount (filter expense ts) ->
  In p (findTrends ts) -> finiteNonNegative (impact p) = true.
Proof.
  intros Hfin. unfold findTrends. destruct (_ <? _)%nat; [intros []|].
  destruct (Array_sort _ _) as [|[k0 firstMonth] r] eqn:ES; [intros []|].
  destruct (last_opt _) as [[k1 lastMonth]|] eqn:EL; [|intros []].
  intros H. apply trendOf_In in H. cbv zeta in H. destruct H as [_ ->].
  cbn [impact trendPattern].
  apply last_opt_In in EL. rewrite <- ES in EL.
  assert (E0 : In (k0, firstMonth) (Array_sort
            (fun a b => localeCompare (fst a) (fst b)) (monthlyTotals ts)))
    by (rewrite ES; now left).
  apply Array_sort_In in EL, E0.
  apply abs_sub_nonneg; eapply monthlyTotals_fin; eassumption.
Qed.

Lemma spike_impact_nonneg (ts : list CategorizedTransaction)
      (p : DetectedPattern) :
  Forall (fun t => finiteNonNegative (amount t) = true) (filter expense ts) ->
  In p (findSpendingSpikes ts) -> finiteNonNegative (impact p) = true.
Proof.
  intros Hpos H. unfold findSpendingSpikes in H. apply in_flat_map in H.
  destruct H as [[c totals] [He H]]. apply spikeOf_In in H.
  cbn [fst snd] in H. destruct H as [Hlen [Hgt ->]].
  cbn [impact spikePattern].
  apply Map_In_get in He.
  2:{ unfold categoryMonthlyTotals. rewrite fold_left_flat_map.
      apply loop_NoDup. }
  rewrite categoryMonthlyTotals_get in He.
  destruct (nonEmpty _); [|discriminate]. injection He as <-.
  assert (Hall : Forall (fun x => finiteNonNegative x = true)
                        (spec_monthlyTotals c ts)).
  { unfold spec_monthlyTotals. apply Forall_forall. intros x Hx.
    apply in_map_iff in Hx as [ym [<- _]]. rewrite sumAmounts_sum.
    apply finiteNonNegative_sum. apply Forall_forall. intros a Ha.
    apply in_map_iff in Ha as [t [<- Ht]]. unfold expensesIn in Ht.
    apply withKey_In in Ht as [Ht _]. apply withKey_In in Ht as [Ht _].
    rewrite Forall_forall in Hpos. now apply Hpos. }
  assert (Hne : spec_monthlyTotals c ts <> [])
    by (intros E; rewrite E in Hlen; cbn in Hlen; lia).
  apply spike_gap_nonneg; [| |exact Hgt].
  - assert (Hf : Forall (fun x => is_fin x = true) (spec_monthlyTotals c ts)).
    { revert Hall. apply Forall_impl. apply finiteNonNegative_fin. }
    pose proof (Math_max_In Hne Hf) as Hin.
    rewrite Forall_forall in Hall. now apply Hall.
  - now apply finiteNonNegative_average.
Qed.

Lemma impacts_finite_nonnegative (ts : list CategorizedTransaction) :
  Forall (fun t => finiteNonNegative (amount t) = true) (filter expense ts) ->
  Forall (fun p => finiteNonNegative (impact p) = true) (detectPatterns ts).
Proof.
  intros Hpos. apply Forall_forall. intros p Hp.
  unfold detectPatterns in Hp.
  apply (proj1 (Array_sort_In _ p (emittedPatterns ts))) in Hp.
  unfold emittedPatterns in Hp. rewrite !in_app_iff in Hp.
  destruct Hp as [H|[H|[H|H]]].
  - apply (@recurring_impact_positive ts) in H as [q [-> Hq]].
    apply finiteNonNegative_iff. exists q. split; [reflexivity|].
    now apply Qclt_le_weak.
  - apply findAnomalies_In in H.
    destruct H as [t [Ht [Hinc [_ [_ ->]]]]]. cbn [impact anomalyPattern].
    rewrite Forall_forall in Hpos. apply Hpos. apply filter_In.
    split; [exact Ht|]. unfold expense. now rewrite Hinc.
  - now apply (@spike_impact_nonneg ts).
  - apply (@trend_impact_nonneg ts); [|exact H].
    revert Hpos. apply Forall_impl. intros t. apply finiteNonNegative_fin.
Qed.

(** X15: when the amount of every expense is finite and not negative,
    the impact of every detected pattern is a number that is not
    negative. *)
Theorem X15_impact_nonnegative (ts : list CategorizedTransaction) :
  Forall (fun t => finiteNonNegative (amount t) = true) (filter expense ts) ->
  Forall (fun p => leb zero (impact p) = true) (detectPatterns ts).
Proof.
  intros Hpos. apply impacts_finite_nonnegative in Hpos.
  revert Hpos. apply Forall_impl. intros p H.
  unfold finiteNonNegative in H. now apply andb_prop in H.
Qed.

Lemma X15_impact_nonnegative_witness :
  Forall (fun p => leb zero (impact p) = true) (detectPatterns gymAndConcert).
Proof.
  apply X15_impact_nonnegative.
  vm_compute. repeat constructor.
Defined.

(** ** The CSV line reader *)

Lemma parseCSVLine_from_length (line : string) :
  forall result current inQuotes,
    (List.length result
     < List.length (parseCSVLine_from result current inQuotes line))%nat.
Proof.
  induction line as [|c line IH]; intros result current inQuotes;
    cbn [parseCSVLine_from].
  - rewrite length_app. cbn. lia.
  - destruct (Ascii.eqb c double_quote); [apply IH|].
    destruct (Ascii.eqb c comma && negb inQuotes); [|apply IH].
    eapply Nat.lt_trans; [|apply IH]. rewrite length_app. cbn. lia.
Qed.

Lemma trim_idem (s : string) : trim (trim s) = trim s.
Proof.
  destruct (trim_edges s) as [Hf Hl].
  unfold trim at 1. now rewrite (trimStart_id _ Hf), (trimEnd_id _ Hl).
Qed.

Lemma parseCSVLine_from_fields (p : ascii -> bool) (line : string) :
  (forall c, Ascii.eqb c double_quote = false -> p c = true) ->
  forall result current inQuotes,
    Forall (fun f => trim f = f /\ all_chars p f = true) result ->
    all_chars p current = true ->
    Forall (fun f => trim f = f /\ all_chars p f = true)
           (parseCSVLine_from result current inQuotes line).
Proof.
  intros Hp.
  assert (Hpush : forall result current,
             Forall (fun f => trim f = f /\ all_chars p f = true) result ->
             all_chars p current = true ->
             Forall (fun f => trim f = f /\ all_chars p f = true)
                    (result ++ [trim current])).
  { intros result current Hr Hc. apply Forall_app. split; [exact Hr|].
    constructor; [|constructor]. split; [apply trim_idem|].
    unfold trim. now apply all_chars_trimEnd, all_chars_trimStart. }
  induction line as [|c line IH]; intros result current inQuotes Hr Hc;
    cbn [parseCSVLine_from].
  - now apply Hpush.
  - destruct (Ascii.eqb c double_quote) eqn:Eq; [now apply IH|].
    destruct (Ascii.eqb c comma && negb inQuotes).
    + apply IH; [now apply Hpush|reflexivity].
    + apply IH; [exact Hr|]. rewrite all_chars_app, Hc. cbn.
      now rewrite (Hp c Eq).
Qed.

(** X16: [parseCSVLine] returns at least one field, whatever the line,
    so that the test [values.length === 0] of [parseCSV] never holds;
    every field it returns is trimmed and holds no double quote. *)
Theorem X16_parseCSVLine_fields (line : string) :
  parseCSVLine line <> []
  /\ Forall (fun f => trim f = f
                      /\ all_chars (fun c => negb (Ascii.eqb c double_quote)) f
                         = true)
            (parseCSVLine line).
Proof.
  split.
  - pose proof (parseCSVLine_from_length line [] EmptyString false) as H.
    unfold parseCSVLine. intros E. rewrite E in H. cbn in H. lia.
  - apply parseCSVLine_from_fields; [|constructor|reflexivity].
    now intros c ->.
Qed.

Lemma parseCSVLine_from_text (text : string) :
  forall quoted result current rest,
    writable (quoted, text) = true ->
    parseCSVLine_from result current quoted (text ++ rest)
    = parseCSVLine_from result (current ++ text) quoted rest.
Proof.
  induction text as [|c text IH]; intros quoted result current rest H.
  - cbn. now rewrite String_app_empty.
  - cbn in H. apply andb_prop in H as [Hc H].
    apply andb_prop in Hc as [Hq Hcomma].
    cbn [append parseCSVLine_from].
    destruct (Ascii.eqb c double_quote); [discriminate|].
    assert (Ascii.eqb c comma && negb quoted = false) as ->.
    { destruct quoted; [apply andb_false_r|].
      cbn in Hcomma. now destruct (Ascii.eqb c comma). }
    rewrite IH by exact H. now rewrite String_app_assoc.
Qed.

(** Reading one written field: the state after it is the state before
    it with the text appended to [current]. *)
Lemma parseCSVLine_from_field (field : bool * string) :
  forall result current rest,
    writable field = true ->
    parseCSVLine_from result current false (writeField field ++ rest)
    = parseCSVLine_from result (current ++ snd field) false rest.
Proof.
  destruct field as [[|] text]; intros result current rest H; cbn [snd].
  - unfold writeField. cbn [append parseCSVLine_from].
    change (Ascii.eqb double_quote double_quote) with true. cbv iota.
    rewrite String_app_assoc, parseCSVLine_from_text by exact H.
    cbn [append parseCSVLine_from].
    change (Ascii.eqb double_quote double_quote) with true. reflexivity.
  - unfold writeField. now apply parseCSVLine_from_text.
Qed.

Lemma parseCSVLine_from_written (fields : list (bool * string)) :
  fields <> [] -> forallb writable fields = true ->
  forall result,
    parseCSVLine_from result EmptyString false
                      (String.concat "," (map writeField fields))
    = result ++ map (fun field => trim (snd field)) fields.
Proof.
  induction fields as [|field fields IH]; [congruence|].
  intros _ H result. cbn in H. apply andb_prop in H as [Hf Hfs].
  destruct fields as [|field2 fields].
  - cbn [map String.concat].
    rewrite <- (String_app_empty (writeField field)).
    rewrite parseCSVLine_from_field by exact Hf. reflexivity.
  - change (String.concat "," (map writeField (field :: field2 :: fields)))
      with (writeField field
            ++ String comma
                 (String.concat "," (map writeField (field2 :: fields))))%string.
    rewrite parseCSVLine_from_field by exact Hf.
    cbn [parseCSVLine_from]. change (Ascii.eqb comma double_quote) with false.
    change (Ascii.eqb comma comma && negb false) with true. cbv iota.
    rewrite IH by (auto; discriminate).
    cbn [map]. now rewrite <- app_assoc.
Qed.

(** X17: a line written from fields, joined by commas, each field either
    as it is (then without comma) or between double quotes, and none
    with a double quote inside, reads back as the trimmed fields: commas
    inside quotes do not split. *)
Theorem X17_parseCSVLine_reads_written (fields : list (bool * string)) :
  fields <> [] -> forallb writable fields = true ->
  parseCSVLine (String.concat "," (map writeField fields))
  = map (fun field => trim (snd field)) fields.
Proof.
  intros Hne H. unfold parseCSVLine.
  now rewrite parseCSVLine_from_written.
Qed.

Lemma X17_parseCSVLine_reads_written_witness :
  parseCSVLine
    (String.concat ","
       (map writeField
            [(false, "2024-01-05"%string);
             (true, "Trader Joe's, Seattle"%string);
             (false, " 42.10 "%string)]))
  = ["2024-01-05"%string; "Trader Joe's, Seattle"%string; "42.10"%string].
Proof.
  apply (@X17_parseCSVLine_reads_written
           [(false, "2024-01-05"%string);
            (true, "Trader Joe's, Seattle"%string);
            (false, " 42.10 "%string)]).
  - discriminate.
  - vm_compute. reflexivity.
Defined.

(** ** The categorizer *)

Lemma ruleBasedCategorization_fields (t : Tx.Transaction) :
  date (ruleBasedCategorization t) = Tx.date t
  /\ description (ruleBasedCategorization t) = Tx.description t
  /\ amount (ruleBasedCategorization t) = Tx.amount t
  /\ isIncome (ruleBasedCategorization t) = Tx.isIncome t.
Proof.
  unfold ruleBasedCategorization.
  repeat match goal with
         | |- context [if includesAny ?d ?k then _ else _] =>
             destruct (includesAny d k); [cbn; auto|]
         end.
  destruct (Tx.isIncome t) eqn:E; cbn; auto.
Qed.

Lemma ruleBasedCategorization_income (t : Tx.Transaction) :
  category (ruleBasedCategorization t) = Income -> Tx.isIncome t = true.
Proof.
  unfold ruleBasedCategorization.
  repeat match goal with
         | |- context [if includesAny ?d ?k then _ else _] =>
             destruct (includesAny d k); [discriminate|]
         end.
  destruct (Tx.isIncome t); [reflexivity|discriminate].
Qed.

(** X18: the categorizer files a transaction under Income only if it is
    an income transaction, so after categorization no expense counts
    under Income: the category breakdown of the metrics has no Income
    entry. *)
Theorem X18_no_income_in_breakdown (ts : list Tx.Transaction) :
  (forall t, In t (categorizeTransactions ts) ->
             category t = Income -> isIncome t = true)
  /\ forall e,
       In e (categoryBreakdown (calculateMetrics (categorizeTransactions ts))) ->
       cb_category e <> Income.
Proof.
  assert (H : forall t, In t (categorizeTransactions ts) ->
                        category t = Income -> isIncome t = true).
  { intros t Ht Hc. unfold categorizeTransactions in Ht.
    apply in_map_iff in Ht as [t0 [<- _]].
    destruct (ruleBasedCategorization_fields t0) as [_ [_ [_ ->]]].
    now apply ruleBasedCategorization_income. }
  split; [exact H|].
  intros e He Hc. cbn [calculateMetrics categoryBreakdown] in He.
  destruct (breakdown_counts (filter expense (categorizeTransactions ts)))
    as [Hperm _].
  assert (Hin : In (cb_category e)
                   (map cb_category
                      (calculateCategoryBreakdown
                         (filter expense (categorizeTransactions ts)))))
    by now apply in_map.
  apply (Permutation_in _ Hperm) in Hin.
  apply (proj1 (distinct_In _ _)) in Hin.
  apply in_map_iff in Hin as [t [Et Ht]]. apply filter_In in Ht as [Ht Hexp].
  rewrite Hc in Et. specialize (H t Ht Et).
  unfold expense in Hexp. rewrite H in Hexp. discriminate.
Qed.

(** ** The agent *)

Section AgentSteps.
Variable generateInsights :
  option FinancialMetrics -> list DetectedPattern ->
  list CategorizedTransaction -> list Ins.Insight.
Variable parsedData : Parsed.ParsedTransactions.

Lemma executeStep_categorizer (st : AnalysisState) (a r : string) :
  executeStep generateInsights parsedData st
              {| tool := "categorizer"; action := a; reason := r |}
  = {| categorizedTransactions :=
         categorizeTransactions (Parsed.transactions parsedData);
       metrics := metrics st;
       patterns := patterns st;
       insights := insights st |}.
Proof. reflexivity. Qed.

Lemma executeStep_calculator (st : AnalysisState) (a r : string) :
  executeStep generateInsights parsedData st
              {| tool := "calculator"; action := a; reason := r |}
  = {| categorizedTransactions := categorizedTransactions st;
       metrics := Some (calculateMetrics (categorizedTransactions st));
       patterns := patterns st;
       insights := insights st |}.
Proof. reflexivity. Qed.

Lemma executeStep_patternDetector (st : AnalysisState) (a r : string) :
  executeStep generateInsights parsedData st
              {| tool := "patternDetector"; action := a; reason := r |}
  = {| categorizedTransactions := categorizedTransactions st;
       metrics := metrics st;
       patterns := detectPatterns (categorizedTransactions st);
       insights := insights st |}.
Proof. reflexivity. Qed.

Lemma executeStep_insightGenerator (st : AnalysisState) (a r : string) :
  executeStep generateInsights parsedData st
              {| tool := "insightGenerator"; action := a; reason := r |}
  = {| categorizedTransactions := categorizedTransactions st;
       metrics := metrics st;
       patterns := patterns st;
       insights := generateInsights (metrics st) (patterns st)
                                    (categorizedTransactions st) |}.
Proof. reflexivity. Qed.
End AgentSteps.

(** X19: the agent categorizes the parsed transactions, computes the
    metrics of the categorized transactions, runs the pattern detector on
    them only when there are more than 20 transactions (the report has no
    pattern otherwise, whatever the data), and hands these results to the
    insight generator. *)
Theorem X19_analysis_composition
        (generateInsights :
           option FinancialMetrics -> list DetectedPattern ->
           list CategorizedTransaction -> list Ins.Insight)
        (parsedData : Parsed.ParsedTransactions) :
  let report := analyzeFinances generateInsights parsedData in
  let categorized := categorizeTransactions (Parsed.transactions parsedData) in
  categorizedTransactions report = categorized
  /\ metrics report = Some (calculateMetrics categorized)
  /\ patterns report
     = (if (20 <? Parsed.totalCount parsedData)%Z
        then detectPatterns categorized else [])
  /\ insights report
     = generateInsights (metrics report) (patterns report) categorized.
Proof.
  cbv zeta. unfold analyzeFinances, executePlan, createSmartPlan.
  cbn [steps].
  destruct (20 <? Parsed.totalCount parsedData)%Z; cbn [app fold_left].
  - rewrite executeStep_categorizer.
    rewrite executeStep_calculator. cbn [categorizedTransactions metrics patterns insights].
    rewrite executeStep_patternDetector. cbn [categorizedTransactions metrics patterns insights].
    rewrite executeStep_insightGenerator. cbn [categorizedTransactions metrics patterns insights].
    repeat split.
  - rewrite executeStep_categorizer.
    rewrite executeStep_calculator. cbn [categorizedTransactions metrics patterns insights].
    rewrite executeStep_insightGenerator. cbn [categorizedTransactions metrics patterns insights].
    repeat split.
Qed.

(** ** The fallback insights *)

Lemma filter_perm {A : Type} (f : A -> bool) (l l' : list A) :
  Permutation l l' -> Permutation (filter f l) (filter f l').
Proof.
  induction 1 as [|x l l' _ IH|x y l|l l' l'' _ IH1 _ IH2]; cbn.
  - constructor.
  - destruct (f x); [now constructor|exact IH].
  - destruct (f x), (f y); try reflexivity. apply perm_swap.
  - now transitivity (filter f l').
Qed.

(** The patterns of type recurring_charge that [detectPatterns] returns
    are those of the recurring-charge detector. *)
Lemma detected_recurring (ts : list CategorizedTransaction) :
  Permutation (filter isRecurring (detectPatterns ts))
              (findRecurringCharges ts).
Proof.
  unfold detectPatterns.
  rewrite (filter_perm isRecurring (Array_sort_perm _ (emittedPatterns ts))).
  unfold emittedPatterns. rewrite !filter_app.
  rewrite (filter_all isRecurring (l := findRecurringCharges ts)).
  2:{ apply Forall_forall. intros p Hp. unfold isRecurring.
      now rewrite (recurring_type ts p Hp). }
  rewrite (filter_none isRecurring (l := findAnomalies ts _)).
  2:{ apply Forall_forall. intros p Hp. apply findAnomalies_In in Hp.
      now destruct Hp as [t [_ [_ [_ [_ ->]]]]]. }
  rewrite (filter_none isRecurring (l := findSpendingSpikes ts)).
  2:{ apply Forall_forall. intros p Hp. apply findSpendingSpikes_In in Hp.
      destruct Hp as [Hp _]. unfold isRecurring. now rewrite Hp. }
  rewrite (filter_none isRecurring (l := findTrends ts)).
  2:{ apply Forall_forall. intros p Hp. apply findTrends_In in Hp.
      destruct Hp as [Hp _]. unfold isRecurring. now rewrite Hp. }
  now rewrite !app_nil_r.
Qed.

(** X20: on the patterns of [detectPatterns], the fallback insights hold
    an opportunity exactly when a recurring charge was detected,
    whether of income or of spending: one insight, which counts the
    recurring charges and whose potential savings are a twelfth of their
    impacts, added up in the order of the patterns. *)
Theorem X20_fallback_subscription_insight (metrics : FinancialMetrics)
        (ts : list CategorizedTransaction) :
  let recurring := filter isRecurring (detectPatterns ts) in
  let monthly :=
    div (fold_left (fun sum p => add sum (impact p)) recurring zero)
        (ofZ 12) in
  Permutation recurring (findRecurringCharges ts)
  /\ filter (fun i => match Ins.category i with
                      | Ins.opportunity => true
                      | _ => false
                      end)
            (generateFallbackInsights metrics (detectPatterns ts))
     = if nonEmpty (findRecurringCharges ts) then
         [ {| Ins.title := "Review Subscriptions";
              Ins.description :=
                Ins.SubscriptionsText (List.length (findRecurringCharges ts))
                                      monthly;
              Ins.category := Ins.opportunity;
              Ins.priority := ofZ 8;
              Ins.potentialSavings := Some monthly;
              Ins.actionable := true |} ]
       else [].
Proof.
  cbv zeta. pose proof (detected_recurring ts) as HP.
  split; [exact HP|].
  unfold generateFallbackInsights.
  set (recP := filter isRecurring (detectPatterns ts)) in *.
  rewrite !filter_app.
  assert (filter (fun i => match Ins.category i with
                           | Ins.opportunity => true
                           | _ => false
                           end)
                 (if ltb (netCashFlow metrics) zero
                  then [ {| Ins.title := "Negative Cash Flow Alert";
                            Ins.description :=
                              Ins.OverspendingText (abs (netCashFlow metrics));
                            Ins.category := Ins.alert;
                            Ins.priority := ofZ 10;
                            Ins.potentialSavings := None;
                            Ins.actionable := true |} ]
                  else []) = []) as ->
    by (destruct (ltb _ _); reflexivity).
  cbn [app].
  match goal with
  | |- (filter _ ?h ++ _)%list = _ =>
      assert (filter (fun i => match Ins.category i with
                               | Ins.opportunity => true
                               | _ => false
                               end) h = []) as ->
  end.
  { destruct (categoryBreakdown metrics) as [|top r]; [reflexivity|].
    destruct (gtb _ _); reflexivity. }
  cbn [app].
  rewrite <- (Permutation_length HP).
  assert (nonEmpty (findRecurringCharges ts) = nonEmpty recP) as ->.
  { destruct recP as [|x r], (findRecurringCharges ts) as [|y r'];
      try reflexivity.
    - apply Permutation_nil in HP. discriminate.
    - apply Permutation_sym, Permutation_nil in HP. discriminate. }
  destruct recP; reflexivity.
Qed.

(** ** The order of the input *)







(** ** Nothing counted twice, nothing lost *)

Lemma sum_filter_split {A : Type} (p : A -> bool) (f : A -> num)
      (l : list A) :
  add (sum (map f (filter p l)))
      (sum (map f (filter (fun x => negb (p x)) l)))
  = sum (map f l).
Proof.
  induction l as [|x l IH]; [reflexivity|].
  cbn [filter map]. destruct (p x); cbn [negb map]; rewrite !sum_cons, <- IH.
  - now rewrite add_assoc.
  - rewrite !add_assoc. f_equal. apply add_comm.
Qed.

(** X22: when the amounts are whole numbers, none negative, that add up
    to at most 2^53, every transaction is counted once, as income or as
    spending: totalIncome and totalSpending add up to the sum of all
    amounts. *)
Theorem X22_income_and_spending_partition (ts : list CategorizedTransaction) :
  wholeAmounts ts ->
  add (totalIncome (calculateMetrics ts)) (totalSpending (calculateMetrics ts))
  = sum (map amount ts).
Proof.
  intros _. cbn [calculateMetrics totalIncome totalSpending].
  rewrite !sumAmounts_sum. apply sum_filter_split.
Qed.

Lemma X22_income_and_spending_partition_witness :
  wholeAmounts gymAndConcert
  /\ add (totalIncome (calculateMetrics gymAndConcert))
         (totalSpending (calculateMetrics gymAndConcert))
     = sum (map amount gymAndConcert).
Proof.
  split; [exact gymAndConcert_whole|].
  exact (X22_income_and_spending_partition gymAndConcert_whole).
Defined.

(** ** Expenses of a single month *)

Lemma NoDup_constant {A : Type} (k : A) (l : list A) :
  NoDup l -> (forall x, In x l -> x = k) -> (List.length l <= 1)%nat.
Proof.
  intros N H. destruct l as [|a [|b r]]; cbn; try lia.
  exfalso. inversion N as [|? ? Hn _]; subst. apply Hn.
  rewrite (H a), (H b); [now left|right; now left|now left].
Qed.

Lemma distinct_constant {K : Type} {KE : KeyEq K} (k : K) (l : list K) :
  (forall x, In x l -> x = k) -> (List.length (distinct l) <= 1)%nat.
Proof.
  intros H. apply NoDup_constant with (k := k); [apply distinct_NoDup|].
  intros x Hx. apply H. now apply (proj1 (distinct_In _ _)).
Qed.

(** X23: when all expenses fall in one calendar month, neither a
    spending spike nor a trend is reported, whatever the amounts. *)
Theorem X23_single_month_no_spike_no_trend
        (ts : list CategorizedTransaction) (ym : Z * Z) :
  Forall (fun t => yearMonth t = ym) (filter expense ts) ->
  findSpendingSpikes ts = [] /\ findTrends ts = [].
Proof.
  intros H. rewrite Forall_forall in H. split.
  - unfold findSpendingSpikes. apply flat_map_nil. intros [c totals] He.
    apply Map_In_get in He.
    2:{ unfold categoryMonthlyTotals. rewrite fold_left_flat_map.
        apply loop_NoDup. }
    rewrite categoryMonthlyTotals_get in He.
    destruct (nonEmpty _); [|discriminate]. injection He as <-.
    unfold spikeOf.
    assert (Hlen : (List.length (spec_monthlyTotals c ts) <= 1)%nat).
    { rewrite spec_monthlyTotals_length. unfold monthsOf.
      apply distinct_constant with (k := ym). intros x Hx.
      apply in_map_iff in Hx as [t [<- Ht]].
      apply withKey_In in Ht as [Ht _]. now apply H. }
    destruct (Nat.ltb_spec (List.length (spec_monthlyTotals c ts)) 2);
      [reflexivity|lia].
  - unfold findTrends.
    assert (Hlen : (List.length (monthlyTotals ts) <= 1)%nat).
    { rewrite <- (length_map fst), monthlyTotals_loop, loop_keys.
      apply distinct_constant
        with (k := trendMonthKey
                     (expenseOn {| getTime := 0; getFullYear := fst ym;
                                   getMonth := snd ym |}
                                EmptyString zero Other)).
      intros x Hx. apply in_map_iff in Hx as [t [<- Ht]].
      specialize (H t Ht). unfold trendMonthKey, yearMonth in *.
      cbn [date expenseOn getFullYear getMonth]. rewrite <- H. reflexivity. }
    destruct (Nat.ltb_spec (List.length (monthlyTotals ts)) 2);
      [reflexivity|lia].
Qed.

Lemma X23_single_month_no_spike_no_trend_witness :
  findSpendingSpikes rentCoffeeLaptop = [] /\ findTrends rentCoffeeLaptop = [].
Proof.
  apply (@X23_single_month_no_spike_no_trend rentCoffeeLaptop (2024, 0)%Z).
  vm_compute. repeat constructor.
Defined.

(** * The detectors in double precision *)


(** ** Recurring charges *)



Lemma IEEE_recurringOf_In (e : string * list CategorizedTransaction)
      (p : DetectedPattern) :
  In p (IEEE.recurringOf e) ->
  (2 <= List.length (snd e))%nat
  /\ p = IEEE.recurringPattern (fst e) (snd e)
                               (IEEE.average (map amount (snd e))).
Proof.
  destruct e as [k g]. unfold IEEE.recurringOf. cbn [fst snd].
  destruct (Nat.leb_spec 2 (List.length g)); [|intros []].
  destruct (IEEE.amountsSimilar _ _); [|intros []].
  destruct (_ && _); [|intros []].
  intros [<-|[]]. split; [assumption | reflexivity].
Qed.

Lemma IEEE_findRecurringCharges_In (ts : list CategorizedTransaction)
      (p : DetectedPattern) :
  In p (IEEE.findRecurringCharges ts) ->
  exists k,
    let g := withKey normalized k ts in
    (2 <= List.length g)%nat
    /\ p = IEEE.recurringPattern k g (IEEE.average (map amount g)).
Proof.
  unfold IEEE.findRecurringCharges. rewrite in_flat_map.
  intros [[k g] [Hg H]]. apply IEEE_recurringOf_In in H. cbn [fst snd] in H.
  apply descriptionGroups_In in Hg. destruct Hg as [-> _].
  now exists k.
Qed.

(** The emitted patterns, group by group in the order in which the
    normalized descriptions first occur. *)
Lemma IEEE_findRecurringCharges_keys (ts : list CategorizedTransaction) :
  IEEE.findRecurringCharges ts
  = flat_map (fun k => IEEE.recurringOf (k, withKey normalized k ts))
             (distinct (map normalized ts)).
Proof.
  unfold IEEE.findRecurringCharges.
  rewrite (Map_entries [] (descriptionGroups ts)) at 1
    by (unfold descriptionGroups; apply loop_NoDup).
  unfold descriptionGroups at 2. rewrite loop_keys, flat_map_map.
  apply flat_map_ext. intros k. unfold descriptionGroups.
  rewrite group_get.
  destruct (withKey normalized k ts) as [|t r]; reflexivity.
Qed.



(** ** Spending spikes *)

Lemma IEEE_accumulate_pushTotal_cons
      (l : list (SpendingCategory * list CategorizedTransaction)) :
  forall o e,
    accumulate IEEE.pushTotal o (e :: l)
    = Some (get_or_empty o ++ map (fun e => IEEE.sumAmounts (snd e)) (e :: l)).
Proof.
  induction l as [|e' l IH]; intros o e.
  - reflexivity.
  - change (accumulate IEEE.pushTotal o (e :: e' :: l))
      with (accumulate IEEE.pushTotal (Some (IEEE.pushTotal o e)) (e' :: l)).
    rewrite IH. cbn [get_or_empty]. unfold IEEE.pushTotal.
    now rewrite <- app_assoc.
Qed.

(** The totals the spike detector files under a category are the
    category's monthly totals. *)
Lemma IEEE_categoryMonthlyTotals_get (ts : list CategorizedTransaction)
      (c : SpendingCategory) :
  Map_get c (IEEE.categoryMonthlyTotals (monthlyByCategory ts))
  = if nonEmpty (IEEE.spec_monthlyTotals c ts)
    then Some (IEEE.spec_monthlyTotals c ts) else None.
Proof.
  unfold IEEE.categoryMonthlyTotals. rewrite fold_left_flat_map, loop_get.
  rewrite spike_entries. unfold IEEE.spec_monthlyTotals.
  destruct (filter _ (observedMonths ts)) as [|ym r]; [reflexivity|].
  cbn [map]. rewrite IEEE_accumulate_pushTotal_cons.
  cbn [nonEmpty get_or_empty].
  cbn [app map snd]. now rewrite map_map.
Qed.

Lemma IEEE_spikeOf_about (c : SpendingCategory)
      (e : SpendingCategory * list num) :
  filter (isSpikeOf c) (IEEE.spikeOf e)
  = if keqb (fst e) c then IEEE.spikeOf e else [].
Proof.
  destruct e as [c' totals]. unfold IEEE.spikeOf. cbn [fst].
  destruct (_ <? _)%nat; [now destruct (keqb c' c)|].
  destruct (IEEE.gtb _ _); [|now destruct (keqb c' c)].
  cbn. unfold isSpikeOf. cbn. now destruct (category_eqb c' c).
Qed.

(** The patterns about one category: what the loop body yields on the
    category's monthly totals. *)
Lemma IEEE_spikes_of_category (ts : list CategorizedTransaction)
      (c : SpendingCategory) :
  filter (isSpikeOf c) (IEEE.findSpendingSpikes ts)
  = IEEE.spikeOf (c, IEEE.spec_monthlyTotals c ts).
Proof.
  unfold IEEE.findSpendingSpikes. rewrite filter_flat_map.
  erewrite flat_map_ext by (intros e; apply IEEE_spikeOf_about).
  rewrite (flat_map_if (fun e => keqb (fst e) c) IEEE.spikeOf).
  change (filter (fun e => keqb (fst e) c)
                 (IEEE.categoryMonthlyTotals (monthlyByCategory ts)))
    with (withKey fst c (IEEE.categoryMonthlyTotals (monthlyByCategory ts))).
  rewrite withKey_fst_NoDup.
  2:{ unfold IEEE.categoryMonthlyTotals. rewrite fold_left_flat_map.
      apply loop_NoDup. }
  rewrite IEEE_categoryMonthlyTotals_get.
  destruct (IEEE.spec_monthlyTotals c ts) as [|x r]; [reflexivity|].
  cbn [nonEmpty flat_map]. apply app_nil_r.
Qed.

(** There is one monthly total per calendar month in which the category
    has an expense. *)
Lemma IEEE_spec_monthlyTotals_length (ts : list CategorizedTransaction)
      (c : SpendingCategory) :
  List.length (IEEE.spec_monthlyTotals c ts) = List.length (monthsOf c ts).
Proof.
  rewrite <- spec_monthlyTotals_length.
  unfold IEEE.spec_monthlyTotals, spec_monthlyTotals.
  now rewrite !length_map.
Qed.

(** C8: for a category with expenses in at least two observed calendar
    months, the spike detector emits about this category one
    [spending_spike] pattern when the largest monthly total exceeds 1.5
    times the mean of the category's monthly totals, and none
    otherwise; the totals, the mean, the product and the comparison are
    the double-precision ones of the code.  The pattern has impact
    max - mean, severity high when that exceeds 500 and medium
    otherwise, and no transactions.  The monthly totals cover every
    expense of the category: the detector takes the transactions alone
    and knows of no recurring pattern. *)
Theorem C8_spending_spike_per_category (ts : list CategorizedTransaction)
        (c : SpendingCategory) :
  let totals := IEEE.spec_monthlyTotals c ts in
  let mean := IEEE.average totals in
  let max := Math_max totals in
  let p := IEEE.spikePattern c max mean in
  (2 <= List.length (monthsOf c ts))%nat ->
  filter (isSpikeOf c) (IEEE.findSpendingSpikes ts)
  = (if IEEE.gtb max (IEEE.mul mean (lit 15 10)) then [p] else [])
  /\ type p = spending_spike
  /\ impact p = IEEE.sub max mean
  /\ severity p = (if IEEE.gtb (IEEE.sub max mean) (ofZ 500) then high
                   else medium)
  /\ transactions p = [].
Proof.
  cbv zeta. intros Hlen. rewrite <- IEEE_spec_monthlyTotals_length in Hlen.
  split; [|repeat split].
  rewrite IEEE_spikes_of_category. unfold IEEE.spikeOf.
  destruct (Nat.ltb_spec (List.length (IEEE.spec_monthlyTotals c ts)) 2);
    [lia | reflexivity].
Qed.

Lemma IEEE_gymAndConcert_totals :
  IEEE.spec_monthlyTotals Entertainment gymAndConcert
  = [ofZ 100; ofZ 100; ofZ 100; ofZ 400].
Proof. js_refl. Qed.

(** The example of the specification: monthly totals 100, 100, 100, 400,
    three of them made of a recurring charge alone, give one spike of
    mean 175, impact 225 and severity medium, next to the recurring
    pattern. *)
Lemma C8_spending_spike_per_category_witness :
  (2 <= List.length (monthsOf Entertainment gymAndConcert))%nat
  /\ filter (isSpikeOf Entertainment) (IEEE.findSpendingSpikes gymAndConcert)
     = [IEEE.spikePattern Entertainment (ofZ 400) (ofZ 175)]
  /\ IEEE.findSpendingSpikes gymAndConcert
     = [IEEE.spikePattern Entertainment (ofZ 400) (ofZ 175)]
  /\ impact (IEEE.spikePattern Entertainment (ofZ 400) (ofZ 175)) = ofZ 225
  /\ severity (IEEE.spikePattern Entertainment (ofZ 400) (ofZ 175)) = medium
  /\ map type (IEEE.findRecurringCharges gymAndConcert) = [recurring_charge].
Proof.
  assert (2 <= List.length (monthsOf Entertainment gymAndConcert))%nat
    as Hlen by (vm_compute; lia).
  split; [exact Hlen|].
  split.
  - rewrite (proj1 (C8_spending_spike_per_category
                      gymAndConcert Entertainment Hlen)).
    rewrite IEEE_gymAndConcert_totals. js_refl.
  - repeat split; js_refl.
Defined.

(** ** Trends *)

Lemma IEEE_monthlyTotals_loop (ts : list CategorizedTransaction) :
  IEEE.monthlyTotals ts
  = fold_left (Map_update trendMonthKey IEEE.addAmount) (filter expense ts) [].
Proof. unfold IEEE.monthlyTotals. now rewrite fold_left_skip. Qed.

Lemma IEEE_accumulate_addAmount_from (l : list CategorizedTransaction) :
  forall v,
    accumulate IEEE.addAmount (Some v) l
    = Some (fold_left (fun current t => IEEE.add (or current zero) (amount t))
                      l v).
Proof.
  induction l as [|t l IH]; intros v; [reflexivity|].
  change (accumulate IEEE.addAmount (Some v) (t :: l))
    with (accumulate IEEE.addAmount (Some (IEEE.addAmount (Some v) t)) l).
  rewrite IH. reflexivity.
Qed.

Lemma IEEE_accumulate_addAmount (l : list CategorizedTransaction) :
  l <> [] ->
  accumulate IEEE.addAmount None l
  = Some (fold_left (fun current t => IEEE.add (or current zero) (amount t))
                    l zero).
Proof.
  destruct l as [|t l]; [congruence|]. intros _.
  change (accumulate IEEE.addAmount None (t :: l))
    with (accumulate IEEE.addAmount (Some (IEEE.addAmount None t)) l).
  rewrite IEEE_accumulate_addAmount_from. reflexivity.
Qed.

Lemma IEEE_trendKeys_observed (ts : list CategorizedTransaction) :
  Forall (fun t => fourDigitYear (yearMonth t)) (filter expense ts) ->
  map fst (IEEE.monthlyTotals ts) = map trendKeyOf (observedMonths ts).
Proof.
  intros H. rewrite IEEE_monthlyTotals_loop, loop_keys. unfold observedMonths.
  rewrite <- (@distinct_map _ _ _ _ trendKeyOf fourDigitYear trendKeyOf_inj_on).
  - now rewrite map_map.
  - apply Forall_forall. intros ym Hym. apply in_map_iff in Hym.
    destruct Hym as [t [<- Ht]]. rewrite Forall_forall in H. now apply H.
Qed.

(** The total the trend detector files under a month's key. *)
Lemma IEEE_monthlyTotals_get (ts : list CategorizedTransaction) (ym : Z * Z) :
  Forall (fun t => fourDigitYear (yearMonth t)) (filter expense ts) ->
  In ym (observedMonths ts) ->
  Map_get (trendKeyOf ym) (IEEE.monthlyTotals ts)
  = Some (IEEE.monthTotal ym ts).
Proof.
  intros Hval Hym.
  assert (fourDigitYear ym) as Hd.
  { pose proof (@observedMonths_fourDigit ts Hval) as H.
    rewrite Forall_forall in H. now apply H. }
  rewrite IEEE_monthlyTotals_loop, loop_get.
  change (withKey trendMonthKey (trendKeyOf ym) (filter expense ts))
    with (withKey (fun t => trendKeyOf (yearMonth t)) (trendKeyOf ym)
                  (filter expense ts)).
  rewrite (@withKey_inj _ _ _ _ trendKeyOf fourDigitYear trendKeyOf_inj_on)
    by assumption.
  apply IEEE_accumulate_addAmount.
  apply withKey_nonempty. apply (proj1 (distinct_In _ _)). exact Hym.
Qed.

Lemma IEEE_monthlyTotals_entries (ts : list CategorizedTransaction) :
  Forall (fun t => fourDigitYear (yearMonth t)) (filter expense ts) ->
  IEEE.monthlyTotals ts
  = map (fun ym => (trendKeyOf ym, IEEE.monthTotal ym ts)) (observedMonths ts).
Proof.
  intros Hval.
  rewrite (Map_entries zero (IEEE.monthlyTotals ts)) at 1.
  2:{ rewrite IEEE_monthlyTotals_loop. apply loop_NoDup. }
  rewrite IEEE_trendKeys_observed by assumption. rewrite map_map.
  apply map_ext_in. intros ym Hym.
  now rewrite IEEE_monthlyTotals_get.
Qed.

(** The totals the sort brings to the front and to the end are those of
    the chronologically first and last month. *)
Lemma sortedMonths_ends (ts : list CategorizedTransaction)
      (m : list (string * num)) (total : Z * Z -> num)
      (first last : Z * Z) :
  Forall (fun t => fourDigitYear (yearMonth t)) (filter expense ts) ->
  m = map (fun ym => (trendKeyOf ym, total ym)) (observedMonths ts) ->
  firstMonthOf ts first -> lastMonthOf ts last ->
  exists k0 k1 r,
    Array_sort (fun a b => localeCompare (fst a) (fst b)) m
    = (k0, total first) :: r
    /\ last_opt (Array_sort (fun a b => localeCompare (fst a) (fst b)) m)
       = Some (k1, total last).
Proof.
  intros Hval Hm [Hf Hfmin] [Hl Hlmax].
  pose proof (@observedMonths_fourDigit ts Hval) as Hd.
  rewrite Forall_forall in Hd.
  pose proof (sortedMonths_sorted m) as Hs.
  pose proof (fun e => Array_sort_In
                         (fun a b => localeCompare (fst a) (fst b))
                         e m) as Hin.
  set (S := Array_sort _ m) in *.
  assert (forall e, In e S <->
            exists ym, In ym (observedMonths ts)
                       /\ e = (trendKeyOf ym, total ym)) as HS.
  { intros e. rewrite Hin, Hm, in_map_iff.
    split; intros [ym [H1 H2]]; exists ym; auto. }
  assert (forall a b, In a (observedMonths ts) -> In b (observedMonths ts) ->
            String.compare (trendKeyOf a) (trendKeyOf b) <> Gt ->
            monthIndex a <= monthIndex b) as Hord.
  { intros a b Ha Hb H. rewrite trendKey_compare in H by auto.
    destruct (Z.compare_spec (monthIndex a) (monthIndex b)); (lia || congruence). }
  destruct S as [|[k0 v0] r] eqn:ES.
  { exfalso. assert (In (trendKeyOf first, total first) []) as F.
    { apply HS. now exists first. }
    destruct F. }
  destruct (last_opt_cons (k0, v0) r) as [[k1 v1] Hlast].
  exists k0, k1, r. split.
  - f_equal. f_equal.
    destruct (proj1 (HS (k0, v0)) (or_introl eq_refl)) as [ym0 [H0 E0]].
    injection E0 as -> ->.
    assert (ym0 = first) as ->; [|reflexivity].
    apply monthIndex_inj_on; auto. apply Z.le_antisymm; [|now apply Hfmin].
    apply Hord; auto.
    assert (In (trendKeyOf first, total first)
               ((trendKeyOf ym0, total ym0) :: r)) as [E|Hr].
    { apply HS. now exists first. }
    + injection E as E _. rewrite E. rewrite string_compare_refl. discriminate.
    + apply (sorted_head_least Hs _ Hr).
  - rewrite Hlast. f_equal. f_equal.
    destruct (sorted_last_greatest Hs Hlast) as [Hz Hall].
    destruct (proj1 (HS (k1, v1)) Hz) as [ym1 [H1 E1]].
    injection E1 as -> ->.
    assert (ym1 = last) as ->; [|reflexivity].
    apply monthIndex_inj_on; auto. apply Z.le_antisymm; [now apply Hlmax|].
    apply Hord; auto.
    assert (In (trendKeyOf last, total last) ((k0, v0) :: r)) as Hin'.
    { apply HS. now exists last. }
    destruct (Hall _ Hin') as [E|HR].
    + injection E as E _. rewrite E. rewrite string_compare_refl. discriminate.
    + exact HR.
Qed.

(** With four-digit years, the trend detector emits nothing when the
    expenses fall in fewer than two calendar months; otherwise it uses
    only the totals of the chronologically first and last month. *)
Lemma IEEE_findTrends_ends (ts : list CategorizedTransaction)
      (first last : Z * Z) :
  Forall (fun t => fourDigitYear (yearMonth t)) (filter expense ts) ->
  ((List.length (observedMonths ts) < 2)%nat -> IEEE.findTrends ts = [])
  /\ ((2 <= List.length (observedMonths ts))%nat ->
      firstMonthOf ts first -> lastMonthOf ts last ->
      IEEE.findTrends ts
      = IEEE.trendOf (IEEE.monthTotal first ts) (IEEE.monthTotal last ts)).
Proof.
  intros Hval.
  assert (List.length (IEEE.monthlyTotals ts)
          = List.length (observedMonths ts)) as Hlen.
  { rewrite <- (length_map fst), IEEE_trendKeys_observed by assumption.
    apply length_map. }
  split.
  - intros H. unfold IEEE.findTrends. rewrite Hlen.
    destruct (Nat.ltb_spec (List.length (observedMonths ts)) 2);
      [reflexivity | lia].
  - intros H Hfirst Hlast.
    unfold IEEE.findTrends. rewrite Hlen.
    destruct (Nat.ltb_spec (List.length (observedMonths ts)) 2); [lia|].
    destruct (@sortedMonths_ends ts (IEEE.monthlyTotals ts)
                (fun ym => IEEE.monthTotal ym ts) first last Hval
                (@IEEE_monthlyTotals_entries ts Hval) Hfirst Hlast)
      as [k0 [k1 [r [ES Hl]]]].
    cbv zeta. revert Hl. rewrite ES. intros Hl.
    cbv beta iota. rewrite Hl. reflexivity.
Qed.

(** X26: for expenses dated in years of four digits, the trend detector
    emits nothing when they fall in fewer than two calendar months;
    otherwise it uses only the totals of the chronologically first and
    last month: with change = last - first and percentChange =
    change / first * 100, it emits exactly one [trend] pattern when
    |percentChange| > 15 and none otherwise, every operation and
    comparison being the double-precision one of the code.  The
    pattern's direction is increasing when the change is positive and
    decreasing otherwise, its severity high when |percentChange| > 30
    and medium otherwise, its impact |last - first|, and it attaches no
    transaction. *)
Theorem X26_trend_first_to_last (ts : list CategorizedTransaction)
        (first last : Z * Z) :
  Forall (fun t => fourDigitYear (yearMonth t)) (filter expense ts) ->
  ((List.length (observedMonths ts) < 2)%nat -> IEEE.findTrends ts = [])
  /\ ((2 <= List.length (observedMonths ts))%nat ->
      firstMonthOf ts first -> lastMonthOf ts last ->
      let change :=
        IEEE.sub (IEEE.monthTotal last ts) (IEEE.monthTotal first ts) in
      let percentChange :=
        IEEE.mul (IEEE.div change (IEEE.monthTotal first ts)) (ofZ 100) in
      let p := IEEE.trendPattern change percentChange in
      IEEE.findTrends ts
      = (if IEEE.gtb (IEEE.abs percentChange) (ofZ 15) then [p] else [])
      /\ type p = trend
      /\ text p = TrendText (if IEEE.gtb change zero then increasing
                             else decreasing)
                            (IEEE.abs percentChange)
      /\ severity p = (if IEEE.gtb (IEEE.abs percentChange) (ofZ 30) then high
                       else medium)
      /\ impact p = IEEE.abs change
      /\ transactions p = []).
Proof.
  intros Hval. destruct (@IEEE_findTrends_ends ts first last Hval) as [H1 H2].
  split; [exact H1|].
  intros H Hfirst Hlast. cbv zeta. split; [|repeat split].
  rewrite (H2 H Hfirst Hlast). reflexivity.
Qed.

Lemma risingSpending_months :
  observedMonths risingSpending = [(2024, 0); (2024, 1)].
Proof. reflexivity. Qed.

(** The example of the specification: 1000 in the first month and 1300
    in the second give one increasing trend of impact 300; the change of
    30 percent is not above 30, so the severity is medium. *)
Lemma X26_trend_first_to_last_witness :
  Forall (fun t => fourDigitYear (yearMonth t))
         (filter expense risingSpending)
  /\ (2 <= List.length (observedMonths risingSpending))%nat
  /\ firstMonthOf risingSpending (2024, 0)
  /\ lastMonthOf risingSpending (2024, 1)
  /\ IEEE.findTrends risingSpending
     = [IEEE.trendPattern (ofZ 300) (ofZ 30)]
  /\ text (IEEE.trendPattern (ofZ 300) (ofZ 30))
     = TrendText increasing (ofZ 30)
  /\ severity (IEEE.trendPattern (ofZ 300) (ofZ 30)) = medium
  /\ impact (IEEE.trendPattern (ofZ 300) (ofZ 30)) = ofZ 300.
Proof.
  assert (Forall (fun t => fourDigitYear (yearMonth t))
                 (filter expense risingSpending)) as Hval.
  { repeat constructor; cbn; lia. }
  assert (2 <= List.length (observedMonths risingSpending))%nat as Hlen
    by (rewrite risingSpending_months; cbn; lia).
  assert (firstMonthOf risingSpending (2024, 0)) as Hfirst.
  { unfold firstMonthOf. rewrite risingSpending_months.
    split; [now left|]. intros ym [<-|[<-|[]]]; cbn; lia. }
  assert (lastMonthOf risingSpending (2024, 1)) as Hlast.
  { unfold lastMonthOf. rewrite risingSpending_months.
    split; [right; now left|]. intros ym [<-|[<-|[]]]; cbn; lia. }
  split; [exact Hval|]. split; [exact Hlen|].
  split; [exact Hfirst|]. split; [exact Hlast|].
  split.
  - rewrite (proj1 (proj2 (@X26_trend_first_to_last risingSpending
                                   (2024, 0) (2024, 1) Hval)
                          Hlen Hfirst Hlast)).
    js_refl.
  - repeat split; js_refl.
Defined.

Lemma acrossYears_months :
  observedMonths acrossYears = [(999, 11); (2024, 5)].
Proof. reflexivity. Qed.

(** C9: expenses of 100 in December 999 and of 200 in June 2024.  The
    chronologically first month is December 999 and the last is June
    2024: spending rose by 100, that is by 100 percent.  The detector
    sorts the month keys as strings, and "2024-06" comes before
    "999-12": it takes 200 for the first month's total and 100 for the
    last, and reports a decreasing trend of 50 percent. *)
Theorem C9_trend_years_out_of_order :
  firstMonthOf acrossYears (999, 11)
  /\ lastMonthOf acrossYears (2024, 5)
  /\ IEEE.monthTotal (999, 11) acrossYears = ofZ 100
  /\ IEEE.monthTotal (2024, 5) acrossYears = ofZ 200
  /\ IEEE.trendOf (IEEE.monthTotal (999, 11) acrossYears)
                  (IEEE.monthTotal (2024, 5) acrossYears)
     = [IEEE.trendPattern (ofZ 100) (ofZ 100)]
  /\ text (IEEE.trendPattern (ofZ 100) (ofZ 100))
     = TrendText increasing (ofZ 100)
  /\ map fst (Array_sort (fun a b => localeCompare (fst a) (fst b))
                         (IEEE.monthlyTotals acrossYears))
     = ["2024-06"%string; "999-12"%string]
  /\ IEEE.findTrends acrossYears = [IEEE.trendPattern (ofZ (-100)) (ofZ (-50))]
  /\ text (IEEE.trendPattern (ofZ (-100)) (ofZ (-50)))
     = TrendText decreasing (ofZ 50).
Proof.
  split; [|split].
  - unfold firstMonthOf. rewrite acrossYears_months.
    split; [now left|]. intros ym [<-|[<-|[]]]; cbn; lia.
  - unfold lastMonthOf. rewrite acrossYears_months.
    split; [right; now left|]. intros ym [<-|[<-|[]]]; cbn; lia.
  - repeat split; js_refl.
Qed.

(** ** One pattern per group *)

Lemma NoDup_map_injective {A B : Type} (f : A -> B) (l : list A) :
  (forall x y, f x = f y -> x = y) -> NoDup l -> NoDup (map f l).
Proof.
  intros Hinj. induction 1 as [|x l Hx N IH]; cbn; constructor.
  - intros H. apply in_map_iff in H as [y [E Hy]].
    apply Hinj in E. now subst.
  - exact IH.
Qed.

Lemma IEEE_recurringOf_cases (k : string) (g : list CategorizedTransaction) :
  IEEE.recurringOf (k, g)
  = if nonEmpty (IEEE.recurringOf (k, g))
    then [IEEE.recurringPattern k g (IEEE.average (map amount g))]
    else [].
Proof.
  unfold IEEE.recurringOf.
  destruct (_ <=? _)%nat; [|reflexivity].
  destruct (IEEE.amountsSimilar _ _); [|reflexivity].
  destruct (_ && _); reflexivity.
Qed.

Lemma IEEE_recurring_group_of (ts : list CategorizedTransaction)
      (p : DetectedPattern) (t : CategorizedTransaction) :
  In p (IEEE.findRecurringCharges ts) -> In t (transactions p) ->
  let g := withKey normalized (normalized t) ts in
  p = IEEE.recurringPattern (normalized t) g (IEEE.average (map amount g)).
Proof.
  intros Hp Ht. apply IEEE_findRecurringCharges_In in Hp.
  destruct Hp as [k [_ ->]]. cbn [transactions IEEE.recurringPattern] in Ht.
  apply withKey_In in Ht as [_ <-]. reflexivity.
Qed.

(** X12: the recurring detector reports one pattern for each normalized
    description whose group passes the tests, in the order in which the
    descriptions first occur, and nothing else; no pattern is reported
    twice.  A pattern that lists a transaction lists every transaction
    of the input with the same normalized description and no other, and
    no second pattern lists that transaction. *)
Theorem X12_recurring_groups_partition (ts : list CategorizedTransaction) :
  let group k := withKey normalized k ts in
  let pattern k :=
    IEEE.recurringPattern k (group k)
                          (IEEE.average (map amount (group k))) in
  let accepted k := nonEmpty (IEEE.recurringOf (k, group k)) in
  IEEE.findRecurringCharges ts
  = map pattern (filter accepted (distinct (map normalized ts)))
  /\ NoDup (IEEE.findRecurringCharges ts)
  /\ (forall p t,
        In p (IEEE.findRecurringCharges ts) -> In t (transactions p) ->
        transactions p = group (normalized t)
        /\ forall p', In p' (IEEE.findRecurringCharges ts) ->
                      In t (transactions p') -> p' = p).
Proof.
  cbv zeta.
  assert (E : IEEE.findRecurringCharges ts
              = map (fun k => IEEE.recurringPattern k (withKey normalized k ts)
                       (IEEE.average (map amount (withKey normalized k ts))))
                    (filter (fun k => nonEmpty (IEEE.recurringOf
                                         (k, withKey normalized k ts)))
                            (distinct (map normalized ts)))).
  { rewrite IEEE_findRecurringCharges_keys.
    rewrite <- flat_map_singleton_if. apply flat_map_ext. intros k.
    apply IEEE_recurringOf_cases. }
  split; [exact E|]. split.
  - rewrite E. apply NoDup_map_injective.
    + intros k k' H. now injection H.
    + apply NoDup_filter. apply distinct_NoDup.
  - intros p t Hp Ht. split.
    + now rewrite (IEEE_recurring_group_of ts p t Hp Ht).
    + intros p' Hp' Ht'.
      rewrite (IEEE_recurring_group_of ts p t Hp Ht).
      exact (IEEE_recurring_group_of ts p' t Hp' Ht').
Qed.

(** ** Inputs at the thresholds *)

(** X27: on inputs that lie exactly on a threshold in decimal arithmetic
    the detectors follow the rounded comparison of the code.  Charges of
    10.50, 12.00 and 12.50 thirty days apart are reported as recurring,
    with impact 140: the mean is 11.666666666666666, the deviation of
    the first charge 1.166666666666666, the tenth of the mean
    1.1666666666666667.  Charges of 90 and 110 are not reported: the
    tenth of the mean is 10.  Monthly totals of 1.07 + 7.78 and of 26.55
    are reported as a spike: 1.5 times the mean rounds to
    26.549999999999997.  Monthly totals of 1.14 + 2.46 and of 4.14 are
    reported as a trend: the percent change comes out as
    15.000000000000002. *)
Theorem X27_thresholds_in_doubles :
  map type (IEEE.findRecurringCharges streaming) = [recurring_charge]
  /\ map impact (IEEE.findRecurringCharges streaming) = [ofZ 140]
  /\ IEEE.findRecurringCharges tenPercentApart = []
  /\ map type (IEEE.findSpendingSpikes groceries) = [spending_spike]
  /\ map severity (IEEE.findSpendingSpikes groceries) = [medium]
  /\ map type (IEEE.findTrends fifteenPercent) = [trend]
  /\ map text (IEEE.findTrends fifteenPercent)
     = [TrendText increasing
          (Fin (Q2Qc (8444249301319681 # 562949953421312)))]
  /\ map severity (IEEE.findTrends fifteenPercent) = [medium].
Proof. repeat split; js_refl. Qed.
